(** * geostore: a shallow embedding of the geohash grid of [geostore.go]

    The Go package tags a latitude/longitude point with the codes of the
    nested 4x4 grid cells that contain it, and turns a rectangular view
    into the list of cell tags that cover it.

    Go's [float64] is IEEE 754 binary64; it is modelled by Rocq's primitive
    floats, which are binary64 with the same rounding (to nearest, ties to
    even).  Go's [a > b] is written [b <? a].  Strings are byte strings;
    [len] is [String.length] and [s[i:j]] is [substring i (j - i) s].
    Each operation is rounded on its own, as the amd64 compiler emits it
    (no fused multiply-add); on the grid of the world every product and
    sum is exact, so fusing would not change a result there.
    A function that returns [(T, error)] returns a [result T]; a run-time
    panic (an array index out of range) is the third outcome, [Panic]. *)

From Stdlib Require Import Floats ZArith Bool List String Ascii Lia Uint63.
Import ListNotations.

Local Open Scope string_scope.

(** ** Constants and types *)

Definition MAXLAT : float := 90%float.
Definition MINLAT : float := (-90)%float.
Definition MAXLNG : float := 180%float.
Definition MINLNG : float := (-180)%float.
Definition MAXDEPTH : nat := 10.

Definition CODES : list (list string) :=
  [ ["0"; "1"; "2"; "3"];
    ["4"; "5"; "6"; "7"];
    ["8"; "9"; "A"; "B"];
    ["C"; "D"; "E"; "F"] ].

Record LatLng : Type := mkLatLng { Lat : float; Lng : float }.

Record LatLngBounds : Type := mkBounds { NE : LatLng; SW : LatLng }.

Definition GeoBoxTag : Type := string.

Record Geohasher : Type := mkGeohasher {
  hash : string;
  Box : LatLngBounds;
  Point : LatLng
}.

(** The values of Go's [error] that the package can return: its own
    [Error{errmsg}] and the [*strconv.NumError] of [strconv.ParseInt]. *)
Inductive NumErrKind : Type := ErrSyntax | ErrRange.

Inductive Error : Type :=
| GeoError (errmsg : string)
| NumError (func num : string) (kind : NumErrKind).

Inductive result (A : Type) : Type :=
| Ok (a : A)
| Err (e : Error)
| Panic (msg : string).
Arguments Ok {A} a.
Arguments Err {A} e.
Arguments Panic {A} msg.

Definition index_out_of_range : string := "index out of range".

(** Indexing a Go array: a read outside the array panics. *)
Definition index {A : Type} (a : list A) (i : nat) : result A :=
  match nth_error a i with
  | Some x => Ok x
  | None => Panic index_out_of_range
  end.

(** Conversion [float64(j)] of a small non-negative [int]. *)
Definition float64 (j : nat) : float := of_uint63 (Uint63.of_Z (Z.of_nat j)).

(** ** The box-size table, filled by [init] *)

(** [init] walks [i] upward; entry [i] is entry [i-1] divided by four.
    [init_from n prev] builds the [n] entries that follow [prev]. *)
Fixpoint init_from (n : nat) (prev : LatLng) : list LatLng :=
  match n with
  | O => []
  | S k =>
      let cur := mkLatLng (Lat prev / 4)%float (Lng prev / 4)%float in
      cur :: init_from k cur
  end.

Definition init (size : nat) : list LatLng :=
  match size with
  | O => []
  | S k =>
      let first := mkLatLng (MAXLAT - MINLAT)%float (MAXLNG - MINLNG)%float in
      first :: init_from k first
  end.

Definition BOXSIZES : list LatLng := init (MAXDEPTH + 1).

(** ** Geohasher *)

Definition GetHash (g : Geohasher) : string := hash g.

Definition GetDepth (g : Geohasher) : nat := String.length (hash g).

Definition Within (p : LatLng) (b : LatLngBounds) : bool :=
  if (Lat p <? Lat (SW b))%float || (Lng p <? Lng (SW b))%float
     || (Lat (NE b) <? Lat p)%float || (Lng (NE b) <? Lng p)%float
  then false else true.

Definition err_outside : Error :=
  GeoError "Error in Geohasher.Descend(). Point is outside Box.".

Definition err_no_sub_box : Error :=
  GeoError "Could not find matching sub_box for Point in Box".

Definition latSpacing (b : LatLngBounds) : float :=
  (abs (Lat (NE b) - Lat (SW b)) / 4)%float.

Definition lngSpacing (b : LatLngBounds) : float :=
  (abs (Lng (NE b) - Lng (SW b)) / 4)%float.

(** The sub-cell in row [i], column [j] of box [b]. *)
Definition sub_box (b : LatLngBounds) (i j : nat) : LatLngBounds :=
  {| SW := {| Lng := (Lng (SW b) + float64 j * lngSpacing b)%float;
              Lat := (Lat (SW b) + float64 i * latSpacing b)%float |};
     NE := {| Lng := (Lng (SW b) + float64 (j + 1) * lngSpacing b)%float;
              Lat := (Lat (SW b) + float64 (i + 1) * latSpacing b)%float |} |}.

Definition CODES_at (i j : nat) : string := nth j (nth i CODES []) "X".

(** The inner loop over [j], from the columns still to visit: the first
    sub-cell of row [i] that contains the point, with its column. *)
Fixpoint scan_cols (p : LatLng) (b : LatLngBounds) (i : nat) (js : list nat)
  : option (nat * nat) :=
  match js with
  | [] => None
  | j :: js' =>
      if Within p (sub_box b i j) then Some (i, j) else scan_cols p b i js'
  end.

(** The outer loop over [i]; it stops at the first row in which the inner
    loop found a cell (the code is then no longer "X"). *)
Fixpoint scan_rows (p : LatLng) (b : LatLngBounds) (rows : list nat)
  : option (nat * nat) :=
  match rows with
  | [] => None
  | i :: rows' =>
      match scan_cols p b i [0; 1; 2; 3]%nat with
      | Some c => Some c
      | None => scan_rows p b rows'
      end
  end.

Definition scan (p : LatLng) (b : LatLngBounds) : option (nat * nat) :=
  scan_rows p b [0; 1; 2; 3]%nat.

(** [Descend] updates the receiver in place; the model returns the new
    state together with the error, and leaves the state alone on error. *)
Definition Descend (g : Geohasher) : Geohasher * option Error :=
  if negb (Within (Point g) (Box g)) then (g, Some err_outside)
  else
    match scan (Point g) (Box g) with
    | Some (i, j) =>
        ({| hash := hash g ++ CODES_at i j;
            Box := sub_box (Box g) i j;
            Point := Point g |}, None)
    | None => (g, Some err_no_sub_box)
    end.

Definition world : LatLngBounds :=
  {| NE := {| Lat := MAXLAT; Lng := MAXLNG |};
     SW := {| Lat := MINLAT; Lng := MINLNG |} |}.

Definition new_hasher (p : LatLng) : Geohasher :=
  {| hash := ""; Box := world; Point := p |}.

(** ** Locatable and tag generation *)

Class Locatable (T : Type) : Type := {
  SetLocation : T -> LatLng -> T;
  GetLocation : T -> LatLng;
  GetGeoBoxTags : T -> list GeoBoxTag;
  AddGeoBoxTag : T -> GeoBoxTag -> T;
  ClearGeoBoxTags : T -> T
}.

(** What a caller may expect of an implementation of the interface: the
    tags are a list, [Add] appends to it, [Clear] empties it, and neither
    moves the entity. *)
Class LocatableLaws (T : Type) `{Locatable T} : Prop := {
  tags_clear : forall l, GetGeoBoxTags (ClearGeoBoxTags l) = [];
  tags_add : forall l t,
      GetGeoBoxTags (AddGeoBoxTag l t) = (GetGeoBoxTags l ++ [t])%list;
  loc_clear : forall l, GetLocation (ClearGeoBoxTags l) = GetLocation l;
  loc_add : forall l t, GetLocation (AddGeoBoxTag l t) = GetLocation l
}.

(** The plain implementation: a struct with a location and a tag slice. *)
Record Entity : Type := mkEntity {
  Location : LatLng;
  GeoBoxTags : list GeoBoxTag
}.

#[export] Instance Entity_Locatable : Locatable Entity := {
  SetLocation e p := {| Location := p; GeoBoxTags := GeoBoxTags e |};
  GetLocation e := Location e;
  GetGeoBoxTags e := GeoBoxTags e;
  AddGeoBoxTag e t := {| Location := Location e;
                         GeoBoxTags := (GeoBoxTags e ++ [t])%list |};
  ClearGeoBoxTags e := {| Location := Location e; GeoBoxTags := [] |}
}.

Section Generate.
Context {T : Type} `{Locatable T}.

(** The loop [for g.GetDepth() < MAXDEPTH].  [None] is an exhausted
    [fuel]; the loop runs at most [MAXDEPTH] times, since a successful
    [Descend] makes the hash one byte longer. *)
Fixpoint gen_loop (fuel : nat) (g : Geohasher) (l : T)
  : option (T * option Error) :=
  if (GetDepth g <? MAXDEPTH)%nat then
    match fuel with
    | O => None
    | S fuel' =>
        match Descend g with
        | (_, Some err) => Some (l, Some err)
        | (g', None) => gen_loop fuel' g' (AddGeoBoxTag l (hash g'))
        end
    end
  else Some (l, None).

(** The entity is passed by reference: the result is the entity after
    the call and the returned error ([None] is Go's [nil]). *)
Definition GenerateGeoBoxTags (l : T) : option (T * option Error) :=
  let g := new_hasher (GetLocation l) in
  let l := ClearGeoBoxTags l in
  gen_loop MAXDEPTH g l.

End Generate.

(** ** strconv.ParseInt, as far as the package uses it *)

(** The value of one digit byte, as [strconv.ParseUint] reads it. *)
Definition digit_val (d : ascii) : option Z :=
  let n := Z.of_N (N_of_ascii d) in
  if (48 <=? n)%Z && (n <=? 57)%Z then Some (n - 48)%Z
  else if (97 <=? n)%Z && (n <=? 122)%Z then Some (n - 97 + 10)%Z
  else if (65 <=? n)%Z && (n <=? 90)%Z then Some (n - 65 + 10)%Z
  else None.

Fixpoint parse_digits (base : Z) (s : string) (n : Z) : NumErrKind + Z :=
  match s with
  | EmptyString => inr n
  | String d s' =>
      match digit_val d with
      | None => inl ErrSyntax
      | Some v =>
          if (base <=? v)%Z then inl ErrSyntax
          else
            let n1 := (n * base + v)%Z in
            if (2 ^ 64 - 1 <? n1)%Z then inl ErrRange
            else parse_digits base s' n1
      end
  end.

(** [strconv.ParseInt(s, base, 0)] for [2 <= base <= 36] and a 64-bit
    [int]: an optional sign, then at least one digit. *)
Definition ParseInt (s : string) (base : Z) : result Z :=
  let fail k := Err (NumError "ParseInt" s k) in
  match s with
  | EmptyString => fail ErrSyntax
  | String c rest =>
      let neg := Ascii.eqb c "-" in
      let digits := if Ascii.eqb c "+" || neg then rest else s in
      match digits with
      | EmptyString => fail ErrSyntax
      | _ =>
          match parse_digits base digits 0 with
          | inl k => fail k
          | inr un =>
              if negb neg && (2 ^ 63 <=? un)%Z then fail ErrRange
              else if neg && (2 ^ 63 <? un)%Z then fail ErrRange
              else Ok (if neg then (- un)%Z else un)
          end
      end
  end.

(** ** Neighbour tags *)

Definition err_empty_tag : Error :=
  GeoError "geostore error: empty tag passed to GetNorthBox()".

(** [CODES[i][j]] for [int] indices. *)
Definition CODES_index (i j : Z) : result string :=
  if (i <? 0)%Z || (j <? 0)%Z then Panic index_out_of_range
  else
    match index CODES (Z.to_nat i) with
    | Ok row => index row (Z.to_nat j)
    | Err e => Err e
    | Panic m => Panic m
    end.

Definition with_code (prefix : string) (boxint : Z) : result string :=
  match CODES_index (Z.quot boxint 4) (Z.rem boxint 4) with
  | Ok code => Ok (prefix ++ code)
  | Err e => Err e
  | Panic m => Panic m
  end.

(** The recursion is on the tag without its last byte; [fuel] bounds its
    depth, and the length of the tag is always enough. *)
Fixpoint GetNorthBoxTag_fuel (fuel : nat) (boxtag : string)
  : option (result string) :=
  let hashlen := String.length boxtag in
  if (hashlen =? 0)%nat then Some (Err err_empty_tag)
  else
    let prefix := substring 0 (hashlen - 1) boxtag in
    let boxcode := substring (hashlen - 1) 1 boxtag in
    match ParseInt boxcode 16 with
    | Err e => Some (Err e)
    | Panic m => Some (Panic m)
    | Ok boxint =>
        let boxnorthint := (boxint + 4)%Z in
        if (16 <=? boxnorthint)%Z then
          match fuel with
          | O => None
          | S fuel' =>
              match GetNorthBoxTag_fuel fuel' prefix with
              | None => None
              | Some (Ok prefix') =>
                  Some (with_code prefix' (boxnorthint - 16)%Z)
              | Some (Err e) => Some (Err e)
              | Some (Panic m) => Some (Panic m)
              end
          end
        else Some (with_code prefix boxnorthint)
    end.

Definition out_of_fuel : string := "recursion deeper than the tag".

Definition GetNorthBoxTag (boxtag : string) : result string :=
  match GetNorthBoxTag_fuel (String.length boxtag) boxtag with
  | Some r => r
  | None => Panic out_of_fuel
  end.

Fixpoint GetEastBoxTag_fuel (fuel : nat) (boxtag : string)
  : option (result string) :=
  let hashlen := String.length boxtag in
  if (hashlen =? 0)%nat then Some (Err err_empty_tag)
  else
    let prefix := substring 0 (hashlen - 1) boxtag in
    let boxcode := substring (hashlen - 1) 1 boxtag in
    match ParseInt boxcode 16 with
    | Err e => Some (Err e)
    | Panic m => Some (Panic m)
    | Ok boxint =>
        let boxeastint := (boxint + 1)%Z in
        if (4 <=? Z.rem boxint 4 + 1)%Z then
          match fuel with
          | O => None
          | S fuel' =>
              match GetEastBoxTag_fuel fuel' prefix with
              | None => None
              | Some (Ok prefix') =>
                  Some (with_code prefix' (boxeastint - 4)%Z)
              | Some (Err e) => Some (Err e)
              | Some (Panic m) => Some (Panic m)
              end
          end
        else Some (with_code prefix boxeastint)
    end.

Definition GetEastBoxTag (boxtag : string) : result string :=
  match GetEastBoxTag_fuel (String.length boxtag) boxtag with
  | Some r => r
  | None => Panic out_of_fuel
  end.

(** ** Region tiling *)

Definition err_depths : Error :=
  GeoError "geostore error: FindGeoBoxBounds error; viewbounds geoboxes at different depths.".

(** The guard of the descent loop, evaluated left to right with Go's
    short-circuit [&&]: both reads of [BOXSIZES] come before the test of
    the depth. *)
Definition descend_guard (viewbounds : LatLngBounds) (swhasher : Geohasher)
  : result bool :=
  match index BOXSIZES (GetDepth swhasher + 1) with
  | Panic m => Panic m
  | Err e => Err e
  | Ok size1 =>
      if (abs (Lat (NE viewbounds) - Lat (SW viewbounds)) <? Lat size1)%float
      then
        match index BOXSIZES (GetDepth swhasher + 1) with
        | Panic m => Panic m
        | Err e => Err e
        | Ok size2 =>
            if (abs (Lng (NE viewbounds) - Lng (SW viewbounds))
                <? Lng size2)%float
            then Ok (GetDepth swhasher <? MAXDEPTH)%nat
            else Ok false
        end
      else Ok false
  end.

Record Hashers : Type := mkHashers {
  swhasher : Geohasher;
  nehasher : Geohasher;
  sehasher : Geohasher;
  nwhasher : Geohasher
}.

(** One pass of the loop body: the four cursors descend in the order of
    the source, and the first error ends the function. *)
Definition descend_all (h : Hashers) : result Hashers :=
  match Descend (swhasher h) with
  | (_, Some e) => Err e
  | (sw, None) =>
      match Descend (nehasher h) with
      | (_, Some e) => Err e
      | (ne, None) =>
          match Descend (sehasher h) with
          | (_, Some e) => Err e
          | (se, None) =>
              match Descend (nwhasher h) with
              | (_, Some e) => Err e
              | (nw, None) => Ok (mkHashers sw ne se nw)
              end
          end
      end
  end.

Fixpoint descend_loop (fuel : nat) (viewbounds : LatLngBounds) (h : Hashers)
  : option (result Hashers) :=
  match descend_guard viewbounds (swhasher h) with
  | Panic m => Some (Panic m)
  | Err e => Some (Err e)
  | Ok false => Some (Ok h)
  | Ok true =>
      match fuel with
      | O => None
      | S fuel' =>
          match descend_all h with
          | Ok h' => descend_loop fuel' viewbounds h'
          | Err e => Some (Err e)
          | Panic m => Some (Panic m)
          end
      end
  end.

(** The inner loop [for cursor != endtop]. *)
Fixpoint north_walk (fuel : nat) (cursor endtop : string)
  (geoboxtags : list GeoBoxTag) : option (result (list GeoBoxTag)) :=
  if String.eqb cursor endtop then Some (Ok geoboxtags)
  else
    match fuel with
    | O => None
    | S fuel' =>
        match GetNorthBoxTag cursor with
        | Ok next => north_walk fuel' next endtop (geoboxtags ++ [cursor])%list
        | Err e => Some (Err e)
        | Panic m => Some (Panic m)
        end
    end.

(** The outer loop [for botcursor != endbot]; [inner] is the fuel handed
    to each run of the inner loop. *)
Fixpoint east_walk (fuel inner : nat) (botcursor topcursor endbot : string)
  (geoboxtags : list GeoBoxTag) : option (result (list GeoBoxTag)) :=
  if String.eqb botcursor endbot then Some (Ok geoboxtags)
  else
    match fuel with
    | O => None
    | S fuel' =>
        match GetNorthBoxTag topcursor with
        | Err e => Some (Err e)
        | Panic m => Some (Panic m)
        | Ok endtop =>
            match north_walk inner botcursor endtop geoboxtags with
            | None => None
            | Some (Err e) => Some (Err e)
            | Some (Panic m) => Some (Panic m)
            | Some (Ok geoboxtags') =>
                match GetEastBoxTag botcursor with
                | Err e => Some (Err e)
                | Panic m => Some (Panic m)
                | Ok botcursor' =>
                    match GetEastBoxTag topcursor with
                    | Err e => Some (Err e)
                    | Panic m => Some (Panic m)
                    | Ok topcursor' =>
                        east_walk fuel' inner botcursor' topcursor' endbot
                          geoboxtags'
                    end
                end
            end
        end
    end.

Definition start_hashers (viewbounds : LatLngBounds) : Hashers :=
  {| swhasher := new_hasher (SW viewbounds);
     nehasher := new_hasher (NE viewbounds);
     sehasher := new_hasher {| Lat := Lat (SW viewbounds);
                               Lng := Lng (NE viewbounds) |};
     nwhasher := new_hasher {| Lat := Lat (NE viewbounds);
                               Lng := Lng (SW viewbounds) |} |}.

(** [fuel] bounds the two walks of the tiling; the descent loop needs none
    of it (it has [MAXDEPTH + 1] passes at its disposal and never uses
    more than [MAXDEPTH]).  [None] is an exhausted [fuel]. *)
Definition GeoBoxTagsFromViewBounds (fuel : nat) (viewbounds : LatLngBounds)
  : option (result (list GeoBoxTag)) :=
  match descend_loop (MAXDEPTH + 1) viewbounds (start_hashers viewbounds) with
  | None => None
  | Some (Panic m) => Some (Panic m)
  | Some (Err e) => Some (Err e)
  | Some (Ok h) =>
      let swhash := GetHash (swhasher h) in
      let nehash := GetHash (nehasher h) in
      let sehash := GetHash (sehasher h) in
      let nwhash := GetHash (nwhasher h) in
      if String.eqb swhash nehash then Some (Ok [swhash])
      else
        let hashlen := String.length swhash in
        if negb (hashlen =? String.length nehash)%nat
           || negb (hashlen =? String.length sehash)%nat
           || negb (hashlen =? String.length nwhash)%nat
        then Some (Err err_depths)
        else
          match GetEastBoxTag sehash with
          | Err e => Some (Err e)
          | Panic m => Some (Panic m)
          | Ok endbot => east_walk fuel fuel swhash nwhash endbot []
          end
  end.

(** ** The earlier revision of the region tiling

    The repository also holds an earlier revision of the file.  It differs
    from the current one in [GeoBoxTagsFromViewBounds] alone: two cursors
    instead of four, a descent that goes on while the two hashes agree,
    and the tags enumerated from the last symbols of the two hashes.  Its
    call of [log.Printf] writes a log line and is left out. *)

Module Earlier.

Definition err_lengths : Error :=
  GeoError "geostore error: FindGeoBoxBounds error: swhash length does not equal nehash length".

Definition slice_out_of_range : string := "slice bounds out of range".

(** The loop [for swhasher.GetHash() == nehasher.GetHash() &&
    swhasher.GetDepth() < MAXDEPTH]; [None] is an exhausted [fuel]. *)
Fixpoint descend_loop (fuel : nat) (swhasher nehasher : Geohasher)
  : option (result (Geohasher * Geohasher)) :=
  if String.eqb (GetHash swhasher) (GetHash nehasher)
     && (GetDepth swhasher <? MAXDEPTH)%nat
  then
    match fuel with
    | O => None
    | S fuel' =>
        match Descend swhasher with
        | (_, Some e) => Some (Err e)
        | (sw, None) =>
            match Descend nehasher with
            | (_, Some e) => Some (Err e)
            | (ne, None) => descend_loop fuel' sw ne
            end
        end
    end
  else Some (Ok (swhasher, nehasher)).

(** The values [lo], [lo + 1], ..., [hi] of a loop [for i := lo; i <= hi;
    i++]. *)
Definition count (lo hi : Z) : list Z :=
  map (fun k => (lo + Z.of_nat k)%Z) (seq 0 (Z.to_nat (hi - lo + 1))).

(** The inner loop over [j]: the codes of row [i] appended to
    [suffixes]. *)
Fixpoint row_codes (i : Z) (js : list Z) (suffixes : list string)
  : result (list string) :=
  match js with
  | [] => Ok suffixes
  | j :: js' =>
      match CODES_index i j with
      | Ok code => row_codes i js' (suffixes ++ [code])%list
      | Err e => Err e
      | Panic m => Panic m
      end
  end.

(** The outer loop over [i]. *)
Fixpoint all_codes (rows : list Z) (swint neint : Z) (suffixes : list string)
  : result (list string) :=
  match rows with
  | [] => Ok suffixes
  | i :: rows' =>
      match row_codes i (count (Z.rem swint 4) (Z.rem neint 4)) suffixes with
      | Ok suffixes' => all_codes rows' swint neint suffixes'
      | Err e => Err e
      | Panic m => Panic m
      end
  end.

Definition GeoBoxTagsFromViewBounds (viewbounds : LatLngBounds)
  : option (result (list GeoBoxTag)) :=
  match descend_loop MAXDEPTH (new_hasher (SW viewbounds))
          (new_hasher (NE viewbounds)) with
  | None => None
  | Some (Panic m) => Some (Panic m)
  | Some (Err e) => Some (Err e)
  | Some (Ok (swhasher, nehasher)) =>
      let swhash := GetHash swhasher in
      let nehash := GetHash nehasher in
      if String.eqb swhash nehash then Some (Ok [swhash])
      else
        let hashlen := String.length swhash in
        if negb (hashlen =? String.length nehash)%nat
        then Some (Err err_lengths)
        else if (hashlen =? 0)%nat then Some (Panic slice_out_of_range)
        else
          let prefix := substring 0 (hashlen - 1) swhash in
          let swbox := substring (hashlen - 1) 1 swhash in
          let nebox := substring (hashlen - 1) 1 nehash in
          match ParseInt swbox 16 with
          | Err e => Some (Err e)
          | Panic m => Some (Panic m)
          | Ok swint =>
              match ParseInt nebox 16 with
              | Err e => Some (Err e)
              | Panic m => Some (Panic m)
              | Ok neint =>
                  match all_codes (count (Z.quot swint 4) (Z.quot neint 4))
                          swint neint [] with
                  | Err e => Some (Err e)
                  | Panic m => Some (Panic m)
                  | Ok suffixes =>
                      Some (Ok (map (fun suffix => prefix ++ suffix) suffixes))
                  end
              end
          end
  end.

End Earlier.

(** ** The Store

    The datastore of App Engine is outside the package.  It is taken as it
    is used: a state [DS], [Put] that stores an entity of a kind and
    returns its key or an error, and the query [GetAll] for the keys of
    the entities of a kind that carry a tag, or an error.  The entities
    that [GetAll] appends to [dst] are left out; the keys are what the
    methods return. *)

Section Store.
Context {T : Type} `{Locatable T}.
Variables (DS Key : Type).
Variable Put : DS -> string -> T -> DS * (Error + Key).
Variable GetAll : DS -> string -> GeoBoxTag -> Error + list Key.

(** The result is the datastore and the entity after the call, and the
    returned error. *)
Definition StoreEntity (ds : DS) (entityKind : string) (entity : T)
  : option (DS * T * option Error) :=
  match GenerateGeoBoxTags entity with
  | None => None
  | Some (entity', Some err) => Some (ds, entity', Some err)
  | Some (entity', None) =>
      match Put ds entityKind entity' with
      | (ds', inl err) => Some (ds', entity', Some err)
      | (ds', inr _) => Some (ds', entity', None)
      end
  end.

(** The loop over the tags: one query for each tag, the keys appended in
    the order of the tags; the first error ends the function. *)
Fixpoint query_tags (ds : DS) (entityKind : string)
  (geoboxtags : list GeoBoxTag) (keys : list Key) : result (list Key) :=
  match geoboxtags with
  | [] => Ok keys
  | geoboxtag :: rest =>
      match GetAll ds entityKind geoboxtag with
      | inr ks => query_tags ds entityKind rest (keys ++ ks)%list
      | inl err => Err err
      end
  end.

Definition GetEntitiesByRegion (fuel : nat) (ds : DS)
  (viewbounds : LatLngBounds) (entityKind : string)
  : option (result (list Key)) :=
  match GeoBoxTagsFromViewBounds fuel viewbounds with
  | None => None
  | Some (Err e) => Some (Err e)
  | Some (Panic m) => Some (Panic m)
  | Some (Ok geoboxtags) => Some (query_tags ds entityKind geoboxtags [])
  end.

End Store.

(** * Definitions used by the proofs *)

(** ** The order of binary64

    The specification of the primitive comparisons ([SFcompare]) orders
    the floats that are not NaN like the triples below, compared
    lexicographically: sign class, then exponent, then mantissa. *)

Definition key (f : spec_float) : option (Z * Z * Z) :=
  match f with
  | S754_nan => None
  | S754_infinity true => Some (-2, 0, 0)%Z
  | S754_infinity false => Some (2, 0, 0)%Z
  | S754_zero _ => Some (0, 0, 0)%Z
  | S754_finite true m e => Some (-1, - e, - Zpos m)%Z
  | S754_finite false m e => Some (1, e, Zpos m)%Z
  end.

Definition fkey (x : float) : option (Z * Z * Z) := key (Prim2SF x).

Definition lt3 (k1 k2 : Z * Z * Z) : Prop :=
  let '(a1, b1, c1) := k1 in
  let '(a2, b2, c2) := k2 in
  (a1 < a2 \/ (a1 = a2 /\ (b1 < b2 \/ (b1 = b2 /\ c1 < c2))))%Z.

Definition le3 (k1 k2 : Z * Z * Z) : Prop :=
  let '(a1, b1, c1) := k1 in
  let '(a2, b2, c2) := k2 in
  (a1 < a2 \/ (a1 = a2 /\ (b1 < b2 \/ (b1 = b2 /\ c1 <= c2))))%Z.

Definition flt (x y : float) : Prop := (x <? y)%float = true.
Definition fle (x y : float) : Prop := (x <=? y)%float = true.

(** A float that is not NaN is comparable with itself. *)
Definition ord (x : float) : Prop := fle x x.

(** ** One dimension of the grid *)

(** The grid line number [j] of the interval from [lo] to [hi], as
    [Descend] computes the edges of its sub-cells. *)
Definition cut (lo hi : float) (j : nat) : float :=
  (lo + float64 j * (abs (hi - lo) / 4))%float.

(** One dimension of [Within]. *)
Definition in1 (p lo hi : float) : bool :=
  negb (p <? lo)%float && negb (hi <? p)%float.

Fixpoint first_band (p lo hi : float) (js : list nat) : option nat :=
  match js with
  | [] => None
  | j :: js' =>
      if in1 p (cut lo hi j) (cut lo hi (j + 1)) then Some j
      else first_band p lo hi js'
  end.

(** The first of the four bands of an interval that holds [p]. *)
Definition band (p lo hi : float) : option nat :=
  first_band p lo hi [0; 1; 2; 3]%nat.

(** [grid_ok n lo hi]: down to [n] levels below the interval, the grid
    lines are computed without rounding error: the outer lines are the
    ends of the interval, bit for bit, and the lines increase. *)
Fixpoint grid_ok (n : nat) (lo hi : float) : bool :=
  (lo <? hi)%float &&
  match n with
  | O => true
  | S k =>
      Leibniz.eqb (cut lo hi 0) lo && Leibniz.eqb (cut lo hi 4) hi
      && grid_ok k (cut lo hi 0) (cut lo hi 1)
      && grid_ok k (cut lo hi 1) (cut lo hi 2)
      && grid_ok k (cut lo hi 2) (cut lo hi 3)
      && grid_ok k (cut lo hi 3) (cut lo hi 4)
  end.

Definition grid_box (n : nat) (b : LatLngBounds) : bool :=
  grid_ok n (Lat (SW b)) (Lat (NE b)) && grid_ok n (Lng (SW b)) (Lng (NE b)).

(** ** Points, tags and cursors *)

(** The invariant of a Point: a latitude in [-90, 90] and a longitude in
    [-180, 180]. *)
Definition valid_point (p : LatLng) : Prop :=
  fle MINLAT (Lat p) /\ fle (Lat p) MAXLAT /\
  fle MINLNG (Lng p) /\ fle (Lng p) MAXLNG.

(** Each tag of the list extends the one before it by one byte, the first
    one extending [h]. *)
Fixpoint chain (h : string) (ts : list string) : Prop :=
  match ts with
  | [] => True
  | t :: ts' => (exists c : ascii, t = h ++ String c "") /\ chain t ts'
  end.

(** The cursors that the package builds: a fresh cursor over the whole
    world, moved by successful calls of [Descend]. *)
Inductive reachable : Geohasher -> Prop :=
| reach_new (p : LatLng) : reachable (new_hasher p)
| reach_descend (g g' : Geohasher) :
    reachable g -> Descend g = (g', None) -> reachable g'.

(** The point of the package documentation: latitude 37.781, longitude
    -122.4113, each the nearest binary64 number. *)
Definition example_point : LatLng :=
  {| Lat := 0x1.2e3f7ced91687p+5%float;
     Lng := (-0x1.e9a52bd3c3611p+6)%float |}.

(** An entity that lies outside the world and carries a tag of an earlier
    location. *)
Definition stray_entity : Entity :=
  {| Location := {| Lat := 100%float; Lng := 0%float |};
     GeoBoxTags := ["8"] |}.

(** A cursor whose box is not a cell of the grid: latitudes from -1 to
    0.2 (the nearest binary64 number), and a target point on the northern
    edge of the box. *)
Definition off_grid_hasher : Geohasher :=
  {| hash := "";
     Box := {| NE := {| Lat := 0x1.999999999999ap-3%float; Lng := 1%float |};
               SW := {| Lat := (-1)%float; Lng := (-1)%float |} |};
     Point := {| Lat := 0x1.999999999999ap-3%float; Lng := 0%float |} |}.

(** ** Cell tags *)

(** The value of a symbol of the alphabet 0-9, A-F of cell tags. *)
Definition hexval (c : ascii) : option Z :=
  let n := Z.of_N (N_of_ascii c) in
  if (48 <=? n)%Z && (n <=? 57)%Z then Some (n - 48)%Z
  else if (65 <=? n)%Z && (n <=? 70)%Z then Some (n - 65 + 10)%Z
  else None.

(** A cell tag: a string over the alphabet 0-9, A-F. *)
Fixpoint valid_tag (t : string) : Prop :=
  match t with
  | EmptyString => True
  | String c t' => hexval c <> None /\ valid_tag t'
  end.

(** Row (latitude band) and column (longitude band) of a symbol in the
    4x4 matrix [CODES]. *)
Definition row_of (c : ascii) : Z :=
  match hexval c with Some d => Z.quot d 4 | None => 0%Z end.

Definition col_of (c : ascii) : Z :=
  match hexval c with Some d => Z.rem d 4 | None => 0%Z end.

(** The digits [dg] of the symbols of a tag, read as a number in base 4,
    most significant digit first. *)
Fixpoint val_from (dg : ascii -> Z) (acc : Z) (t : string) : Z :=
  match t with
  | EmptyString => acc
  | String c t' => val_from dg (4 * acc + dg c)%Z t'
  end.

(** The row and the column of a cell in the grid of its depth. *)
Definition rowval (t : string) : Z := val_from row_of 0 t.
Definition colval (t : string) : Z := val_from col_of 0 t.

(** One dimension of the cell that a tag names: starting from the interval
    from [lo] to [hi], each symbol selects the band given by its digit. *)
Fixpoint iv_from (dg : ascii -> Z) (lo hi : float) (t : string)
  : float * float :=
  match t with
  | EmptyString => (lo, hi)
  | String c t' =>
      iv_from dg (cut lo hi (Z.to_nat (dg c)))
        (cut lo hi (Z.to_nat (dg c) + 1)) t'
  end.

(** The cell that a tag names: starting from box [b], each symbol selects
    the sub-cell of its row and column in [CODES], as [Descend] lays the
    sub-cells out. *)
Fixpoint cell_from (b : LatLngBounds) (t : string) : option LatLngBounds :=
  match t with
  | EmptyString => Some b
  | String c t' =>
      match hexval c with
      | Some _ =>
          cell_from (sub_box b (Z.to_nat (row_of c)) (Z.to_nat (col_of c))) t'
      | None => None
      end
  end.

Definition cell_of_tag (t : string) : option LatLngBounds := cell_from world t.

(** [q] lies in the closed rectangle [b]: in each direction the coordinate
    of [q] is not below the south-west corner of [b] and not above its
    north-east corner.  A comparison with a NaN is false, so the
    coordinates of [q] and the edges of [b] are numbers. *)
Definition inside (q : LatLng) (b : LatLngBounds) : Prop :=
  fle (Lat (SW b)) (Lat q) /\ fle (Lat q) (Lat (NE b))
  /\ fle (Lng (SW b)) (Lng q) /\ fle (Lng q) (Lng (NE b)).

(** Two rectangles intersect when a point lies in both, edges included. *)
Definition intersects (a b : LatLngBounds) : Prop :=
  exists q : LatLng, inside q a /\ inside q b.

(** The invariant of a view: its corners are points and the south-west
    corner is not north or east of the north-east corner. *)
Definition valid_bounds (viewbounds : LatLngBounds) : Prop :=
  valid_point (SW viewbounds) /\ valid_point (NE viewbounds)
  /\ fle (Lat (SW viewbounds)) (Lat (NE viewbounds))
  /\ fle (Lng (SW viewbounds)) (Lng (NE viewbounds)).

(** Sequencing of calls that may fail. *)
Definition and_then {A B : Type} (r : result A) (f : A -> result B)
  : result B :=
  match r with
  | Ok a => f a
  | Err e => Err e
  | Panic m => Panic m
  end.

Fixpoint east_times (n : nat) (t : string) : result string :=
  match n with
  | O => Ok t
  | S k => and_then (GetEastBoxTag t) (east_times k)
  end.

(** ** Views *)

(** The size of a cell at depth [d], for a depth of the table. *)
Definition boxsize (d : nat) : LatLng :=
  nth d BOXSIZES {| Lat := 0%float; Lng := 0%float |}.

Definition lat_span (viewbounds : LatLngBounds) : float :=
  abs (Lat (NE viewbounds) - Lat (SW viewbounds)).

Definition lng_span (viewbounds : LatLngBounds) : float :=
  abs (Lng (NE viewbounds) - Lng (SW viewbounds)).

(** A cursor of the package at depth [MAXDEPTH - n]: its box is the cell
    that its hash names, a cell of the exact grid with [n] exact levels
    below it, and contains its point. *)
Definition cursor_ok (n : nat) (g : Geohasher) : Prop :=
  (GetDepth g + n = MAXDEPTH)%nat
  /\ grid_box n (Box g) = true
  /\ Within (Point g) (Box g) = true
  /\ valid_tag (hash g)
  /\ cell_of_tag (hash g) = Some (Box g).

(** The four cursors of a view stand at the same depth, each aimed at its
    corner of the view. *)
Definition hashers_ok (viewbounds : LatLngBounds) (n : nat) (h : Hashers)
  : Prop :=
  (cursor_ok n (swhasher h) /\ Point (swhasher h) = SW viewbounds)
  /\ (cursor_ok n (nehasher h) /\ Point (nehasher h) = NE viewbounds)
  /\ (cursor_ok n (sehasher h)
      /\ Point (sehasher h) = {| Lat := Lat (SW viewbounds);
                                 Lng := Lng (NE viewbounds) |})
  /\ (cursor_ok n (nwhasher h)
      /\ Point (nwhasher h) = {| Lat := Lat (NE viewbounds);
                                 Lng := Lng (SW viewbounds) |}).

(** The whole world as a view. *)
Definition world_view : LatLngBounds := world.

(** A view of 20 degrees on each side, centred on the origin. *)
Definition middle_view : LatLngBounds :=
  {| NE := {| Lat := 10%float; Lng := 10%float |};
     SW := {| Lat := (-10)%float; Lng := (-10)%float |} |}.

(** A view of 2^-14 degrees on each side, north-east of the origin. *)
Definition small_view : LatLngBounds :=
  {| NE := {| Lat := 0x1p-14%float; Lng := 0x1p-14%float |};
     SW := {| Lat := 0%float; Lng := 0%float |} |}.

(** The view that is the single point [p]. *)
Definition point_view (p : LatLng) : LatLngBounds := {| NE := p; SW := p |}.

(** * Further definitions *)

(** The outcomes of a neighbour function that are not a panic: a tag, the
    empty-tag error, or a syntax error of [strconv.ParseInt]. *)
Definition no_panic (r : result string) : Prop :=
  match r with
  | Ok _ => True
  | Err e => e = err_empty_tag
             \/ exists num, e = NumError "ParseInt" num ErrSyntax
  | Panic _ => False
  end.

(** The number of rows, and of columns, of the grid at the depth of a
    tag. *)
Definition grid_width (t : string) : Z := (4 ^ Z.of_nat (String.length t))%Z.

(** In one dimension, [h] numbers the lowest cell of its depth that holds
    [p]: every tag of that depth whose interval holds [p] has a number at
    least as high. *)
Definition lowest1 (dg : ascii -> Z) (lo hi p : float) (h : string) : Prop :=
  forall t, valid_tag t -> String.length t = String.length h ->
    in1 p (fst (iv_from dg lo hi t)) (snd (iv_from dg lo hi t)) = true ->
    (val_from dg 0 h <= val_from dg 0 t)%Z.

(** The cell of a cursor is, in each direction, the lowest cell of its
    depth that holds the point. *)
Definition lowest (g : Geohasher) : Prop :=
  lowest1 row_of MINLAT MAXLAT (Lat (Point g)) (hash g)
  /\ lowest1 col_of MINLNG MAXLNG (Lng (Point g)) (hash g).

(** The ten tags of the south-west corner of the world. *)
Definition corner_tags : list GeoBoxTag :=
  ["0"; "00"; "000"; "0000"; "00000"; "000000"; "0000000"; "00000000";
   "000000000"; "0000000000"].

(** [x] divided by four, [k] times. *)
Fixpoint quarter (k : nat) (x : float) : float :=
  match k with
  | O => x
  | S k' => quarter k' (x / 4)%float
  end.

(** [size_ok n lo hi sz]: the interval from [lo] to [hi] has the size [sz],
    bit for bit, and down to [n] levels below it each band has a quarter
    of the size of the interval it divides. *)
Fixpoint size_ok (n : nat) (lo hi sz : float) : bool :=
  Leibniz.eqb (abs (hi - lo)) sz &&
  match n with
  | O => true
  | S k =>
      size_ok k (cut lo hi 0) (cut lo hi 1) (sz / 4)
      && size_ok k (cut lo hi 1) (cut lo hi 2) (sz / 4)
      && size_ok k (cut lo hi 2) (cut lo hi 3) (sz / 4)
      && size_ok k (cut lo hi 3) (cut lo hi 4) (sz / 4)
  end.

(** A datastore in memory, for the examples: the entities in the order
    they were put, the key of an entity being its position; a query
    returns the keys of the entities that carry the tag. *)
Definition mem_put (ds : list Entity) (entityKind : string) (e : Entity)
  : list Entity * (Error + nat) :=
  ((ds ++ [e])%list, inr (List.length ds)).

Definition mem_get_all (ds : list Entity) (entityKind : string)
  (tag : GeoBoxTag) : Error + list nat :=
  inr (map fst
         (filter (fun ke => existsb (String.eqb tag) (GeoBoxTags (snd ke)))
            (combine (seq 0 (List.length ds)) ds))).

(** * Properties *)

(** ** The order of binary64 *)

Lemma SFltb_key (f1 f2 : spec_float) :
  SFltb f1 f2 = true <->
  exists k1 k2, key f1 = Some k1 /\ key f2 = Some k2 /\ lt3 k1 k2.
Proof.
  unfold SFltb, SFcompare.
  destruct f1 as [s1| s1| |s1 m1 e1], f2 as [s2| s2| |s2 m2 e2];
    try destruct s1; try destruct s2; simpl;
    try (split; [discriminate | intros (k1 & k2 & E1 & E2 & L); try discriminate;
                 injection E1 as <-; injection E2 as <-; simpl in L; lia]);
    try (split; [intros _; do 2 eexists; split; [reflexivity|split; [reflexivity|simpl; lia]] | reflexivity]).
  all: change (Pos.compare_cont Eq m1 m2) with (Pos.compare m1 m2).
  all: destruct (Z.compare_spec e1 e2); destruct (Pos.compare_spec m1 m2); simpl.
  all: try (split; [discriminate | intros (k1 & k2 & E1 & E2 & L); try discriminate;
                 injection E1 as <-; injection E2 as <-; simpl in L; lia]).
  all: try (split; [intros _; do 2 eexists; split; [reflexivity|split; [reflexivity|simpl; lia]] | reflexivity]).
Qed.

Lemma SFleb_key (f1 f2 : spec_float) :
  SFleb f1 f2 = true <->
  exists k1 k2, key f1 = Some k1 /\ key f2 = Some k2 /\ le3 k1 k2.
Proof.
  unfold SFleb, SFcompare.
  destruct f1 as [s1| s1| |s1 m1 e1], f2 as [s2| s2| |s2 m2 e2];
    try destruct s1; try destruct s2; simpl;
    try (split; [discriminate | intros (k1 & k2 & E1 & E2 & L); try discriminate;
                 injection E1 as <-; injection E2 as <-; simpl in L; lia]);
    try (split; [intros _; do 2 eexists; split; [reflexivity|split; [reflexivity|simpl; lia]] | reflexivity]).
  all: change (Pos.compare_cont Eq m1 m2) with (Pos.compare m1 m2).
  all: destruct (Z.compare_spec e1 e2); destruct (Pos.compare_spec m1 m2); simpl.
  all: try (split; [discriminate | intros (k1 & k2 & E1 & E2 & L); try discriminate;
                 injection E1 as <-; injection E2 as <-; simpl in L; lia]).
  all: try (split; [intros _; do 2 eexists; split; [reflexivity|split; [reflexivity|simpl; lia]] | reflexivity]).
Qed.

Lemma flt_key (x y : float) :
  flt x y <-> exists k1 k2, fkey x = Some k1 /\ fkey y = Some k2 /\ lt3 k1 k2.
Proof. unfold flt. rewrite FloatAxioms.ltb_spec. apply SFltb_key. Qed.

Lemma fle_key (x y : float) :
  fle x y <-> exists k1 k2, fkey x = Some k1 /\ fkey y = Some k2 /\ le3 k1 k2.
Proof. unfold fle. rewrite FloatAxioms.leb_spec. apply SFleb_key. Qed.

(** Turns every comparison of the context and the goal into its statement
    on keys, and decides the rest by linear arithmetic. *)
Ltac key_open :=
  repeat match goal with
         | H : flt _ _ |- _ => apply flt_key in H; destruct H as (? & ? & ? & ? & H)
         | H : fle _ _ |- _ => apply fle_key in H; destruct H as (? & ? & ? & ? & H)
         end;
  repeat match goal with
         | H : fkey ?x = Some _, H' : fkey ?x = Some _ |- _ =>
             rewrite H in H'; injection H' as <-
         end.

Ltac key_close :=
  repeat match goal with
         | k : (Z * Z * Z)%type |- _ => destruct k as [[? ?] ?]
         end;
  unfold lt3, le3 in *; lia.

Lemma flt_fle (x y : float) : flt x y -> fle x y.
Proof.
  intros Hxy. key_open. apply fle_key. do 2 eexists.
  repeat split; try eassumption. key_close.
Qed.

Lemma fle_trans (x y z : float) : fle x y -> fle y z -> fle x z.
Proof.
  intros Hxy Hyz. key_open. apply fle_key. do 2 eexists.
  repeat split; try eassumption. key_close.
Qed.

Lemma flt_fle_trans (x y z : float) : flt x y -> fle y z -> flt x z.
Proof.
  intros Hxy Hyz. key_open. apply flt_key. do 2 eexists.
  repeat split; try eassumption. key_close.
Qed.

Lemma fle_flt_trans (x y z : float) : fle x y -> flt y z -> flt x z.
Proof.
  intros Hxy Hyz. key_open. apply flt_key. do 2 eexists.
  repeat split; try eassumption. key_close.
Qed.

Lemma flt_trans (x y z : float) : flt x y -> flt y z -> flt x z.
Proof. intros Hxy Hyz. eapply flt_fle_trans; [eassumption | now apply flt_fle]. Qed.

Lemma flt_asym (x y : float) : flt x y -> (y <? x)%float = false.
Proof.
  intros Hxy. destruct (y <? x)%float eqn:E; [|reflexivity].
  change (flt y x) in E. key_open. exfalso. key_close.
Qed.

Lemma fle_not_flt (x y : float) : fle x y -> (y <? x)%float = false.
Proof.
  intros Hxy. destruct (y <? x)%float eqn:E; [|reflexivity].
  change (flt y x) in E. key_open. exfalso. key_close.
Qed.

Lemma fle_ord_l (x y : float) : fle x y -> ord x.
Proof.
  intros Hxy. key_open. apply fle_key. do 2 eexists.
  repeat split; try eassumption. key_close.
Qed.

Lemma fle_ord_r (x y : float) : fle x y -> ord y.
Proof.
  intros Hxy. key_open. apply fle_key. do 2 eexists.
  repeat split; try eassumption. key_close.
Qed.

Lemma not_flt_fle (x y : float) :
  ord x -> ord y -> (y <? x)%float = false -> fle x y.
Proof.
  intros Hx Hy E. unfold ord in *. key_open.
  apply fle_key. do 2 eexists. repeat split; try eassumption.
  match goal with
  | Hx : fkey x = Some ?kx, Hy : fkey y = Some ?ky |- _ =>
      assert (N : ~ lt3 ky kx)
        by (intros L; assert (F : flt y x)
              by (apply flt_key; do 2 eexists; repeat split; eassumption);
            unfold flt in F; congruence)
  end.
  key_close.
Qed.
(** ** One dimension: a band is always found on the exact grid *)

Lemma Within_in1 (p : LatLng) (b : LatLngBounds) :
  Within p b
  = in1 (Lat p) (Lat (SW b)) (Lat (NE b))
    && in1 (Lng p) (Lng (SW b)) (Lng (NE b)).
Proof.
  unfold Within, in1.
  destruct (Lat p <? Lat (SW b))%float, (Lng p <? Lng (SW b))%float,
    (Lat (NE b) <? Lat p)%float, (Lng (NE b) <? Lng p)%float; reflexivity.
Qed.

Lemma Within_sub_box (p : LatLng) (b : LatLngBounds) (i j : nat) :
  Within p (sub_box b i j)
  = in1 (Lat p) (cut (Lat (SW b)) (Lat (NE b)) i)
        (cut (Lat (SW b)) (Lat (NE b)) (i + 1))
    && in1 (Lng p) (cut (Lng (SW b)) (Lng (NE b)) j)
           (cut (Lng (SW b)) (Lng (NE b)) (j + 1)).
Proof. rewrite Within_in1. reflexivity. Qed.

(** The row-major scan of the sixteen sub-cells picks, in each dimension
    on its own, the first band that holds the coordinate. *)
Lemma scan_bands (p : LatLng) (b : LatLngBounds) :
  scan p b
  = match band (Lat p) (Lat (SW b)) (Lat (NE b)),
          band (Lng p) (Lng (SW b)) (Lng (NE b)) with
    | Some i, Some j => Some (i, j)
    | _, _ => None
    end.
Proof.
  unfold scan, scan_rows, scan_cols, band, first_band.
  rewrite !Within_sub_box.
  repeat match goal with
         | |- context [in1 ?a ?b ?c] => generalize (in1 a b c); intro
         end.
  repeat match goal with
         | x : bool |- _ => destruct x
         end; reflexivity.
Qed.

Lemma grid_ok_lt (n : nat) (lo hi : float) :
  grid_ok n lo hi = true -> flt lo hi.
Proof.
  destruct n; simpl; intros E; apply andb_prop in E; apply E.
Qed.

Lemma grid_ok_S (n : nat) (lo hi : float) :
  grid_ok (S n) lo hi = true ->
  cut lo hi 0 = lo /\ cut lo hi 4 = hi /\
  forall j, (j < 4)%nat -> grid_ok n (cut lo hi j) (cut lo hi (j + 1)) = true.
Proof.
  simpl. intros E.
  apply andb_prop in E. destruct E as [_ E].
  repeat (apply andb_prop in E; destruct E as [E ?]).
  split; [now apply FloatAxioms.Leibniz.eqb_spec|].
  split; [now apply FloatAxioms.Leibniz.eqb_spec|].
  intros j Hj.
  destruct j as [|[|[|[|j]]]]; simpl; try assumption; lia.
Qed.

Lemma band_found (n : nat) (p lo hi : float) :
  grid_ok (S n) lo hi = true ->
  in1 p lo hi = true ->
  exists j, (j < 4)%nat /\ band p lo hi = Some j
            /\ in1 p (cut lo hi j) (cut lo hi (j + 1)) = true
            /\ grid_ok n (cut lo hi j) (cut lo hi (j + 1)) = true.
Proof.
  intros G I.
  destruct (grid_ok_S _ _ _ G) as (E0 & E4 & Gj).
  unfold in1 in I. apply andb_prop in I. destruct I as [Ilo Ihi].
  apply negb_true_iff in Ilo, Ihi.
  rewrite <- E0 in Ilo. rewrite <- E4 in Ihi.
  assert (A : forall a, (a <? p)%float = true -> (p <? a)%float = false)
    by (intros a; apply flt_asym).
  assert (F : forall j, (j < 4)%nat ->
               band p lo hi = Some j ->
               in1 p (cut lo hi j) (cut lo hi (j + 1)) = true ->
               exists j, (j < 4)%nat /\ band p lo hi = Some j
                 /\ in1 p (cut lo hi j) (cut lo hi (j + 1)) = true
                 /\ grid_ok n (cut lo hi j) (cut lo hi (j + 1)) = true).
  { intros j Hj Hb Hi. exists j. auto. }
  assert (A1 : forall a, (a <? p)%float = true -> negb (p <? a)%float = true)
    by (intros a Ha; now rewrite (A a Ha)).
  destruct (cut lo hi 1 <? p)%float eqn:C1.
  2:{ apply (F 0%nat); [lia| |];
      unfold band, first_band, in1; simpl Nat.add; now rewrite Ilo, C1. }
  destruct (cut lo hi 2 <? p)%float eqn:C2.
  2:{ apply (F 1%nat); [lia| |];
      unfold band, first_band, in1; simpl Nat.add;
      now rewrite ?Ilo, ?C1, ?(A _ C1), ?C2. }
  destruct (cut lo hi 3 <? p)%float eqn:C3.
  2:{ apply (F 2%nat); [lia| |];
      unfold band, first_band, in1; simpl Nat.add;
      now rewrite ?Ilo, ?C1, ?C2, ?(A _ C1), ?(A _ C2), ?C3. }
  apply (F 3%nat); [lia| |];
    unfold band, first_band, in1; simpl Nat.add;
    now rewrite ?Ilo, ?C1, ?C2, ?C3, ?(A _ C1), ?(A _ C2), ?(A _ C3), ?Ihi.
Qed.

(** ** Descend on a cell of the exact grid *)

(** The grid of the whole world is exact down to depth 10, in both
    directions: each of the 4^10 cells of a direction is checked. *)
Lemma world_grid_lat : grid_ok MAXDEPTH MINLAT MAXLAT = true.
Proof. vm_compute. reflexivity. Qed.

Lemma world_grid_lng : grid_ok MAXDEPTH MINLNG MAXLNG = true.
Proof. vm_compute. reflexivity. Qed.

Lemma world_grid : grid_box MAXDEPTH world = true.
Proof.
  unfold grid_box. cbn [Lat Lng SW NE world].
  rewrite world_grid_lat, world_grid_lng. reflexivity.
Qed.

Lemma length_CODES_at (i j : nat) :
  (i < 4)%nat -> (j < 4)%nat ->
  exists c : ascii, CODES_at i j = String c "".
Proof.
  intros Hi Hj.
  destruct i as [|[|[|[|i]]]]; try lia;
    destruct j as [|[|[|[|j]]]]; try lia; eexists; reflexivity.
Qed.

Lemma Descend_grid (n : nat) (g : Geohasher) :
  grid_box (S n) (Box g) = true ->
  Within (Point g) (Box g) = true ->
  exists i j, (i < 4)%nat /\ (j < 4)%nat
    /\ scan (Point g) (Box g) = Some (i, j)
    /\ Descend g = ({| hash := hash g ++ CODES_at i j;
                       Box := sub_box (Box g) i j;
                       Point := Point g |}, None)
    /\ Within (Point g) (sub_box (Box g) i j) = true
    /\ grid_box n (sub_box (Box g) i j) = true.
Proof.
  intros G W. unfold grid_box in G. apply andb_prop in G. destruct G as [Ga Gn].
  pose proof W as W'. rewrite Within_in1 in W'. apply andb_prop in W'.
  destruct W' as [Wa Wn].
  destruct (band_found _ _ _ _ Ga Wa) as (i & Hi & Bi & Ii & Gi).
  destruct (band_found _ _ _ _ Gn Wn) as (j & Hj & Bj & Ij & Gj).
  assert (S : scan (Point g) (Box g) = Some (i, j))
    by (rewrite scan_bands, Bi, Bj; reflexivity).
  exists i, j. repeat split; try assumption.
  - unfold Descend. rewrite W, S. reflexivity.
  - rewrite Within_sub_box, Ii, Ij. reflexivity.
  - unfold grid_box. simpl. fold (cut (Lat (SW (Box g))) (Lat (NE (Box g))) i).
    change (grid_ok n (cut (Lat (SW (Box g))) (Lat (NE (Box g))) i)
              (cut (Lat (SW (Box g))) (Lat (NE (Box g))) (i + 1))
            && grid_ok n (cut (Lng (SW (Box g))) (Lng (NE (Box g))) j)
                 (cut (Lng (SW (Box g))) (Lng (NE (Box g))) (j + 1)) = true).
    rewrite Gi, Gj. reflexivity.
Qed.

Lemma length_app_char (h : string) (c : ascii) :
  String.length (h ++ String c "") = S (String.length h).
Proof. induction h; simpl; congruence. Qed.

(** The invariant of the cursors of the package: at depth [d] the box is a
    cell of the exact grid with [MAXDEPTH - d] exact levels below it. *)
Lemma reachable_grid (g : Geohasher) :
  reachable g ->
  forall n, (GetDepth g + n = MAXDEPTH)%nat -> grid_box n (Box g) = true.
Proof.
  induction 1 as [p | g g' R IH D]; intros n Hn.
  - simpl in Hn. subst n. apply world_grid.
  - assert (W : Within (Point g) (Box g) = true).
    { unfold Descend in D. destruct (Within (Point g) (Box g)); [reflexivity|].
      simpl in D. discriminate. }
    unfold Descend in D. rewrite W in D. simpl in D.
    destruct (scan (Point g) (Box g)) as [[i j]|] eqn:S; [|discriminate].
    injection D as <-.
    assert (Hij : (i < 4)%nat /\ (j < 4)%nat).
    { rewrite scan_bands in S.
      destruct (band (Lat (Point g)) _ _) as [i'|] eqn:Bi; [|discriminate].
      destruct (band (Lng (Point g)) _ _) as [j'|] eqn:Bj; [|discriminate].
      injection S as <- <-.
      unfold band, first_band in Bi, Bj.
      repeat match type of Bi with
             | (if ?c then _ else _) = _ => destruct c
             end;
      repeat match type of Bj with
             | (if ?c then _ else _) = _ => destruct c
             end; try discriminate;
      injection Bi as <-; injection Bj as <-; lia. }
    destruct Hij as [Hi Hj].
    destruct (length_CODES_at i j Hi Hj) as [c Hc].
    unfold GetDepth in Hn. simpl in Hn. rewrite Hc, length_app_char in Hn.
    destruct (Descend_grid n g) as (i' & j' & _ & _ & S' & _ & _ & G').
    + apply IH. unfold GetDepth. lia.
    + exact W.
    + rewrite S in S'. injection S' as <- <-. exact G'.
Qed.

(** ** Tag generation *)

#[export] Instance Entity_Laws : LocatableLaws Entity.
Proof. split; reflexivity. Qed.

Lemma gen_loop_grid {T : Type} `{LocatableLaws T} (n : nat) :
  forall (fuel : nat) (g : Geohasher) (l : T),
    (n <= fuel)%nat ->
    (GetDepth g + n = MAXDEPTH)%nat ->
    grid_box n (Box g) = true ->
    Within (Point g) (Box g) = true ->
    exists l' ts,
      gen_loop fuel g l = Some (l', None)
      /\ GetGeoBoxTags l' = (GetGeoBoxTags l ++ ts)%list
      /\ List.length ts = n
      /\ chain (hash g) ts.
Proof.
  induction n as [|n IH]; intros fuel g l Hf Hd G W.
  - exists l, []. rewrite app_nil_r.
    assert (E : (GetDepth g <? MAXDEPTH)%nat = false)
      by (apply Nat.ltb_ge; lia).
    destruct fuel; simpl; rewrite E; repeat split; reflexivity.
  - destruct fuel as [|fuel]; [lia|].
    assert (E : (GetDepth g <? MAXDEPTH)%nat = true)
      by (apply Nat.ltb_lt; lia).
    destruct (Descend_grid n g G W) as (i & j & Hi & Hj & _ & D & W' & G').
    destruct (length_CODES_at i j Hi Hj) as [c Hc].
    simpl. rewrite E, D.
    set (g' := {| hash := hash g ++ CODES_at i j;
                  Box := sub_box (Box g) i j; Point := Point g |}).
    destruct (IH fuel g' (AddGeoBoxTag l (hash g'))) as (l' & ts & R & Tg & Ln & Ch).
    + lia.
    + unfold GetDepth in *. simpl. rewrite Hc, length_app_char. lia.
    + exact G'.
    + exact W'.
    + exists l', (hash g' :: ts). repeat split.
      * exact R.
      * rewrite Tg, tags_add, <- app_assoc. reflexivity.
      * simpl. lia.
      * exists c. simpl. now rewrite Hc.
      * exact Ch.
Qed.

Lemma chain_length (ts : list string) :
  forall h i, chain h ts -> (i < List.length ts)%nat ->
    String.length (nth i ts "") = (String.length h + S i)%nat.
Proof.
  induction ts as [|t ts IH]; intros h i Ch Hi; simpl in Hi; [lia|].
  destruct Ch as [[c Hc] Ch].
  destruct i as [|i]; simpl.
  - rewrite Hc, length_app_char. lia.
  - rewrite (IH t i Ch) by lia. rewrite Hc, length_app_char. lia.
Qed.

Lemma chain_step (ts : list string) :
  forall h i, chain h ts -> (S i < List.length ts)%nat ->
    exists c : ascii, nth (S i) ts "" = nth i ts "" ++ String c "".
Proof.
  induction ts as [|t ts IH]; intros h i Ch Hi; simpl in Hi; [lia|].
  destruct Ch as [_ Ch].
  destruct i as [|i].
  - destruct ts as [|t' ts]; simpl in *; [lia|]. apply Ch.
  - apply (IH t i Ch). lia.
Qed.

Lemma Within_world (p : LatLng) : valid_point p -> Within p world = true.
Proof.
  intros (A & B & C & D). unfold Within, world. simpl.
  rewrite (fle_not_flt _ _ A), (fle_not_flt _ _ B),
    (fle_not_flt _ _ C), (fle_not_flt _ _ D). reflexivity.
Qed.

Lemma generate_within {T : Type} `{LocatableLaws T} (l : T) :
  Within (GetLocation l) world = true ->
  exists l' ts,
    GenerateGeoBoxTags l = Some (l', None)
    /\ GetGeoBoxTags l' = ts
    /\ List.length ts = MAXDEPTH
    /\ chain "" ts.
Proof.
  intros W. unfold GenerateGeoBoxTags.
  destruct (gen_loop_grid MAXDEPTH MAXDEPTH (new_hasher (GetLocation l))
              (ClearGeoBoxTags l)) as (l' & ts & R & Tg & Ln & Ch).
  - lia.
  - reflexivity.
  - apply world_grid.
  - exact W.
  - exists l', ts. rewrite tags_clear in Tg. auto.
Qed.

(** C1: for every point with a latitude in [-90, 90] and a longitude in
    [-180, 180], [GenerateGeoBoxTags] succeeds and leaves exactly 10 tags
    on the entity; each of the first nine is extended by one byte into the
    next, and the tenth is 10 bytes long. *)
Theorem generate_ten_tags {T : Type} `{LocatableLaws T} (l : T) :
  valid_point (GetLocation l) ->
  exists l',
    GenerateGeoBoxTags l = Some (l', None)
    /\ List.length (GetGeoBoxTags l') = 10%nat
    /\ (forall i, (i < 9)%nat ->
          exists c : ascii,
            nth (S i) (GetGeoBoxTags l') ""
            = nth i (GetGeoBoxTags l') "" ++ String c "")
    /\ String.length (nth 9 (GetGeoBoxTags l') "") = 10%nat.
Proof.
  intros V.
  destruct (generate_within l (Within_world _ V)) as (l' & ts & R & Tg & Ln & Ch).
  exists l'. rewrite Tg. change MAXDEPTH with 10%nat in Ln.
  unfold GeoBoxTag in *.
  repeat split.
  - exact R.
  - exact Ln.
  - intros i Hi. apply (chain_step ts "" i Ch).
    lia.
  - rewrite (chain_length ts "" 9 Ch) by lia. reflexivity.
Qed.

Lemma generate_ten_tags_witness :
  exists l',
    GenerateGeoBoxTags (mkEntity example_point ["old"]) = Some (l', None)
    /\ List.length (GetGeoBoxTags l') = 10%nat
    /\ (forall i, (i < 9)%nat ->
          exists c : ascii,
            nth (S i) (GetGeoBoxTags l') ""
            = nth i (GetGeoBoxTags l') "" ++ String c "")
    /\ String.length (nth 9 (GetGeoBoxTags l') "") = 10%nat.
Proof.
  apply (generate_ten_tags (mkEntity example_point ["old"])).
  repeat split; reflexivity.
Defined.

(** The reference value of the package documentation: the point 37.781,
    -122.4113 gets the tags 8, 8E, ..., 8E64BF8FAB, and the tag the entity
    carried before is gone. *)
Example tags_of_example_point :
  option_map (fun r => (GetGeoBoxTags (fst r), snd r))
    (GenerateGeoBoxTags (mkEntity example_point ["old"]))
  = Some (["8"; "8E"; "8E6"; "8E64"; "8E64B"; "8E64BF"; "8E64BF8";
           "8E64BF8F"; "8E64BF8FA"; "8E64BF8FAB"], None).
Proof. vm_compute. reflexivity. Qed.

(** The loop of [GenerateGeoBoxTags] always returns. *)
Lemma generate_outside {T : Type} `{LocatableLaws T} (l : T) :
  Within (GetLocation l) world = false ->
  GenerateGeoBoxTags l = Some (ClearGeoBoxTags l, Some err_outside).
Proof.
  intros W. unfold GenerateGeoBoxTags. simpl.
  unfold Descend. simpl. rewrite W. reflexivity.
Qed.

Lemma generate_returns {T : Type} `{LocatableLaws T} (l : T) :
  exists r, GenerateGeoBoxTags l = Some r.
Proof.
  destruct (Within (GetLocation l) world) eqn:W.
  - destruct (generate_within l W) as (l' & ts & R & _). eauto.
  - rewrite (generate_outside l W). eauto.
Qed.

(** C9, as the claim states it, fails: the entity [stray_entity] lies
    outside the world, the call returns an error, and the tag it carried
    before the call is gone. *)
Lemma generate_error_changes_tags :
  GenerateGeoBoxTags stray_entity
  = Some ({| Location := Location stray_entity; GeoBoxTags := [] |},
          Some err_outside)
  /\ GetGeoBoxTags {| Location := Location stray_entity; GeoBoxTags := [] |}
     <> GetGeoBoxTags stray_entity.
Proof. split; [vm_compute; reflexivity | discriminate]. Qed.

(** C9, amended: whenever [GenerateGeoBoxTags] returns an error, the tags
    the entity had before the call have been cleared and no tag has been
    attached: the entity is left with an empty tag list.  The error is the
    one of a point outside the world, raised by the first [Descend]. *)
Theorem generate_error_leaves_no_tags {T : Type} `{LocatableLaws T}
  (l l' : T) (e : Error) :
  GenerateGeoBoxTags l = Some (l', Some e) ->
  GetGeoBoxTags l' = []
  /\ l' = ClearGeoBoxTags l
  /\ e = err_outside
  /\ Within (GetLocation l) world = false.
Proof.
  intros R.
  destruct (Within (GetLocation l) world) eqn:W.
  - destruct (generate_within l W) as (l1 & ts & R1 & _).
    rewrite R1 in R. discriminate.
  - rewrite (generate_outside l W) in R. injection R as <- <-.
    rewrite tags_clear. auto.
Qed.

Lemma generate_error_leaves_no_tags_witness :
  GetGeoBoxTags {| Location := Location stray_entity; GeoBoxTags := [] |} = []
  /\ {| Location := Location stray_entity; GeoBoxTags := [] |}
     = ClearGeoBoxTags stray_entity
  /\ err_outside = err_outside
  /\ Within (GetLocation stray_entity) world = false.
Proof.
  apply (generate_error_leaves_no_tags stray_entity).
  vm_compute. reflexivity.
Defined.

(** ** Descend *)

Lemma band_first (p lo hi : float) (i : nat) :
  band p lo hi = Some i ->
  (i < 4)%nat
  /\ in1 p (cut lo hi i) (cut lo hi (i + 1)) = true
  /\ forall i', (i' < i)%nat ->
       in1 p (cut lo hi i') (cut lo hi (i' + 1)) = false.
Proof.
  unfold band, first_band.
  destruct (in1 p (cut lo hi 0) (cut lo hi (0 + 1))) eqn:I0;
    [|destruct (in1 p (cut lo hi 1) (cut lo hi (1 + 1))) eqn:I1;
      [|destruct (in1 p (cut lo hi 2) (cut lo hi (2 + 1))) eqn:I2;
        [|destruct (in1 p (cut lo hi 3) (cut lo hi (3 + 1))) eqn:I3]]];
    intros E; try discriminate; injection E as <-;
    (split; [lia|]); (split; [assumption|]);
    intros i' Hi'; destruct i' as [|[|[|i']]]; try assumption; lia.
Qed.

(** C6: a successful [Descend] picks the first sub-cell, in row-major
    order (rows south to north, columns west to east within a row), that
    contains the point under inclusive containment: no sub-cell before it
    contains the point, and every sub-cell that contains the point has a
    row and a column at least as high, so a point on a shared edge goes to
    the lower latitude band and the lower longitude band.  The code
    [CODES[i][j]] of the cell is appended to the hash and the box becomes
    that sub-cell. *)
Theorem descend_first_cell (g g' : Geohasher) :
  Descend g = (g', None) ->
  exists i j,
    (i < 4)%nat /\ (j < 4)%nat
    /\ Within (Point g) (sub_box (Box g) i j) = true
    /\ (forall i' j', (i' < 4)%nat -> (j' < 4)%nat ->
          (i' < i \/ (i' = i /\ j' < j))%nat ->
          Within (Point g) (sub_box (Box g) i' j') = false)
    /\ (forall i' j', (i' < 4)%nat -> (j' < 4)%nat ->
          Within (Point g) (sub_box (Box g) i' j') = true ->
          (i <= i' /\ j <= j')%nat)
    /\ index CODES i = Ok (nth i CODES [])
    /\ index (nth i CODES []) j = Ok (CODES_at i j)
    /\ hash g' = hash g ++ CODES_at i j
    /\ Box g' = sub_box (Box g) i j
    /\ Point g' = Point g.
Proof.
  unfold Descend.
  destruct (Within (Point g) (Box g)); simpl; [|discriminate].
  destruct (scan (Point g) (Box g)) as [[i j]|] eqn:S; [|discriminate].
  intros E. injection E as <-. simpl.
  rewrite scan_bands in S.
  destruct (band (Lat (Point g)) _ _) as [i0|] eqn:Bi; [|discriminate].
  destruct (band (Lng (Point g)) _ _) as [j0|] eqn:Bj; [|discriminate].
  injection S as <- <-.
  destruct (band_first _ _ _ _ Bi) as (Hi & Ii & Fi).
  destruct (band_first _ _ _ _ Bj) as (Hj & Ij & Fj).
  assert (Low : forall i' j',
             Within (Point g) (sub_box (Box g) i' j') = true ->
             (i0 <= i' /\ j0 <= j')%nat).
  { intros i' j' W. rewrite Within_sub_box in W.
    apply andb_prop in W. destruct W as [Wi Wj]. split.
    - destruct (Nat.le_gt_cases i0 i') as [L|L]; [exact L|].
      rewrite (Fi i' L) in Wi. discriminate.
    - destruct (Nat.le_gt_cases j0 j') as [L|L]; [exact L|].
      rewrite (Fj j' L) in Wj. discriminate. }
  exists i0, j0.
  split; [exact Hi|]. split; [exact Hj|].
  split; [rewrite Within_sub_box, Ii, Ij; reflexivity|].
  split.
  { intros i' j' _ _ Before.
    destruct (Within (Point g) (sub_box (Box g) i' j')) eqn:W; [|reflexivity].
    destruct (Low i' j' W). lia. }
  split; [intros i' j' _ _; apply Low|].
  split.
  { destruct i0 as [|[|[|[|i0]]]]; try lia; reflexivity. }
  split.
  { destruct i0 as [|[|[|[|i0]]]]; try lia;
      destruct j0 as [|[|[|[|j0]]]]; try lia; reflexivity. }
  auto.
Qed.

Lemma descend_first_cell_witness :
  exists i j,
    (i < 4)%nat /\ (j < 4)%nat
    /\ Within example_point (sub_box world i j) = true
    /\ (forall i' j', (i' < 4)%nat -> (j' < 4)%nat ->
          (i' < i \/ (i' = i /\ j' < j))%nat ->
          Within example_point (sub_box world i' j') = false)
    /\ (forall i' j', (i' < 4)%nat -> (j' < 4)%nat ->
          Within example_point (sub_box world i' j') = true ->
          (i <= i' /\ j <= j')%nat)
    /\ index CODES i = Ok (nth i CODES [])
    /\ index (nth i CODES []) j = Ok (CODES_at i j)
    /\ "8" = "" ++ CODES_at i j
    /\ sub_box world 2 0 = sub_box world i j
    /\ example_point = example_point.
Proof.
  apply (descend_first_cell (new_hasher example_point)
           {| hash := "8"; Box := sub_box world 2 0; Point := example_point |}).
  vm_compute. reflexivity.
Defined.

(** C7, as the claim states it, fails: the target point of
    [off_grid_hasher] lies within its box, on the northern edge, yet the
    northern edge of the fourth row of sub-cells is computed a rounding
    error below it, and [Descend] returns the no-matching-cell error. *)
Lemma descend_no_cell_reached :
  Within (Point off_grid_hasher) (Box off_grid_hasher) = true
  /\ Descend off_grid_hasher = (off_grid_hasher, Some err_no_sub_box).
Proof. split; vm_compute; reflexivity. Qed.

(** C7, amended: for every cursor that the package builds (a fresh cursor
    over the whole world, moved by fewer than 10 successful calls of
    [Descend]) and whose target point lies within its box, the scan finds
    a sub-cell and [Descend] does not return the no-matching-cell error
    (nor any other). *)
Theorem descend_finds_cell (g : Geohasher) :
  reachable g ->
  (GetDepth g < MAXDEPTH)%nat ->
  Within (Point g) (Box g) = true ->
  scan (Point g) (Box g) <> None
  /\ snd (Descend g) <> Some err_no_sub_box
  /\ snd (Descend g) = None.
Proof.
  intros R D W.
  destruct (Descend_grid (MAXDEPTH - GetDepth g - 1) g)
    as (i & j & _ & _ & S & E & _).
  - apply (reachable_grid g R). lia.
  - exact W.
  - rewrite S, E. simpl. repeat split; discriminate.
Qed.

Lemma descend_finds_cell_witness :
  scan example_point world <> None
  /\ snd (Descend (new_hasher example_point)) <> Some err_no_sub_box
  /\ snd (Descend (new_hasher example_point)) = None.
Proof.
  apply (descend_finds_cell (new_hasher example_point)).
  - apply reach_new.
  - vm_compute. lia.
  - vm_compute. reflexivity.
Defined.

(** ** Strings and their last byte *)

Lemma substring_prefix (p : string) (c : ascii) :
  substring 0 (String.length p) (p ++ String c "") = p.
Proof. induction p as [|a p IH]; simpl; [reflexivity | now rewrite IH]. Qed.

Lemma substring_last (p : string) (c : ascii) :
  substring (String.length p) 1 (p ++ String c "") = String c "".
Proof. induction p as [|a p IH]; simpl; [reflexivity | exact IH]. Qed.

Lemma string_snoc (t : string) :
  t <> "" -> exists p c, t = p ++ String c "".
Proof.
  induction t as [|a t IH]; intros N; [congruence|].
  destruct t as [|b t].
  - exists "", a. reflexivity.
  - destruct IH as (p & c & E); [discriminate|].
    exists (String a p), c. simpl. now rewrite E.
Qed.

Lemma string_rev_ind (P : string -> Prop) :
  P "" ->
  (forall p c, P p -> P (p ++ String c "")) ->
  forall t, P t.
Proof.
  intros P0 PS t.
  remember (String.length t) as n eqn:Hn.
  revert t Hn. induction n as [|n IH]; intros t Hn.
  - destruct t; [exact P0 | discriminate].
  - destruct (string_snoc t) as (p & c & E).
    + intros ->. discriminate.
    + subst t. apply PS. apply IH.
      rewrite length_app_char in Hn. congruence.
Qed.

Lemma app_char_inj (p q : string) (c d : ascii) :
  p ++ String c "" = q ++ String d "" -> p = q /\ c = d.
Proof.
  revert q. induction p as [|a p IH]; intros [|b q] E; simpl in E.
  - injection E as <-. auto.
  - injection E as _ E. destruct q; discriminate.
  - injection E as _ E. destruct p; discriminate.
  - injection E as <- E. destruct (IH q E) as [<- <-]. auto.
Qed.

(** ** Symbols *)

Lemma ParseInt_hexval (c : ascii) (v : Z) :
  hexval c = Some v -> ParseInt (String c "") 16 = Ok v.
Proof.
  destruct c as [[] [] [] [] [] [] [] []]; vm_compute; intros E;
    try discriminate; injection E as <-; reflexivity.
Qed.

Lemma hexval_range (c : ascii) (v : Z) :
  hexval c = Some v -> (0 <= v < 16)%Z.
Proof.
  destruct c as [[] [] [] [] [] [] [] []]; intros E; vm_compute in E;
    try discriminate; injection E as <-; lia.
Qed.

Lemma hexval_inj (c d : ascii) (v : Z) :
  hexval c = Some v -> hexval d = Some v -> c = d.
Proof.
  destruct c as [[] [] [] [] [] [] [] []]; intros E; vm_compute in E;
    try discriminate; injection E as <-;
    destruct d as [[] [] [] [] [] [] [] []]; intros E; vm_compute in E;
    try discriminate; reflexivity.
Qed.

(** ** The neighbour functions, one symbol at a time *)

Lemma GetNorthBoxTag_snoc (p : string) (c : ascii) :
  GetNorthBoxTag (p ++ String c "")
  = and_then (ParseInt (String c "") 16) (fun boxint =>
      if (16 <=? boxint + 4)%Z
      then and_then (GetNorthBoxTag p)
             (fun p' => with_code p' (boxint + 4 - 16)%Z)
      else with_code p (boxint + 4)%Z).
Proof.
  unfold GetNorthBoxTag. rewrite length_app_char.
  cbn [GetNorthBoxTag_fuel]. rewrite length_app_char.
  cbn [Nat.eqb Nat.sub]. rewrite Nat.sub_0_r, substring_prefix, substring_last.
  destruct (ParseInt (String c "") 16) as [v|e|m]; cbn [and_then];
    try reflexivity.
  destruct (16 <=? v + 4)%Z; [|reflexivity].
  destruct (GetNorthBoxTag_fuel (String.length p) p) as [[q|e|m]|];
    reflexivity.
Qed.

Lemma GetEastBoxTag_snoc (p : string) (c : ascii) :
  GetEastBoxTag (p ++ String c "")
  = and_then (ParseInt (String c "") 16) (fun boxint =>
      if (4 <=? Z.rem boxint 4 + 1)%Z
      then and_then (GetEastBoxTag p)
             (fun p' => with_code p' (boxint + 1 - 4)%Z)
      else with_code p (boxint + 1)%Z).
Proof.
  unfold GetEastBoxTag. rewrite length_app_char.
  cbn [GetEastBoxTag_fuel]. rewrite length_app_char.
  cbn [Nat.eqb Nat.sub]. rewrite Nat.sub_0_r, substring_prefix, substring_last.
  destruct (ParseInt (String c "") 16) as [v|e|m]; cbn [and_then];
    try reflexivity.
  destruct (4 <=? Z.rem v 4 + 1)%Z; [|reflexivity].
  destruct (GetEastBoxTag_fuel (String.length p) p) as [[q|e|m]|];
    reflexivity.
Qed.

(** The symbol that [with_code] appends has the value it was given. *)
Lemma with_code_hexval (p : string) (k : Z) :
  (0 <= k < 16)%Z ->
  exists c, with_code p k = Ok (p ++ String c "") /\ hexval c = Some k.
Proof.
  intros R.
  assert (Cs : (k = 0 \/ k = 1 \/ k = 2 \/ k = 3 \/ k = 4 \/ k = 5 \/ k = 6
                \/ k = 7 \/ k = 8 \/ k = 9 \/ k = 10 \/ k = 11 \/ k = 12
                \/ k = 13 \/ k = 14 \/ k = 15)%Z) by lia.
  repeat (destruct Cs as [-> | Cs]; [eexists; split; reflexivity|]).
  subst k. eexists; split; reflexivity.
Qed.

Lemma valid_tag_snoc (p : string) (c : ascii) :
  valid_tag (p ++ String c "") <-> valid_tag p /\ hexval c <> None.
Proof.
  induction p as [|a p IH]; simpl; [tauto|]. rewrite IH. tauto.
Qed.

Lemma val_from_snoc (dg : ascii -> Z) (p : string) (c : ascii) :
  forall acc, val_from dg acc (p ++ String c "")
              = (4 * val_from dg acc p + dg c)%Z.
Proof. induction p as [|a p IH]; intros acc; simpl; [reflexivity | apply IH]. Qed.

Lemma rowval_snoc (p : string) (c : ascii) :
  rowval (p ++ String c "") = (4 * rowval p + row_of c)%Z.
Proof. apply val_from_snoc. Qed.

Lemma colval_snoc (p : string) (c : ascii) :
  colval (p ++ String c "") = (4 * colval p + col_of c)%Z.
Proof. apply val_from_snoc. Qed.

(** Go's [/] and [%] on an [int] that is not negative. *)
Ltac quot_rem_facts a :=
  pose proof (Z.quot_rem' a 4);
  pose proof (Z.rem_bound_pos a 4).

(** On cell tags a successful step north moves to the next row of the
    same column, at the same depth; a step east to the next column of the
    same row. *)
Lemma north_moves (t : string) :
  forall t', valid_tag t -> GetNorthBoxTag t = Ok t' ->
    valid_tag t' /\ String.length t' = String.length t
    /\ rowval t' = (rowval t + 1)%Z /\ colval t' = colval t.
Proof.
  induction t as [|p c IH] using string_rev_ind; intros t' V N.
  - discriminate.
  - apply valid_tag_snoc in V. destruct V as [Vp Vc].
    destruct (hexval c) as [v|] eqn:Hv; [|congruence].
    pose proof (hexval_range c v Hv) as R.
    rewrite GetNorthBoxTag_snoc, (ParseInt_hexval c v Hv) in N.
    cbn [and_then] in N.
    rewrite rowval_snoc, colval_snoc, length_app_char.
    unfold row_of, col_of. rewrite Hv.
    destruct (16 <=? v + 4)%Z eqn:Carry.
    + apply Z.leb_le in Carry.
      destruct (GetNorthBoxTag p) as [p'|e|m]; try discriminate.
      cbn [and_then] in N.
      destruct (IH p' Vp eq_refl) as (Vp' & Lp' & Rp' & Cp').
      destruct (with_code_hexval p' (v + 4 - 16)%Z) as (c' & W & Hc'); [lia|].
      rewrite W in N. injection N as <-.
      rewrite rowval_snoc, colval_snoc, length_app_char.
      unfold row_of, col_of. rewrite Hc', Rp', Cp', Lp'.
      repeat split.
      * apply valid_tag_snoc. split; [exact Vp' | congruence].
      * quot_rem_facts v. quot_rem_facts (v + 4 - 16)%Z. lia.
      * quot_rem_facts v. quot_rem_facts (v + 4 - 16)%Z. lia.
    + apply Z.leb_gt in Carry.
      destruct (with_code_hexval p (v + 4)%Z) as (c' & W & Hc'); [lia|].
      rewrite W in N. injection N as <-.
      rewrite rowval_snoc, colval_snoc, length_app_char.
      unfold row_of, col_of. rewrite Hc'.
      repeat split.
      * apply valid_tag_snoc. split; [exact Vp | congruence].
      * quot_rem_facts v. quot_rem_facts (v + 4)%Z. lia.
      * quot_rem_facts v. quot_rem_facts (v + 4)%Z. lia.
Qed.

Lemma east_moves (t : string) :
  forall t', valid_tag t -> GetEastBoxTag t = Ok t' ->
    valid_tag t' /\ String.length t' = String.length t
    /\ rowval t' = rowval t /\ colval t' = (colval t + 1)%Z.
Proof.
  induction t as [|p c IH] using string_rev_ind; intros t' V N.
  - discriminate.
  - apply valid_tag_snoc in V. destruct V as [Vp Vc].
    destruct (hexval c) as [v|] eqn:Hv; [|congruence].
    pose proof (hexval_range c v Hv) as R.
    rewrite GetEastBoxTag_snoc, (ParseInt_hexval c v Hv) in N.
    cbn [and_then] in N.
    rewrite rowval_snoc, colval_snoc, length_app_char.
    unfold row_of, col_of. rewrite Hv.
    quot_rem_facts v.
    destruct (4 <=? Z.rem v 4 + 1)%Z eqn:Carry.
    + apply Z.leb_le in Carry.
      destruct (GetEastBoxTag p) as [p'|e|m]; try discriminate.
      cbn [and_then] in N.
      destruct (IH p' Vp eq_refl) as (Vp' & Lp' & Rp' & Cp').
      destruct (with_code_hexval p' (v + 1 - 4)%Z) as (c' & W & Hc'); [lia|].
      rewrite W in N. injection N as <-.
      rewrite rowval_snoc, colval_snoc, length_app_char.
      unfold row_of, col_of. rewrite Hc', Rp', Cp', Lp'.
      quot_rem_facts (v + 1 - 4)%Z.
      repeat split; [|lia|lia].
      apply valid_tag_snoc. split; [exact Vp' | congruence].
    + apply Z.leb_gt in Carry.
      destruct (with_code_hexval p (v + 1)%Z) as (c' & W & Hc'); [lia|].
      rewrite W in N. injection N as <-.
      rewrite rowval_snoc, colval_snoc, length_app_char.
      unfold row_of, col_of. rewrite Hc'.
      quot_rem_facts (v + 1)%Z.
      repeat split; [|lia|lia].
      apply valid_tag_snoc. split; [exact Vp | congruence].
Qed.

Lemma east_times_moves (n : nat) :
  forall t t', valid_tag t -> east_times n t = Ok t' ->
    valid_tag t' /\ String.length t' = String.length t
    /\ rowval t' = rowval t /\ colval t' = (colval t + Z.of_nat n)%Z.
Proof.
  induction n as [|n IH]; intros t t' V E.
  - injection E as <-. repeat split; auto. simpl. lia.
  - cbn [east_times] in E.
    destruct (GetEastBoxTag t) as [t1|e|m] eqn:E1; try discriminate.
    cbn [and_then] in E.
    destruct (east_moves t t1 V E1) as (V1 & L1 & R1 & C1).
    destruct (IH t1 t' V1 E) as (V' & L' & R' & C').
    repeat split; try assumption; lia.
Qed.

(** A symbol is its row and its column in [CODES]. *)
Lemma symbol_of_row_col (c d : ascii) :
  hexval c <> None -> hexval d <> None ->
  row_of c = row_of d -> col_of c = col_of d -> c = d.
Proof.
  unfold row_of, col_of. intros Hc Hd.
  destruct (hexval c) as [v|] eqn:Ev; [|congruence].
  destruct (hexval d) as [w|] eqn:Ew; [|congruence].
  intros Rw Cl.
  pose proof (hexval_range c v Ev). pose proof (hexval_range d w Ew).
  quot_rem_facts v. quot_rem_facts w.
  assert (v = w) by lia. subst w.
  exact (hexval_inj c d v Ev Ew).
Qed.

(** C8: on a cell tag of 1 to 10 symbols, when four steps east in a row
    succeed, the tag reached has the same last symbol as the tag left
    (the same column, and the same cell, within its parent) and the same
    length: the two tags differ at most in the prefix before their last
    symbol. *)
Theorem east_four_times (t t4 : string) :
  valid_tag t ->
  (1 <= String.length t <= 10)%nat ->
  east_times 4 t = Ok t4 ->
  exists p p4 c,
    t = p ++ String c "" /\ t4 = p4 ++ String c ""
    /\ String.length p4 = String.length p.
Proof.
  intros V L E.
  destruct (east_times_moves 4 t t4 V E) as (V4 & L4 & R4 & C4).
  destruct (string_snoc t) as (p & c & ->).
  { intros ->. simpl in L. lia. }
  destruct (string_snoc t4) as (p4 & c4 & ->).
  { intros ->. rewrite length_app_char in L4. discriminate. }
  rewrite !length_app_char in L4.
  rewrite !rowval_snoc in R4. rewrite !colval_snoc in C4.
  apply valid_tag_snoc in V, V4.
  destruct V as [_ Vc], V4 as [_ Vc4].
  assert (Rc : (0 <= row_of c < 4 /\ 0 <= col_of c < 4)%Z).
  { unfold row_of, col_of. destruct (hexval c) as [v|] eqn:Ev; [|congruence].
    pose proof (hexval_range c v Ev). quot_rem_facts v. lia. }
  assert (Rc4 : (0 <= row_of c4 < 4 /\ 0 <= col_of c4 < 4)%Z).
  { unfold row_of, col_of. destruct (hexval c4) as [v|] eqn:Ev; [|congruence].
    pose proof (hexval_range c4 v Ev). quot_rem_facts v. lia. }
  assert (c4 = c) by (apply symbol_of_row_col; try assumption; lia).
  subst c4. exists p, p4, c. repeat split. lia.
Qed.

Lemma east_four_times_witness :
  exists p p4 c,
    "8E3" = p ++ String c "" /\ "8F3" = p4 ++ String c ""
    /\ String.length p4 = String.length p.
Proof.
  apply (east_four_times "8E3" "8F3").
  - simpl. repeat split; discriminate.
  - simpl. lia.
  - vm_compute. reflexivity.
Defined.

(** Outside the alphabet of cell tags the last symbol is not kept:
    [strconv.ParseInt] reads a lower-case digit, and [CODES] writes it back
    in upper case. *)
Example east_four_times_lower_case : east_times 4 "0a" = Ok "1A".
Proof. reflexivity. Qed.

Example north_of_cell_0 : GetNorthBoxTag "0" = Ok "4".
Proof. reflexivity. Qed.

Example tiles_of_middle_view :
  GeoBoxTagsFromViewBounds 4 middle_view = Some (Ok ["5"; "9"; "6"; "A"]).
Proof. vm_compute. reflexivity. Qed.

(** C10: at the top level, a step north from a cell of the top row and a
    step east from a cell of the rightmost column are errors: the carry
    asks for the neighbour of the empty prefix, and the empty-tag error
    comes back.  Nothing wraps around. *)
Theorem world_edge_is_an_error :
  Forall (fun t => GetNorthBoxTag t = Err err_empty_tag) ["C"; "D"; "E"; "F"]
  /\ Forall (fun t => GetEastBoxTag t = Err err_empty_tag) ["3"; "7"; "B"; "F"]
  /\ GetNorthBoxTag "" = Err err_empty_tag
  /\ GetEastBoxTag "" = Err err_empty_tag.
Proof. repeat split; repeat constructor. Qed.

(** ** The cell that a tag names *)

Lemma CODES_at_symbol (i j : nat) :
  (i < 4)%nat -> (j < 4)%nat ->
  exists c : ascii,
    CODES_at i j = String c "" /\ hexval c <> None
    /\ row_of c = Z.of_nat i /\ col_of c = Z.of_nat j.
Proof.
  intros Hi Hj.
  destruct i as [|[|[|[|i]]]]; try lia;
    destruct j as [|[|[|[|j]]]]; try lia;
    eexists; (split; [reflexivity|]); (split; [discriminate|]);
    split; reflexivity.
Qed.

Lemma cell_from_snoc (p : string) (c : ascii) :
  forall b,
    cell_from b (p ++ String c "")
    = match cell_from b p with
      | Some b' =>
          match hexval c with
          | Some _ =>
              Some (sub_box b' (Z.to_nat (row_of c)) (Z.to_nat (col_of c)))
          | None => None
          end
      | None => None
      end.
Proof.
  induction p as [|a p IH]; intros b; simpl.
  - destruct (hexval c); reflexivity.
  - destruct (hexval a); [apply IH | reflexivity].
Qed.

(** [Descend] keeps the invariant of the cursors and goes one level down. *)
Lemma Descend_cursor (n : nat) (g : Geohasher) :
  cursor_ok (S n) g ->
  exists g', Descend g = (g', None) /\ cursor_ok n g' /\ Point g' = Point g.
Proof.
  intros (D & G & W & V & C).
  destruct (Descend_grid n g G W) as (i & j & Hi & Hj & _ & E & W' & G').
  destruct (CODES_at_symbol i j Hi Hj) as (c & Hc & Vc & Rc & Cc).
  eexists. split; [exact E|]. split; [|reflexivity].
  unfold cursor_ok, GetDepth in *. simpl. rewrite Hc.
  repeat split.
  - rewrite length_app_char. lia.
  - exact G'.
  - exact W'.
  - apply valid_tag_snoc. auto.
  - unfold cell_of_tag in *. rewrite cell_from_snoc, C.
    destruct (hexval c); [|congruence].
    rewrite Rc, Cc, !Nat2Z.id. reflexivity.
Qed.

(** ** The descent loop of the region tiler *)

Lemma guard_small (viewbounds : LatLngBounds) (g : Geohasher) :
  (GetDepth g < MAXDEPTH)%nat ->
  flt (lat_span viewbounds) (Lat (boxsize MAXDEPTH)) ->
  flt (lng_span viewbounds) (Lng (boxsize MAXDEPTH)) ->
  descend_guard viewbounds g = Ok true.
Proof.
  intros D Sa Sn. unfold descend_guard.
  fold (lat_span viewbounds). fold (lng_span viewbounds).
  remember (GetDepth g) as d eqn:Hd. clear Hd.
  assert (B : index BOXSIZES (d + 1) = Ok (boxsize (d + 1))
              /\ fle (Lat (boxsize MAXDEPTH)) (Lat (boxsize (d + 1)))
              /\ fle (Lng (boxsize MAXDEPTH)) (Lng (boxsize (d + 1)))).
  { do 10 (destruct d as [|d];
           [repeat split; vm_compute; reflexivity|]).
    unfold MAXDEPTH in D. lia. }
  destruct B as (-> & La & Ln).
  rewrite (flt_fle_trans _ _ _ Sa La), (flt_fle_trans _ _ _ Sn Ln).
  apply Nat.ltb_lt in D. rewrite D. reflexivity.
Qed.

Lemma guard_at_max_depth (viewbounds : LatLngBounds) (g : Geohasher) :
  GetDepth g = MAXDEPTH ->
  descend_guard viewbounds g = Panic index_out_of_range.
Proof. intros D. unfold descend_guard. rewrite D. reflexivity. Qed.

Lemma descend_all_grid (viewbounds : LatLngBounds) (n : nat) (h : Hashers) :
  hashers_ok viewbounds (S n) h ->
  exists h', descend_all h = Ok h' /\ hashers_ok viewbounds n h'.
Proof.
  intros ([O1 P1] & [O2 P2] & [O3 P3] & [O4 P4]).
  destruct (Descend_cursor n _ O1) as (g1 & E1 & O1' & P1').
  destruct (Descend_cursor n _ O2) as (g2 & E2 & O2' & P2').
  destruct (Descend_cursor n _ O3) as (g3 & E3 & O3' & P3').
  destruct (Descend_cursor n _ O4) as (g4 & E4 & O4' & P4').
  unfold descend_all. rewrite E1, E2, E3, E4.
  eexists. split; [reflexivity|].
  unfold hashers_ok. simpl.
  split; [split; [exact O1' | congruence]|].
  split; [split; [exact O2' | congruence]|].
  split; [split; [exact O3' | congruence]|].
  split; [exact O4' | congruence].
Qed.

(** A view smaller than a cell of depth 10 drives the loop to depth 10,
    where the guard reads [BOXSIZES[11]]. *)
Lemma descend_loop_small (viewbounds : LatLngBounds) (n : nat) :
  forall (fuel : nat) (h : Hashers),
    (n <= fuel)%nat ->
    hashers_ok viewbounds n h ->
    flt (lat_span viewbounds) (Lat (boxsize MAXDEPTH)) ->
    flt (lng_span viewbounds) (Lng (boxsize MAXDEPTH)) ->
    descend_loop fuel viewbounds h = Some (Panic index_out_of_range).
Proof.
  induction n as [|n IH]; intros fuel h F O Sa Sn.
  - destruct O as (((D & _) & _) & _). rewrite Nat.add_0_r in D.
    destruct fuel; simpl; rewrite (guard_at_max_depth _ _ D); reflexivity.
  - destruct fuel as [|fuel]; [lia|].
    pose proof O as (((D & _) & _) & _).
    simpl. rewrite guard_small; try assumption; [|lia].
    destruct (descend_all_grid viewbounds n h O) as (h' & -> & O').
    apply IH; try assumption. lia.
Qed.

Lemma new_hasher_ok (p : LatLng) :
  valid_point p -> cursor_ok MAXDEPTH (new_hasher p).
Proof.
  intros V. unfold cursor_ok.
  split; [reflexivity|].
  split; [apply world_grid|].
  split; [now apply Within_world|].
  split; [exact I | reflexivity].
Qed.

Lemma start_hashers_ok (viewbounds : LatLngBounds) :
  valid_point (SW viewbounds) -> valid_point (NE viewbounds) ->
  hashers_ok viewbounds MAXDEPTH (start_hashers viewbounds).
Proof.
  intros Vs Vn. pose proof Vs as (A1 & A2 & A3 & A4).
  pose proof Vn as (B1 & B2 & B3 & B4).
  assert (Vse : valid_point {| Lat := Lat (SW viewbounds);
                               Lng := Lng (NE viewbounds) |})
    by (repeat split; assumption).
  assert (Vnw : valid_point {| Lat := Lat (NE viewbounds);
                               Lng := Lng (SW viewbounds) |})
    by (repeat split; assumption).
  unfold hashers_ok, start_hashers. cbn [swhasher nehasher sehasher nwhasher].
  split; [split; [now apply new_hasher_ok | reflexivity]|].
  split; [split; [now apply new_hasher_ok | reflexivity]|].
  split; [split; [now apply new_hasher_ok | reflexivity]|].
  split; [now apply new_hasher_ok | reflexivity].
Qed.

Lemma small_view_panics (viewbounds : LatLngBounds) (fuel : nat) :
  valid_point (SW viewbounds) -> valid_point (NE viewbounds) ->
  flt (lat_span viewbounds) (Lat (boxsize MAXDEPTH)) ->
  flt (lng_span viewbounds) (Lng (boxsize MAXDEPTH)) ->
  GeoBoxTagsFromViewBounds fuel viewbounds = Some (Panic index_out_of_range).
Proof.
  intros Vs Vn Sa Sn. unfold GeoBoxTagsFromViewBounds.
  rewrite (descend_loop_small viewbounds MAXDEPTH); try assumption.
  - reflexivity.
  - unfold MAXDEPTH. lia.
  - now apply start_hashers_ok.
Qed.

(** C2: the claim does not hold of the code.  For every valid view that
    is smaller, in both directions, than a cell of depth 10, the lock-step
    descent reaches depth 10 and its guard then reads the box-size table
    at index 11, before it tests the depth; the table has the indexes 0 to
    10, and the function panics. *)
Theorem small_view_reads_past_the_table
  (viewbounds : LatLngBounds) (fuel : nat) :
  valid_point (SW viewbounds) -> valid_point (NE viewbounds) ->
  flt (lat_span viewbounds) (Lat (boxsize MAXDEPTH)) ->
  flt (lng_span viewbounds) (Lng (boxsize MAXDEPTH)) ->
  List.length BOXSIZES = 11%nat
  /\ index BOXSIZES (MAXDEPTH + 1) = Panic index_out_of_range
  /\ GeoBoxTagsFromViewBounds fuel viewbounds
     = Some (Panic index_out_of_range).
Proof.
  intros Vs Vn Sa Sn.
  split; [reflexivity|]. split; [reflexivity|].
  now apply small_view_panics.
Qed.

Lemma small_view_reads_past_the_table_witness :
  List.length BOXSIZES = 11%nat
  /\ index BOXSIZES (MAXDEPTH + 1) = Panic index_out_of_range
  /\ GeoBoxTagsFromViewBounds 0 small_view
     = Some (Panic index_out_of_range).
Proof.
  apply (small_view_reads_past_the_table small_view 0);
    repeat split; vm_compute; reflexivity.
Defined.

(** A number between -180 and 180 minus itself is zero. *)
Lemma sub_diag_zero (x : float) :
  fle MINLNG x -> fle x MAXLNG -> abs (x - x) = 0%float.
Proof.
  intros Lo Hi.
  apply Prim2SF_inj. rewrite FloatAxioms.abs_spec, FloatAxioms.sub_spec.
  apply fle_key in Lo, Hi.
  destruct Lo as (k1 & k2 & K1 & K2 & L1).
  destruct Hi as (k3 & k4 & K3 & K4 & L2).
  unfold fkey in *.
  rewrite K2 in K3. injection K3 as <-.
  vm_compute in K1. injection K1 as <-.
  vm_compute in K4. injection K4 as <-.
  destruct (Prim2SF x) as [s| s| |s m e]; simpl in K2.
  - destruct s; reflexivity.
  - destruct s; injection K2 as <-; simpl in L1, L2; lia.
  - discriminate.
  - unfold SF64sub, SFsub. rewrite Z.sub_diag. reflexivity.
Qed.

(** C3: the claim does not hold of the code.  For every valid point, the
    view that is that single point has a span of zero, smaller than every
    cell: the descent reaches depth 10 and the guard reads the box-size
    table at index 11.  The function panics; it returns no tag. *)
Theorem point_view_panics (p : LatLng) (fuel : nat) :
  valid_point p ->
  GeoBoxTagsFromViewBounds fuel (point_view p)
  = Some (Panic index_out_of_range)
  /\ forall t, GeoBoxTagsFromViewBounds fuel (point_view p) <> Some (Ok [t]).
Proof.
  intros V.
  assert (R : GeoBoxTagsFromViewBounds fuel (point_view p)
              = Some (Panic index_out_of_range)).
  { pose proof V as (A1 & A2 & A3 & A4).
    apply small_view_panics; try exact V.
    - unfold lat_span, point_view. simpl.
      rewrite sub_diag_zero.
      + vm_compute. reflexivity.
      + apply (fle_trans _ MINLAT); [vm_compute; reflexivity | exact A1].
      + apply (fle_trans _ MAXLAT); [exact A2 | vm_compute; reflexivity].
    - unfold lng_span, point_view. simpl.
      rewrite sub_diag_zero; [vm_compute; reflexivity | exact A3 | exact A4]. }
  split; [exact R|]. intros t. rewrite R. discriminate.
Qed.

Lemma point_view_panics_witness :
  GeoBoxTagsFromViewBounds 0 (point_view example_point)
  = Some (Panic index_out_of_range)
  /\ forall t,
      GeoBoxTagsFromViewBounds 0 (point_view example_point) <> Some (Ok [t]).
Proof.
  apply (point_view_panics example_point 0).
  repeat split; vm_compute; reflexivity.
Defined.

(** C4: the claim does not hold of the code.  On the view that is the
    whole world the guard of the descent fails at once (a cell of depth 1
    is not larger than the view), the south-west and north-east cursors
    both hold the empty hash, and the function returns that one empty tag,
    not the sixteen tags of depth 1. *)
Theorem world_view_single_empty_tag (fuel : nat) :
  GeoBoxTagsFromViewBounds fuel world_view = Some (Ok [""]).
Proof. reflexivity. Qed.

(** ** The grid lines are sorted, and cells are nested *)

Lemma grid_ok_ord (n : nat) (lo hi : float) :
  grid_ok n lo hi = true -> ord lo /\ ord hi.
Proof.
  intros G. apply grid_ok_lt, flt_fle in G.
  split; [exact (fle_ord_l _ _ G) | exact (fle_ord_r _ _ G)].
Qed.

Lemma cuts_step (m : nat) (lo hi : float) (i k : nat) :
  grid_ok (S m) lo hi = true ->
  (i + k <= 4)%nat -> fle (cut lo hi i) (cut lo hi (i + k)).
Proof.
  intros G. destruct (grid_ok_S _ _ _ G) as (_ & _ & Gj).
  induction k as [|k IH]; intros L.
  - rewrite Nat.add_0_r.
    destruct (Nat.eq_dec i 4) as [->|N].
    + apply (grid_ok_ord m (cut lo hi 3)). apply (Gj 3%nat). lia.
    + apply (grid_ok_ord m _ (cut lo hi (i + 1))). apply Gj. lia.
  - apply (fle_trans _ (cut lo hi (i + k))); [apply IH; lia|].
    replace (i + S k)%nat with (i + k + 1)%nat by lia.
    apply flt_fle, (grid_ok_lt m), Gj. lia.
Qed.

Lemma cuts_sorted (m : nat) (lo hi : float) (i i' : nat) :
  grid_ok (S m) lo hi = true ->
  (i <= i' <= 4)%nat -> fle (cut lo hi i) (cut lo hi i').
Proof.
  intros G L. replace i' with (i + (i' - i))%nat by lia.
  apply (cuts_step m); [exact G | lia].
Qed.

Section OneDimension.
Variable dg : ascii -> Z.
Hypothesis dg_range : forall c, hexval c <> None -> (0 <= dg c < 4)%Z.

Lemma val_from_acc (t : string) :
  forall acc,
    val_from dg acc t
    = (acc * 4 ^ Z.of_nat (String.length t) + val_from dg 0 t)%Z.
Proof.
  induction t as [|c s IH]; intros acc.
  - simpl. lia.
  - cbn [val_from String.length]. rewrite IH, (IH (4 * 0 + dg c)%Z).
    rewrite Nat2Z.inj_succ, Z.pow_succ_r by lia. ring.
Qed.

Lemma val_bound (t : string) :
  valid_tag t -> (0 <= val_from dg 0 t < 4 ^ Z.of_nat (String.length t))%Z.
Proof.
  induction t as [|c s IH]; intros V.
  - simpl. lia.
  - destruct V as [Vc Vs]. specialize (IH Vs).
    pose proof (dg_range c Vc).
    cbn [val_from String.length]. rewrite val_from_acc.
    rewrite Nat2Z.inj_succ, Z.pow_succ_r by lia. nia.
Qed.

(** The cell of a tag lies inside the interval it starts from. *)
Lemma iv_nested (t : string) :
  forall n lo hi,
    grid_ok n lo hi = true -> valid_tag t -> (String.length t <= n)%nat ->
    fle lo (fst (iv_from dg lo hi t))
    /\ fle (snd (iv_from dg lo hi t)) hi
    /\ grid_ok (n - String.length t) (fst (iv_from dg lo hi t))
         (snd (iv_from dg lo hi t)) = true.
Proof.
  induction t as [|c s IH]; intros n lo hi G V L.
  - simpl. rewrite Nat.sub_0_r.
    destruct (grid_ok_ord _ _ _ G). auto.
  - destruct V as [Vc Vs]. simpl in L.
    destruct n as [|m]; [lia|].
    pose proof (dg_range c Vc) as R.
    destruct (grid_ok_S _ _ _ G) as (E0 & E4 & Gj).
    assert (J : (Z.to_nat (dg c) < 4)%nat) by lia.
    destruct (IH m _ _ (Gj _ J) Vs) as (A & B & C); [lia|].
    cbn [iv_from String.length Nat.sub].
    repeat split.
    + apply (fle_trans _ (cut lo hi (Z.to_nat (dg c)))); [|exact A].
      rewrite <- E0 at 1. apply (cuts_sorted m); [exact G | lia].
    + apply (fle_trans _ (cut lo hi (Z.to_nat (dg c) + 1))); [exact B|].
      rewrite <- E4 at 2. apply (cuts_sorted m); [exact G | lia].
    + exact C.
Qed.

(** Cells of one depth are laid out in the order of their numbers. *)
Lemma iv_mono (t : string) :
  forall t' n lo hi,
    grid_ok n lo hi = true -> valid_tag t -> valid_tag t' ->
    String.length t = String.length t' -> (String.length t <= n)%nat ->
    (val_from dg 0 t <= val_from dg 0 t')%Z ->
    fle (fst (iv_from dg lo hi t)) (fst (iv_from dg lo hi t'))
    /\ fle (snd (iv_from dg lo hi t)) (snd (iv_from dg lo hi t')).
Proof.
  induction t as [|c s IH]; intros t' n lo hi G V V' E L Le.
  - destruct t'; [|discriminate]. simpl.
    destruct (grid_ok_ord _ _ _ G). auto.
  - destruct t' as [|c' s']; [discriminate|].
    destruct V as [Vc Vs], V' as [Vc' Vs']. simpl in L, E.
    injection E as E.
    destruct n as [|m]; [lia|].
    pose proof (dg_range c Vc) as R. pose proof (dg_range c' Vc') as R'.
    destruct (grid_ok_S _ _ _ G) as (_ & _ & Gj).
    assert (J : (Z.to_nat (dg c) < 4)%nat) by lia.
    assert (J' : (Z.to_nat (dg c') < 4)%nat) by lia.
    cbn [val_from] in Le.
    rewrite (val_from_acc s), (val_from_acc s'), <- E in Le.
    pose proof (val_bound s Vs) as Bs. pose proof (val_bound s' Vs') as Bs'.
    rewrite <- E in Bs'.
    cbn [iv_from].
    destruct (Z.eq_dec (dg c) (dg c')) as [Q|Q].
    + rewrite <- Q. apply (IH s' m); try assumption; [apply Gj; lia|lia|lia].
    + assert (Lt : (dg c < dg c')%Z) by nia.
      destruct (iv_nested s m _ _ (Gj _ J) Vs) as (A & B & C); [lia|].
      destruct (iv_nested s' m _ _ (Gj _ J') Vs') as (A' & B' & C'); [lia|].
      apply grid_ok_lt, flt_fle in C, C'.
      assert (M : fle (cut lo hi (Z.to_nat (dg c) + 1))
                      (cut lo hi (Z.to_nat (dg c')))).
      { apply (cuts_sorted m); [exact G | lia]. }
      split.
      * eapply fle_trans; [exact C|].
        eapply fle_trans; [exact B|].
        eapply fle_trans; [exact M|]. exact A'.
      * eapply fle_trans; [exact B|].
        eapply fle_trans; [exact M|].
        eapply fle_trans; [exact A'|]. exact C'.
Qed.

End OneDimension.

Lemma row_of_range (c : ascii) : hexval c <> None -> (0 <= row_of c < 4)%Z.
Proof.
  unfold row_of. destruct (hexval c) as [v|] eqn:E; [|congruence].
  intros _. pose proof (hexval_range c v E). quot_rem_facts v. lia.
Qed.

Lemma col_of_range (c : ascii) : hexval c <> None -> (0 <= col_of c < 4)%Z.
Proof.
  unfold col_of. destruct (hexval c) as [v|] eqn:E; [|congruence].
  intros _. pose proof (hexval_range c v E). quot_rem_facts v. lia.
Qed.

(** The cell of a tag, one dimension at a time. *)
Lemma cell_from_iv (t : string) :
  forall b, valid_tag t ->
    cell_from b t
    = Some {| NE := {| Lat := snd (iv_from row_of (Lat (SW b)) (Lat (NE b)) t);
                       Lng := snd (iv_from col_of (Lng (SW b)) (Lng (NE b)) t) |};
              SW := {| Lat := fst (iv_from row_of (Lat (SW b)) (Lat (NE b)) t);
                       Lng := fst (iv_from col_of (Lng (SW b)) (Lng (NE b)) t) |} |}.
Proof.
  induction t as [|c s IH]; intros b V.
  - destruct b as [[] []]. reflexivity.
  - destruct V as [Vc Vs]. cbn [cell_from iv_from].
    destruct (hexval c); [|congruence].
    rewrite (IH _ Vs). reflexivity.
Qed.

(** ** The two walks of the tiling *)

(** The inner walk visits cells of the column of its start, from the row
    of the start up to the row before the one where it stops. *)
Lemma north_walk_visits (fuel : nat) :
  forall cursor endtop acc tags,
    valid_tag cursor ->
    north_walk fuel cursor endtop acc = Some (Ok tags) ->
    (rowval cursor <= rowval endtop)%Z
    /\ exists visited,
        tags = (acc ++ visited)%list
        /\ forall t, In t visited ->
             valid_tag t /\ String.length t = String.length cursor
             /\ colval t = colval cursor
             /\ (rowval cursor <= rowval t < rowval endtop)%Z.
Proof.
  induction fuel as [|fuel IH]; intros cursor endtop acc tags V W;
    cbn [north_walk] in W;
    destruct (String.eqb_spec cursor endtop) as [<-|N].
  - injection W as <-. split; [lia|]. exists []. rewrite app_nil_r.
    split; [reflexivity | intros t []].
  - discriminate.
  - injection W as <-. split; [lia|]. exists []. rewrite app_nil_r.
    split; [reflexivity | intros t []].
  - destruct (GetNorthBoxTag cursor) as [next|e|m] eqn:E; try discriminate.
    destruct (north_moves cursor next V E) as (Vn & Ln & Rn & Cn).
    destruct (IH next endtop _ tags Vn W) as (Le & visited & -> & Vis).
    split; [lia|].
    exists (cursor :: visited). rewrite <- app_assoc. split; [reflexivity|].
    intros t [<-|I].
    + repeat split; try assumption; lia.
    + destruct (Vis t I) as (Vt & Lt & Ct & Rt).
      repeat split; try assumption; try congruence; lia.
Qed.

(** The outer walk visits, column after column from the column of the
    bottom cursor up to the column before the one where it stops, cells
    between the row of the bottom cursor and the row of the top cursor. *)
Lemma east_walk_visits (inner fuel : nat) :
  forall botcursor topcursor endbot acc tags,
    valid_tag botcursor -> valid_tag topcursor ->
    east_walk fuel inner botcursor topcursor endbot acc = Some (Ok tags) ->
    (colval botcursor <= colval endbot)%Z
    /\ exists visited,
        tags = (acc ++ visited)%list
        /\ forall t, In t visited ->
             valid_tag t /\ String.length t = String.length botcursor
             /\ (colval botcursor <= colval t < colval endbot)%Z
             /\ (rowval botcursor <= rowval t <= rowval topcursor)%Z.
Proof.
  induction fuel as [|fuel IH]; intros bot top endbot acc tags Vb Vt W;
    cbn [east_walk] in W;
    destruct (String.eqb_spec bot endbot) as [<-|N].
  - injection W as <-. split; [lia|]. exists []. rewrite app_nil_r.
    split; [reflexivity | intros t []].
  - discriminate.
  - injection W as <-. split; [lia|]. exists []. rewrite app_nil_r.
    split; [reflexivity | intros t []].
  - destruct (GetNorthBoxTag top) as [endtop|e|m] eqn:En; try discriminate.
    destruct (north_moves top endtop Vt En) as (_ & _ & Rn & _).
    destruct (north_walk inner bot endtop acc) as [[tags1|e|m]|] eqn:Wn;
      try discriminate.
    destruct (north_walk_visits inner bot endtop acc tags1 Vb Wn)
      as (_ & column & -> & Col).
    destruct (GetEastBoxTag bot) as [bot'|e|m] eqn:Eb; try discriminate.
    destruct (GetEastBoxTag top) as [top'|e|m] eqn:Et; try discriminate.
    destruct (east_moves bot bot' Vb Eb) as (Vb' & Lb' & Rb' & Cb').
    destruct (east_moves top top' Vt Et) as (Vt' & Lt' & Rt' & Ct').
    destruct (IH bot' top' endbot _ tags Vb' Vt' W)
      as (Reach & rest & -> & Rest).
    split; [lia|].
    exists (column ++ rest)%list. rewrite <- app_assoc.
    split; [reflexivity|].
    intros t I. apply in_app_or in I. destruct I as [I|I].
    + destruct (Col t I) as (V1 & L1 & C1 & R1).
      repeat split; try assumption; lia.
    + destruct (Rest t I) as (V1 & L1 & C1 & R1).
      repeat split; try assumption; try congruence; lia.
Qed.

(** ** The descent loop keeps the cursors on the grid *)

Lemma guard_true_depth (viewbounds : LatLngBounds) (g : Geohasher) :
  descend_guard viewbounds g = Ok true -> (GetDepth g < MAXDEPTH)%nat.
Proof.
  unfold descend_guard.
  destruct (index BOXSIZES (GetDepth g + 1)) as [b|e|m]; try discriminate.
  destruct (_ <? Lat b)%float; try discriminate.
  destruct (_ <? Lng b)%float; try discriminate.
  intros E. injection E as E. now apply Nat.ltb_lt.
Qed.

Lemma descend_loop_ok (viewbounds : LatLngBounds) (fuel : nat) :
  forall n h h',
    hashers_ok viewbounds n h ->
    descend_loop fuel viewbounds h = Some (Ok h') ->
    exists n', hashers_ok viewbounds n' h'.
Proof.
  induction fuel as [|fuel IH]; intros n h h' O L; cbn [descend_loop] in L;
    destruct (descend_guard viewbounds (swhasher h)) as [[|]|e|m] eqn:G;
    try discriminate;
    try (injection L as <-; exists n; exact O).
  apply guard_true_depth in G.
  pose proof O as (((D & _) & _) & _).
  destruct n as [|n]; [lia|].
  destruct (descend_all_grid viewbounds n h O) as (h1 & E & O1).
  rewrite E in L. exact (IH n h1 h' O1 L).
Qed.

Lemma scan_range (p : LatLng) (b : LatLngBounds) (i j : nat) :
  scan p b = Some (i, j) -> (i < 4)%nat /\ (j < 4)%nat.
Proof.
  rewrite scan_bands.
  destruct (band (Lat p) _ _) as [i'|] eqn:Bi; [|discriminate].
  destruct (band (Lng p) _ _) as [j'|] eqn:Bj; [|discriminate].
  intros E. injection E as <- <-.
  split; [apply (band_first _ _ _ _ Bi) | apply (band_first _ _ _ _ Bj)].
Qed.

(** A successful [Descend] makes the hash one byte longer. *)
Lemma Descend_depth (g g' : Geohasher) :
  Descend g = (g', None) -> GetDepth g' = S (GetDepth g).
Proof.
  unfold Descend.
  destruct (Within (Point g) (Box g)); simpl; [|discriminate].
  destruct (scan (Point g) (Box g)) as [[i j]|] eqn:S; [|discriminate].
  intros E. injection E as <-.
  destruct (scan_range _ _ _ _ S) as [Hi Hj].
  destruct (length_CODES_at i j Hi Hj) as [c Hc].
  unfold GetDepth. simpl. rewrite Hc. apply length_app_char.
Qed.

(** The descent loop returns within [MAXDEPTH + 1] passes, whatever the
    view. *)
Lemma descend_loop_returns (viewbounds : LatLngBounds) (fuel : nat) :
  forall h, (MAXDEPTH < GetDepth (swhasher h) + fuel)%nat ->
    descend_loop fuel viewbounds h <> None.
Proof.
  induction fuel as [|fuel IH]; intros h F; cbn [descend_loop];
    destruct (descend_guard viewbounds (swhasher h)) as [[|]|e|m] eqn:G;
    try discriminate.
  - apply guard_true_depth in G. lia.
  - unfold descend_all.
    destruct (Descend (swhasher h)) as [sw [e|]] eqn:E1; try discriminate.
    destruct (Descend (nehasher h)) as [ne [e|]]; try discriminate.
    destruct (Descend (sehasher h)) as [se [e|]]; try discriminate.
    destruct (Descend (nwhasher h)) as [nw [e|]]; try discriminate.
    apply IH. simpl. rewrite (Descend_depth _ _ E1). lia.
Qed.

(** ** Every tile meets the view *)

Lemma in1_fle (p lo hi : float) :
  ord p -> ord lo -> ord hi -> in1 p lo hi = true -> fle lo p /\ fle p hi.
Proof.
  intros Op Ol Oh I. unfold in1 in I. apply andb_prop in I.
  destruct I as [A B]. apply negb_true_iff in A, B.
  split; apply not_flt_fle; assumption.
Qed.

Lemma fle_in1 (p lo hi : float) : fle lo p -> fle p hi -> in1 p lo hi = true.
Proof.
  intros A B. unfold in1.
  rewrite (fle_not_flt _ _ A), (fle_not_flt _ _ B). reflexivity.
Qed.

(** Two intervals that start before the other one ends share a point. *)
Lemma overlap1 (a b c d : float) :
  fle a b -> fle c d -> fle a d -> fle c b ->
  exists x, (fle a x /\ fle x b) /\ (fle c x /\ fle x d).
Proof.
  intros Hab Hcd Had Hcb.
  destruct (a <? c)%float eqn:E.
  - exists c. split; split.
    + now apply flt_fle.
    + exact Hcb.
    + exact (fle_ord_l _ _ Hcd).
    + exact Hcd.
  - exists a. split; split.
    + exact (fle_ord_l _ _ Hab).
    + exact Hab.
    + apply not_flt_fle;
        [exact (fle_ord_l _ _ Hcd) | exact (fle_ord_l _ _ Hab) | exact E].
    + exact Had.
Qed.

(** A point in a rectangle passes the test of the package. *)
Lemma inside_Within (q : LatLng) (b : LatLngBounds) :
  inside q b -> Within q b = true.
Proof.
  intros (A & B & C & D). rewrite Within_in1.
  rewrite (fle_in1 _ _ _ A B), (fle_in1 _ _ _ C D). reflexivity.
Qed.

(** Two rectangles intersect exactly when each has its south-west corner
    not north or east of its north-east corner, and each starts, in both
    directions, not after the other one ends. *)
Lemma intersects_iff (a b : LatLngBounds) :
  intersects a b
  <-> (fle (Lat (SW a)) (Lat (NE a)) /\ fle (Lat (SW b)) (Lat (NE b))
       /\ fle (Lat (SW a)) (Lat (NE b)) /\ fle (Lat (SW b)) (Lat (NE a)))
      /\ (fle (Lng (SW a)) (Lng (NE a)) /\ fle (Lng (SW b)) (Lng (NE b))
          /\ fle (Lng (SW a)) (Lng (NE b)) /\ fle (Lng (SW b)) (Lng (NE a))).
Proof.
  split.
  - intros (q & (A1 & A2 & A3 & A4) & (B1 & B2 & B3 & B4)).
    split; (split; [|split; [|split]]); eapply fle_trans; eassumption.
  - intros ((A1 & A2 & A3 & A4) & (B1 & B2 & B3 & B4)).
    destruct (overlap1 _ _ _ _ A1 A2 A3 A4) as (x & [X1 X2] & [X3 X4]).
    destruct (overlap1 _ _ _ _ B1 B2 B3 B4) as (y & [Y1 Y2] & [Y3 Y4]).
    exists {| Lat := x; Lng := y |}. unfold inside. cbn [Lat Lng]. tauto.
Qed.

(** The cell [0], in the south-west corner of the world, does not
    intersect the view of 20 degrees around the origin. *)
Example corner_cell_misses_middle_view :
  forall cell, cell_of_tag "0" = Some cell -> ~ intersects cell middle_view.
Proof.
  intros cell C. vm_compute in C. injection C as <-.
  rewrite intersects_iff. intros ((_ & _ & _ & F) & _).
  vm_compute in F. discriminate.
Qed.

(** One dimension of a tile: the cell [t] lies between the cells [ts] and
    [tn] of the two ends [p] and [q] of the view. *)
Lemma tile_meets_view (dg : ascii -> Z) (lo hi p q : float) (t ts tn : string) :
  (forall c, hexval c <> None -> (0 <= dg c < 4)%Z) ->
  grid_ok MAXDEPTH lo hi = true ->
  valid_tag t -> valid_tag ts -> valid_tag tn ->
  String.length ts = String.length t ->
  String.length tn = String.length t ->
  (String.length t <= MAXDEPTH)%nat ->
  (val_from dg 0 ts <= val_from dg 0 t <= val_from dg 0 tn)%Z ->
  fle p q ->
  in1 p (fst (iv_from dg lo hi ts)) (snd (iv_from dg lo hi ts)) = true ->
  in1 q (fst (iv_from dg lo hi tn)) (snd (iv_from dg lo hi tn)) = true ->
  exists x,
    (fle (fst (iv_from dg lo hi t)) x /\ fle x (snd (iv_from dg lo hi t)))
    /\ (fle p x /\ fle x q).
Proof.
  intros R G Vt Vs Vn Ls Ln L [Vlo Vhi] Hpq Ip Iq.
  destruct (iv_nested dg R t _ _ _ G Vt L) as (_ & _ & Gt).
  destruct (iv_nested dg R ts _ _ _ G Vs) as (_ & _ & Gs); [lia|].
  destruct (iv_nested dg R tn _ _ _ G Vn) as (_ & _ & Gn); [lia|].
  destruct (grid_ok_ord _ _ _ Gs) as [Os1 Os2].
  destruct (grid_ok_ord _ _ _ Gn) as [On1 On2].
  destruct (iv_mono dg R ts t _ _ _ G Vs Vt Ls) as [_ Hi1]; [lia|exact Vlo|].
  destruct (iv_mono dg R t tn _ _ _ G Vt Vn) as [Lo1 _];
    [congruence|lia|exact Vhi|].
  destruct (in1_fle _ _ _ (fle_ord_l _ _ Hpq) Os1 Os2 Ip) as [_ P2].
  destruct (in1_fle _ _ _ (fle_ord_r _ _ Hpq) On1 On2 Iq) as [Q1 _].
  apply overlap1.
  - apply flt_fle, (grid_ok_lt _ _ _ Gt).
  - exact Hpq.
  - exact (fle_trans _ _ _ Lo1 Q1).
  - exact (fle_trans _ _ _ P2 Hi1).
Qed.

Lemma cursor_cell (n : nat) (g : Geohasher) :
  cursor_ok n g ->
  in1 (Lat (Point g))
      (fst (iv_from row_of MINLAT MAXLAT (hash g)))
      (snd (iv_from row_of MINLAT MAXLAT (hash g))) = true
  /\ in1 (Lng (Point g))
      (fst (iv_from col_of MINLNG MAXLNG (hash g)))
      (snd (iv_from col_of MINLNG MAXLNG (hash g))) = true.
Proof.
  intros (_ & _ & W & V & C).
  unfold cell_of_tag in C. rewrite (cell_from_iv _ world V) in C.
  injection C as C. rewrite <- C in W. rewrite Within_in1 in W.
  apply andb_prop in W. exact W.
Qed.

(** A tag between the tags of the corners names a cell that meets the
    view. *)
Lemma between_corners_meets_view
  (viewbounds : LatLngBounds) (n : nat) (h : Hashers) (t : string) :
  valid_bounds viewbounds ->
  hashers_ok viewbounds n h ->
  valid_tag t ->
  String.length t = String.length (hash (swhasher h)) ->
  (rowval (hash (swhasher h)) <= rowval t <= rowval (hash (nwhasher h)))%Z ->
  (colval (hash (swhasher h)) <= colval t <= colval (hash (sehasher h)))%Z ->
  exists cell, cell_of_tag t = Some cell /\ intersects cell viewbounds.
Proof.
  intros (_ & _ & Hlat & Hlng) ((Osw & Psw) & _ & (Ose & Pse) & (Onw & Pnw))
    Vt Lt Rt Ct.
  destruct (cursor_cell _ _ Osw) as [SWa SWn].
  destruct (cursor_cell _ _ Ose) as [_ SEn].
  destruct (cursor_cell _ _ Onw) as [NWa _].
  rewrite Psw in SWa, SWn. rewrite Pse in SEn. rewrite Pnw in NWa.
  cbn [Lat Lng] in SWa, SWn, SEn, NWa.
  destruct Osw as (Dsw & _ & _ & Vsw & _).
  destruct Ose as (Dse & _ & _ & Vse & _).
  destruct Onw as (Dnw & _ & _ & Vnw & _).
  unfold GetDepth in Dsw, Dse, Dnw.
  destruct (tile_meets_view row_of MINLAT MAXLAT
              (Lat (SW viewbounds)) (Lat (NE viewbounds))
              t (hash (swhasher h)) (hash (nwhasher h)))
    as (x & [X1 X2] & [X3 X4]);
    [exact row_of_range | exact world_grid_lat | exact Vt | exact Vsw
    | exact Vnw | congruence | lia | lia | exact Rt | exact Hlat
    | exact SWa | exact NWa |].
  destruct (tile_meets_view col_of MINLNG MAXLNG
              (Lng (SW viewbounds)) (Lng (NE viewbounds))
              t (hash (swhasher h)) (hash (sehasher h)))
    as (y & [Y1 Y2] & [Y3 Y4]);
    [exact col_of_range | exact world_grid_lng | exact Vt | exact Vsw
    | exact Vse | congruence | lia | lia | exact Ct | exact Hlng
    | exact SWn | exact SEn |].
  eexists. split; [unfold cell_of_tag; apply (cell_from_iv _ world Vt)|].
  exists {| Lat := x; Lng := y |}.
  unfold inside. cbn [Lat Lng NE SW world]. tauto.
Qed.

(** C5: for every valid view on which [GeoBoxTagsFromViewBounds] succeeds,
    every tag of the returned list names a cell of the grid, and the
    rectangle of that cell intersects the view: a point whose coordinates
    are numbers lies in both, not below the south-west corner and not
    above the north-east corner of either. *)
Theorem tiles_intersect_view
  (viewbounds : LatLngBounds) (fuel : nat) (tags : list GeoBoxTag) :
  valid_bounds viewbounds ->
  GeoBoxTagsFromViewBounds fuel viewbounds = Some (Ok tags) ->
  forall t, In t tags ->
    exists cell, cell_of_tag t = Some cell /\ intersects cell viewbounds.
Proof.
  intros VB R t I. pose proof VB as (Vs & Vn & Hlat & Hlng).
  unfold GeoBoxTagsFromViewBounds in R.
  destruct (descend_loop (MAXDEPTH + 1) viewbounds (start_hashers viewbounds))
    as [[h|e|m]|] eqn:L; try discriminate.
  destruct (descend_loop_ok _ _ _ _ _ (start_hashers_ok _ Vs Vn) L) as (n & O).
  pose proof O as ((Osw & Psw) & _ & (Ose & _) & (Onw & _)).
  unfold GetHash in R.
  destruct (String.eqb_spec (hash (swhasher h)) (hash (nehasher h))) as [Q|Q].
  - injection R as <-. destruct I as [<-|[]].
    destruct Osw as (_ & G & W & _ & C).
    exists (Box (swhasher h)). split; [exact C|].
    exists (SW viewbounds). rewrite Psw in W.
    pose proof (fle_ord_l _ _ Hlat) as Oa.
    pose proof (fle_ord_l _ _ Hlng) as On.
    split; [|unfold inside; tauto].
    unfold grid_box in G. apply andb_prop in G. destruct G as [Ga Gn].
    destruct (grid_ok_ord _ _ _ Ga) as [Ga1 Ga2].
    destruct (grid_ok_ord _ _ _ Gn) as [Gn1 Gn2].
    rewrite Within_in1 in W. apply andb_prop in W. destruct W as [Wa Wn].
    destruct (in1_fle _ _ _ Oa Ga1 Ga2 Wa) as [A1 A2].
    destruct (in1_fle _ _ _ On Gn1 Gn2 Wn) as [B1 B2].
    unfold inside. tauto.
  - match type of R with
    | (if ?c then _ else _) = _ => destruct c; [discriminate|]
    end.
    destruct (GetEastBoxTag (hash (sehasher h))) as [endbot|e|m] eqn:E;
      try discriminate.
    destruct Osw as (_ & _ & _ & Vsw & _).
    destruct Ose as (_ & _ & _ & Vse & _).
    destruct Onw as (_ & _ & _ & Vnw & _).
    destruct (east_moves _ _ Vse E) as (_ & _ & _ & Ce).
    destruct (east_walk_visits _ _ _ _ _ _ _ Vsw Vnw R)
      as (_ & visited & -> & Vis).
    destruct (Vis t I) as (Vt & Lt & Ct & Rt).
    apply (between_corners_meets_view viewbounds n h t VB O Vt Lt); lia.
Qed.

Lemma tiles_intersect_view_witness :
  exists cell, cell_of_tag "A" = Some cell /\ intersects cell middle_view.
Proof.
  apply (tiles_intersect_view middle_view 4 ["5"; "9"; "6"; "A"]).
  - repeat split; vm_compute; reflexivity.
  - vm_compute. reflexivity.
  - simpl. auto.
Defined.

(** ** More on the neighbour functions *)

Lemma row_col_snoc_inj (R R' r r' : Z) :
  (0 <= r < 4)%Z -> (0 <= r' < 4)%Z ->
  (4 * R + r = 4 * R' + r')%Z -> R = R' /\ r = r'.
Proof. lia. Qed.

(** A cell tag is its depth, its row and its column. *)
Lemma tag_inj (t : string) :
  forall t', valid_tag t -> valid_tag t' ->
    String.length t = String.length t' ->
    rowval t = rowval t' -> colval t = colval t' -> t = t'.
Proof.
  induction t as [|p c IH] using string_rev_ind; intros t' V V' L R C.
  - destruct t'; [reflexivity | discriminate].
  - destruct (string_snoc t') as (p' & c' & ->).
    { intros ->. rewrite length_app_char in L. discriminate. }
    rewrite !length_app_char in L. rewrite !rowval_snoc in R.
    rewrite !colval_snoc in C.
    apply valid_tag_snoc in V, V'. destruct V as [Vp Vc], V' as [Vp' Vc'].
    destruct (row_col_snoc_inj _ _ _ _ (row_of_range c Vc)
                (row_of_range c' Vc') R) as [Rp Rc].
    destruct (row_col_snoc_inj _ _ _ _ (col_of_range c Vc)
                (col_of_range c' Vc') C) as [Cp Cc].
    rewrite (IH p' Vp Vp') by (assumption || lia).
    now rewrite (symbol_of_row_col c c' Vc Vc' Rc Cc).
Qed.

Lemma ParseInt_single (c : ascii) :
  (exists v, ParseInt (String c "") 16 = Ok v /\ (0 <= v < 16)%Z)
  \/ ParseInt (String c "") 16 = Err (NumError "ParseInt" (String c "") ErrSyntax).
Proof.
  destruct c as [[] [] [] [] [] [] [] []];
    match goal with
    | |- (exists v, ?p = _ /\ _) \/ _ =>
        let r := eval vm_compute in p in
        match r with
        | Ok ?v => left; exists v; split; [vm_compute; reflexivity | lia]
        | _ => right; vm_compute; reflexivity
        end
    end.
Qed.

Lemma north_no_panic (t : string) : no_panic (GetNorthBoxTag t).
Proof.
  induction t as [|p c IH] using string_rev_ind.
  - left. reflexivity.
  - rewrite GetNorthBoxTag_snoc.
    destruct (ParseInt_single c) as [(v & -> & R) | ->]; cbn [and_then].
    2:{ right. eexists. reflexivity. }
    destruct (16 <=? v + 4)%Z eqn:Carry.
    + apply Z.leb_le in Carry.
      destruct (GetNorthBoxTag p) as [p'|e|m]; cbn [and_then]; try exact IH.
      destruct (with_code_hexval p' (v + 4 - 16)%Z) as (c' & -> & _);
        [lia | exact I].
    + apply Z.leb_gt in Carry.
      destruct (with_code_hexval p (v + 4)%Z) as (c' & -> & _);
        [lia | exact I].
Qed.

Lemma east_no_panic (t : string) : no_panic (GetEastBoxTag t).
Proof.
  induction t as [|p c IH] using string_rev_ind.
  - left. reflexivity.
  - rewrite GetEastBoxTag_snoc.
    destruct (ParseInt_single c) as [(v & -> & R) | ->]; cbn [and_then].
    2:{ right. eexists. reflexivity. }
    quot_rem_facts v.
    destruct (4 <=? Z.rem v 4 + 1)%Z eqn:Carry.
    + apply Z.leb_le in Carry.
      destruct (GetEastBoxTag p) as [p'|e|m]; cbn [and_then]; try exact IH.
      destruct (with_code_hexval p' (v + 1 - 4)%Z) as (c' & -> & _);
        [lia | exact I].
    + apply Z.leb_gt in Carry.
      destruct (with_code_hexval p (v + 1)%Z) as (c' & -> & _);
        [lia | exact I].
Qed.

Lemma rowval_bound (t : string) :
  valid_tag t -> (0 <= rowval t < grid_width t)%Z.
Proof. apply (val_bound row_of row_of_range). Qed.

Lemma colval_bound (t : string) :
  valid_tag t -> (0 <= colval t < grid_width t)%Z.
Proof. apply (val_bound col_of col_of_range). Qed.

Lemma grid_width_snoc (p : string) (c : ascii) :
  grid_width (p ++ String c "") = (4 * grid_width p)%Z.
Proof.
  unfold grid_width. rewrite length_app_char, Nat2Z.inj_succ.
  apply Z.pow_succ_r. lia.
Qed.

(** On a cell tag the step north fails exactly in the top row of the grid
    of its depth, with the empty-tag error; everywhere else it returns a
    tag. *)
Lemma north_top_row (t : string) :
  valid_tag t ->
  if (rowval t + 1 =? grid_width t)%Z
  then GetNorthBoxTag t = Err err_empty_tag
  else exists t', GetNorthBoxTag t = Ok t'.
Proof.
  induction t as [|p c IH] using string_rev_ind; intros V.
  - reflexivity.
  - apply valid_tag_snoc in V. destruct V as [Vp Vc].
    specialize (IH Vp). pose proof (rowval_bound p Vp) as Bp.
    pose proof (row_of_range c Vc) as Rc.
    rewrite rowval_snoc, grid_width_snoc, GetNorthBoxTag_snoc.
    unfold row_of in *.
    destruct (hexval c) as [v|] eqn:Hv; [|congruence].
    pose proof (hexval_range c v Hv) as R. quot_rem_facts v.
    rewrite (ParseInt_hexval c v Hv). cbn [and_then].
    destruct (16 <=? v + 4)%Z eqn:Carry.
    + apply Z.leb_le in Carry.
      destruct (rowval p + 1 =? grid_width p)%Z eqn:Top.
      * apply Z.eqb_eq in Top. rewrite IH. cbn [and_then].
        replace (4 * rowval p + Z.quot v 4 + 1 =? 4 * grid_width p)%Z
          with true by (symmetry; apply Z.eqb_eq; lia).
        reflexivity.
      * apply Z.eqb_neq in Top. destruct IH as [p' ->]. cbn [and_then].
        replace (4 * rowval p + Z.quot v 4 + 1 =? 4 * grid_width p)%Z
          with false by (symmetry; apply Z.eqb_neq; lia).
        destruct (with_code_hexval p' (v + 4 - 16)%Z) as (c' & -> & _);
          [lia | eauto].
    + apply Z.leb_gt in Carry.
      replace (4 * rowval p + Z.quot v 4 + 1 =? 4 * grid_width p)%Z
        with false by (symmetry; apply Z.eqb_neq; lia).
      destruct (with_code_hexval p (v + 4)%Z) as (c' & -> & _);
        [lia | eauto].
Qed.

Lemma east_last_column (t : string) :
  valid_tag t ->
  if (colval t + 1 =? grid_width t)%Z
  then GetEastBoxTag t = Err err_empty_tag
  else exists t', GetEastBoxTag t = Ok t'.
Proof.
  induction t as [|p c IH] using string_rev_ind; intros V.
  - reflexivity.
  - apply valid_tag_snoc in V. destruct V as [Vp Vc].
    specialize (IH Vp). pose proof (colval_bound p Vp) as Bp.
    pose proof (col_of_range c Vc) as Rc.
    rewrite colval_snoc, grid_width_snoc, GetEastBoxTag_snoc.
    unfold col_of in *.
    destruct (hexval c) as [v|] eqn:Hv; [|congruence].
    pose proof (hexval_range c v Hv) as R. quot_rem_facts v.
    rewrite (ParseInt_hexval c v Hv). cbn [and_then].
    destruct (4 <=? Z.rem v 4 + 1)%Z eqn:Carry.
    + apply Z.leb_le in Carry.
      destruct (colval p + 1 =? grid_width p)%Z eqn:Top.
      * apply Z.eqb_eq in Top. rewrite IH. cbn [and_then].
        replace (4 * colval p + Z.rem v 4 + 1 =? 4 * grid_width p)%Z
          with true by (symmetry; apply Z.eqb_eq; lia).
        reflexivity.
      * apply Z.eqb_neq in Top. destruct IH as [p' ->]. cbn [and_then].
        replace (4 * colval p + Z.rem v 4 + 1 =? 4 * grid_width p)%Z
          with false by (symmetry; apply Z.eqb_neq; lia).
        destruct (with_code_hexval p' (v + 1 - 4)%Z) as (c' & -> & _);
          [lia | eauto].
    + apply Z.leb_gt in Carry.
      replace (4 * colval p + Z.rem v 4 + 1 =? 4 * grid_width p)%Z
        with false by (symmetry; apply Z.eqb_neq; lia).
      destruct (with_code_hexval p (v + 1)%Z) as (c' & -> & _);
        [lia | eauto].
Qed.

(** X1: The neighbour functions never index [CODES] out of range, whatever
    bytes the tag holds: each returns a tag, the empty-tag error or the syntax
    error of [strconv.ParseInt], never a panic. *)
Theorem neighbours_never_panic (t : string) :
  no_panic (GetNorthBoxTag t) /\ no_panic (GetEastBoxTag t).
Proof. split; [apply north_no_panic | apply east_no_panic]. Qed.

(** X2: On a cell tag a step fails exactly at the edge of the world, with the
    empty-tag error: the step north in the top row of the grid of the depth of
    the tag, the step east in its last column. Everywhere else the step
    returns a cell tag of the same depth, one row up in the same column,
    respectively one column right in the same row. *)
Theorem neighbours_fail_at_the_world_edge (t : string) :
  valid_tag t ->
  (if (rowval t + 1 =? grid_width t)%Z
   then GetNorthBoxTag t = Err err_empty_tag
   else exists t', GetNorthBoxTag t = Ok t' /\ valid_tag t'
                   /\ String.length t' = String.length t
                   /\ rowval t' = (rowval t + 1)%Z /\ colval t' = colval t)
  /\ (if (colval t + 1 =? grid_width t)%Z
      then GetEastBoxTag t = Err err_empty_tag
      else exists t', GetEastBoxTag t = Ok t' /\ valid_tag t'
                      /\ String.length t' = String.length t
                      /\ rowval t' = rowval t
                      /\ colval t' = (colval t + 1)%Z).
Proof.
  intros V. split.
  - pose proof (north_top_row t V) as N.
    destruct (rowval t + 1 =? grid_width t)%Z; [exact N|].
    destruct N as [t' N]. exists t'. split; [exact N|].
    exact (north_moves t t' V N).
  - pose proof (east_last_column t V) as E.
    destruct (colval t + 1 =? grid_width t)%Z; [exact E|].
    destruct E as [t' E]. exists t'. split; [exact E|].
    exact (east_moves t t' V E).
Qed.

Lemma neighbours_fail_at_the_world_edge_witness :
  GetNorthBoxTag "FC" = Err err_empty_tag
  /\ exists t', GetEastBoxTag "FC" = Ok t' /\ valid_tag t'
                 /\ String.length t' = String.length "FC"
                 /\ rowval t' = rowval "FC"
                 /\ colval t' = (colval "FC" + 1)%Z.
Proof.
  apply (neighbours_fail_at_the_world_edge "FC").
  simpl. repeat split; discriminate.
Defined.

(** X3: On cell tags the two steps commute: when a step north and a step east
    from a cell both succeed, the step east from the northern neighbour and
    the step north from the eastern neighbour succeed too and reach the same
    cell. *)
Theorem north_east_commute (t a c : string) :
  valid_tag t ->
  GetNorthBoxTag t = Ok a -> GetEastBoxTag t = Ok c ->
  exists b, GetEastBoxTag a = Ok b /\ GetNorthBoxTag c = Ok b.
Proof.
  intros V Na Ec.
  destruct (north_moves t a V Na) as (Va & La & Ra & Ca).
  destruct (east_moves t c V Ec) as (Vc & Lc & Rc & Cc).
  pose proof (north_top_row t V) as Nt.
  pose proof (east_last_column t V) as Et.
  pose proof (north_top_row c Vc) as Nc.
  pose proof (east_last_column a Va) as Ea.
  unfold grid_width in *. rewrite Na in Nt. rewrite Ec in Et.
  rewrite Lc, Rc in Nc. rewrite La, Ca in Ea.
  destruct (rowval t + 1 =? _)%Z; [discriminate|].
  destruct (colval t + 1 =? _)%Z; [discriminate|].
  destruct Ea as [b Eb], Nc as [d Nd].
  destruct (east_moves a b Va Eb) as (Vb & Lb & Rb & Cb).
  destruct (north_moves c d Vc Nd) as (Vd & Ld & Rd & Cd).
  exists b. split; [exact Eb|]. rewrite Nd. f_equal.
  apply tag_inj; try assumption; congruence || lia.
Qed.

Lemma north_east_commute_witness :
  exists b, GetEastBoxTag "8F" = Ok b /\ GetNorthBoxTag "98" = Ok b.
Proof.
  apply (north_east_commute "8B" "8F" "98").
  - simpl. repeat split; discriminate.
  - reflexivity.
  - reflexivity.
Defined.

(** ** The cells of one depth, side by side *)

Section Layout.
Variable dg : ascii -> Z.
Hypothesis dg_range : forall c, hexval c <> None -> (0 <= dg c < 4)%Z.

Lemma val_cons (c : ascii) (s : string) :
  val_from dg 0 (String c s)
  = (dg c * 4 ^ Z.of_nat (String.length s) + val_from dg 0 s)%Z.
Proof.
  cbn [val_from]. rewrite (val_from_acc dg). ring.
Qed.

Lemma iv_snoc (p : string) (c : ascii) :
  forall lo hi,
    iv_from dg lo hi (p ++ String c "")
    = (cut (fst (iv_from dg lo hi p)) (snd (iv_from dg lo hi p))
         (Z.to_nat (dg c)),
       cut (fst (iv_from dg lo hi p)) (snd (iv_from dg lo hi p))
         (Z.to_nat (dg c) + 1)).
Proof.
  induction p as [|a p IH]; intros lo hi; simpl; [reflexivity | apply IH].
Qed.

(** The first cell of an interval starts where the interval starts, and
    the last one ends where it ends, bit for bit. *)
Lemma iv_first (t : string) :
  forall n lo hi,
    grid_ok n lo hi = true -> valid_tag t -> (String.length t <= n)%nat ->
    val_from dg 0 t = 0%Z -> fst (iv_from dg lo hi t) = lo.
Proof.
  induction t as [|c s IH]; intros n lo hi G V L Z0; [reflexivity|].
  destruct V as [Vc Vs]. simpl in L. destruct n as [|m]; [lia|].
  pose proof (dg_range c Vc) as R. pose proof (val_bound dg dg_range s Vs) as B.
  rewrite val_cons in Z0.
  assert (D : dg c = 0%Z) by nia. assert (Zs : val_from dg 0 s = 0%Z) by nia.
  destruct (grid_ok_S _ _ _ G) as (E0 & _ & Gj).
  cbn [iv_from]. rewrite D. cbn [Z.to_nat].
  rewrite (IH m _ _ (Gj 0%nat ltac:(lia)) Vs ltac:(lia) Zs). exact E0.
Qed.

Lemma iv_last (t : string) :
  forall n lo hi,
    grid_ok n lo hi = true -> valid_tag t -> (String.length t <= n)%nat ->
    (val_from dg 0 t + 1 = 4 ^ Z.of_nat (String.length t))%Z ->
    snd (iv_from dg lo hi t) = hi.
Proof.
  induction t as [|c s IH]; intros n lo hi G V L Z0; [reflexivity|].
  destruct V as [Vc Vs]. simpl in L. destruct n as [|m]; [lia|].
  pose proof (dg_range c Vc) as R. pose proof (val_bound dg dg_range s Vs) as B.
  rewrite val_cons in Z0. cbn [String.length] in Z0.
  rewrite Nat2Z.inj_succ, Z.pow_succ_r in Z0 by lia.
  assert (D : dg c = 3%Z) by nia.
  assert (Zs : (val_from dg 0 s + 1 = 4 ^ Z.of_nat (String.length s))%Z) by nia.
  destruct (grid_ok_S _ _ _ G) as (_ & E4 & Gj).
  cbn [iv_from]. rewrite D. change (Z.to_nat 3) with 3%nat.
  rewrite (IH m _ _ (Gj 3%nat ltac:(lia)) Vs ltac:(lia) Zs). exact E4.
Qed.

(** Two tags of one depth with the same number name the same interval. *)
Lemma iv_same (t : string) :
  forall t' lo hi,
    valid_tag t -> valid_tag t' -> String.length t = String.length t' ->
    val_from dg 0 t = val_from dg 0 t' ->
    iv_from dg lo hi t = iv_from dg lo hi t'.
Proof.
  induction t as [|c s IH]; intros t' lo hi V V' L E.
  - destruct t'; [reflexivity | discriminate].
  - destruct t' as [|c' s']; [discriminate|].
    destruct V as [Vc Vs], V' as [Vc' Vs']. injection L as L.
    pose proof (dg_range c Vc) as R. pose proof (dg_range c' Vc') as R'.
    pose proof (val_bound dg dg_range s Vs) as B.
    pose proof (val_bound dg dg_range s' Vs') as B'.
    rewrite !val_cons, <- L in E. rewrite <- L in B'.
    assert (D : dg c = dg c') by nia.
    assert (Es : val_from dg 0 s = val_from dg 0 s') by nia.
    cbn [iv_from]. rewrite D. apply IH; assumption.
Qed.

(** A cell ends where the next cell of its depth starts, bit for bit. *)
Lemma iv_adjacent (t : string) :
  forall t' n lo hi,
    grid_ok n lo hi = true -> valid_tag t -> valid_tag t' ->
    String.length t = String.length t' -> (String.length t <= n)%nat ->
    (val_from dg 0 t' = val_from dg 0 t + 1)%Z ->
    snd (iv_from dg lo hi t) = fst (iv_from dg lo hi t').
Proof.
  induction t as [|c s IH]; intros t' n lo hi G V V' L Ln E.
  - destruct t'; [|discriminate]. simpl in E. lia.
  - destruct t' as [|c' s']; [discriminate|].
    destruct V as [Vc Vs], V' as [Vc' Vs']. injection L as L.
    simpl in Ln. destruct n as [|m]; [lia|].
    pose proof (dg_range c Vc) as R. pose proof (dg_range c' Vc') as R'.
    pose proof (val_bound dg dg_range s Vs) as B.
    pose proof (val_bound dg dg_range s' Vs') as B'.
    rewrite !val_cons, <- L in E. rewrite <- L in B'.
    destruct (grid_ok_S _ _ _ G) as (_ & _ & Gj).
    cbn [iv_from].
    destruct (Z.eq_dec (dg c) (dg c')) as [D|D].
    + rewrite <- D. apply (IH s' m); try assumption; [apply Gj; lia|lia|nia].
    + assert (D' : dg c' = (dg c + 1)%Z) by nia.
      assert (Zs : (val_from dg 0 s + 1 = 4 ^ Z.of_nat (String.length s))%Z)
        by nia.
      assert (Zs' : val_from dg 0 s' = 0%Z) by nia.
      rewrite (iv_last s m _ _ (Gj (Z.to_nat (dg c)) ltac:(lia)) Vs ltac:(lia) Zs).
      rewrite (iv_first s' m _ _ (Gj (Z.to_nat (dg c')) ltac:(lia)) Vs'
                 ltac:(lia) Zs').
      rewrite D'.
      replace (Z.to_nat (dg c + 1)) with (Z.to_nat (dg c) + 1)%nat by lia.
      reflexivity.
Qed.

(** A cell lies before every cell of its depth with a higher number. *)
Lemma iv_sep (t : string) :
  forall t' n lo hi,
    grid_ok n lo hi = true -> valid_tag t -> valid_tag t' ->
    String.length t = String.length t' -> (String.length t <= n)%nat ->
    (val_from dg 0 t < val_from dg 0 t')%Z ->
    fle (snd (iv_from dg lo hi t)) (fst (iv_from dg lo hi t')).
Proof.
  induction t as [|c s IH]; intros t' n lo hi G V V' L Ln E.
  - destruct t'; [|discriminate]. simpl in E. lia.
  - destruct t' as [|c' s']; [discriminate|].
    destruct V as [Vc Vs], V' as [Vc' Vs']. injection L as L.
    simpl in Ln. destruct n as [|m]; [lia|].
    pose proof (dg_range c Vc) as R. pose proof (dg_range c' Vc') as R'.
    pose proof (val_bound dg dg_range s Vs) as B.
    pose proof (val_bound dg dg_range s' Vs') as B'.
    rewrite !val_cons, <- L in E. rewrite <- L in B'.
    destruct (grid_ok_S _ _ _ G) as (_ & _ & Gj).
    cbn [iv_from].
    destruct (Z.eq_dec (dg c) (dg c')) as [D|D].
    + rewrite <- D. apply (IH s' m); try assumption; [apply Gj; lia|lia|nia].
    + assert (Lt : (dg c < dg c')%Z) by nia.
      destruct (iv_nested dg dg_range s m _ _
                  (Gj (Z.to_nat (dg c)) ltac:(lia)) Vs)
        as (_ & B1 & _); [lia|].
      destruct (iv_nested dg dg_range s' m _ _
                  (Gj (Z.to_nat (dg c')) ltac:(lia)) Vs')
        as (A1 & _ & _); [lia|].
      eapply fle_trans; [exact B1|].
      eapply fle_trans; [|exact A1].
      apply (cuts_sorted m); [exact G | lia].
Qed.

End Layout.

Lemma cell_of_valid_tag (t : string) :
  valid_tag t ->
  cell_of_tag t
  = Some {| NE := {| Lat := snd (iv_from row_of MINLAT MAXLAT t);
                     Lng := snd (iv_from col_of MINLNG MAXLNG t) |};
            SW := {| Lat := fst (iv_from row_of MINLAT MAXLAT t);
                     Lng := fst (iv_from col_of MINLNG MAXLNG t) |} |}.
Proof. intros V. exact (cell_from_iv t world V). Qed.

(** X4: The northern neighbour of a cell is the cell above it: it starts at
    the latitude where the cell ends, bit for bit, and spans the same
    longitudes. *)
Theorem north_is_the_cell_above (t t' : string) :
  valid_tag t -> (String.length t <= MAXDEPTH)%nat ->
  GetNorthBoxTag t = Ok t' ->
  exists cell cell',
    cell_of_tag t = Some cell /\ cell_of_tag t' = Some cell'
    /\ Lat (SW cell') = Lat (NE cell)
    /\ Lng (SW cell') = Lng (SW cell) /\ Lng (NE cell') = Lng (NE cell).
Proof.
  intros V L N.
  destruct (north_moves t t' V N) as (V' & L' & R' & C').
  rewrite (cell_of_valid_tag t V), (cell_of_valid_tag t' V').
  do 2 eexists. split; [reflexivity|]. split; [reflexivity|].
  cbn [Lat Lng SW NE].
  rewrite (iv_same col_of col_of_range t' t) by (assumption || congruence).
  split; [|split; reflexivity].
  symmetry.
  apply (iv_adjacent row_of row_of_range t t' MAXDEPTH);
    try assumption; [apply world_grid_lat | congruence].
Qed.

Lemma north_is_the_cell_above_witness :
  exists cell cell',
    cell_of_tag "8B" = Some cell /\ cell_of_tag "8F" = Some cell'
    /\ Lat (SW cell') = Lat (NE cell)
    /\ Lng (SW cell') = Lng (SW cell) /\ Lng (NE cell') = Lng (NE cell).
Proof.
  apply (north_is_the_cell_above "8B" "8F").
  - simpl. repeat split; discriminate.
  - vm_compute. lia.
  - reflexivity.
Defined.

(** X5: The eastern neighbour of a cell is the cell to its right: it starts at
    the longitude where the cell ends, bit for bit, and spans the same
    latitudes. *)
Theorem east_is_the_cell_to_the_right (t t' : string) :
  valid_tag t -> (String.length t <= MAXDEPTH)%nat ->
  GetEastBoxTag t = Ok t' ->
  exists cell cell',
    cell_of_tag t = Some cell /\ cell_of_tag t' = Some cell'
    /\ Lng (SW cell') = Lng (NE cell)
    /\ Lat (SW cell') = Lat (SW cell) /\ Lat (NE cell') = Lat (NE cell).
Proof.
  intros V L N.
  destruct (east_moves t t' V N) as (V' & L' & R' & C').
  rewrite (cell_of_valid_tag t V), (cell_of_valid_tag t' V').
  do 2 eexists. split; [reflexivity|]. split; [reflexivity|].
  cbn [Lat Lng SW NE].
  rewrite (iv_same row_of row_of_range t' t) by (assumption || congruence).
  split; [|split; reflexivity].
  symmetry.
  apply (iv_adjacent col_of col_of_range t t' MAXDEPTH);
    try assumption; [apply world_grid_lng | congruence].
Qed.

Lemma east_is_the_cell_to_the_right_witness :
  exists cell cell',
    cell_of_tag "8B" = Some cell /\ cell_of_tag "98" = Some cell'
    /\ Lng (SW cell') = Lng (NE cell)
    /\ Lat (SW cell') = Lat (SW cell) /\ Lat (NE cell') = Lat (NE cell).
Proof.
  apply (east_is_the_cell_to_the_right "8B" "98").
  - simpl. repeat split; discriminate.
  - vm_compute. lia.
  - reflexivity.
Defined.

(** ** Nested cells *)

Lemma in1_widen (q a b a' b' : float) :
  fle a a' -> fle b' b -> in1 q a' b' = true -> in1 q a b = true.
Proof.
  intros A B I. unfold in1 in *. apply andb_prop in I.
  destruct I as [I1 I2]. apply negb_true_iff in I1, I2.
  destruct (q <? a)%float eqn:E1.
  - assert (F : flt q a') by (eapply flt_fle_trans; eassumption).
    unfold flt in F. congruence.
  - destruct (b <? q)%float eqn:E2; [|reflexivity].
    assert (F : flt b' q) by (eapply fle_flt_trans; eassumption).
    unfold flt in F. congruence.
Qed.

Lemma iv_app (dg : ascii -> Z) (p s : string) :
  forall lo hi,
    iv_from dg lo hi (p ++ s)
    = iv_from dg (fst (iv_from dg lo hi p)) (snd (iv_from dg lo hi p)) s.
Proof.
  induction p as [|a p IH]; intros lo hi; simpl; [reflexivity | apply IH].
Qed.

Lemma valid_tag_app (p s : string) :
  valid_tag (p ++ s) <-> valid_tag p /\ valid_tag s.
Proof.
  induction p as [|a p IH]; simpl; [tauto|]. rewrite IH. tauto.
Qed.

Lemma length_app (p s : string) :
  String.length (p ++ s) = (String.length p + String.length s)%nat.
Proof. induction p as [|a p IH]; simpl; congruence. Qed.

Lemma iv_within_prefix (dg : ascii -> Z) (lo hi q : float) (p s : string) :
  (forall c, hexval c <> None -> (0 <= dg c < 4)%Z) ->
  grid_ok MAXDEPTH lo hi = true ->
  valid_tag (p ++ s) -> (String.length (p ++ s) <= MAXDEPTH)%nat ->
  in1 q (fst (iv_from dg lo hi (p ++ s))) (snd (iv_from dg lo hi (p ++ s)))
  = true ->
  in1 q (fst (iv_from dg lo hi p)) (snd (iv_from dg lo hi p)) = true.
Proof.
  intros R G V L I. apply valid_tag_app in V. destruct V as [Vp Vs].
  rewrite length_app in L. rewrite iv_app in I.
  destruct (iv_nested dg R p _ _ _ G Vp) as (_ & _ & Gp); [lia|].
  destruct (iv_nested dg R s _ _ _ Gp Vs) as (A & B & _); [lia|].
  exact (in1_widen _ _ _ _ _ A B I).
Qed.

(** X6: The cell of a tag lies within the cell of each of its prefixes: a
    point within the cell is within the cells of all its ancestors. *)
Theorem cell_within_ancestor (p s : string) (q : LatLng) :
  valid_tag (p ++ s) -> (String.length (p ++ s) <= MAXDEPTH)%nat ->
  exists ancestor cell,
    cell_of_tag p = Some ancestor /\ cell_of_tag (p ++ s) = Some cell
    /\ (Within q cell = true -> Within q ancestor = true).
Proof.
  intros V L. pose proof V as V'. apply valid_tag_app in V'.
  destruct V' as [Vp _].
  rewrite (cell_of_valid_tag p Vp), (cell_of_valid_tag _ V).
  do 2 eexists. split; [reflexivity|]. split; [reflexivity|].
  rewrite !Within_in1. cbn [Lat Lng SW NE]. intros W.
  apply andb_prop in W. destruct W as [Wa Wn].
  rewrite (iv_within_prefix row_of _ _ _ p s row_of_range world_grid_lat V L Wa).
  rewrite (iv_within_prefix col_of _ _ _ p s col_of_range world_grid_lng V L Wn).
  reflexivity.
Qed.

Lemma cell_within_ancestor_witness :
  exists ancestor cell,
    cell_of_tag "8E" = Some ancestor /\ cell_of_tag "8E64" = Some cell
    /\ (Within example_point cell = true ->
        Within example_point ancestor = true).
Proof.
  apply (cell_within_ancestor "8E" "64" example_point).
  - simpl. repeat split; discriminate.
  - vm_compute. lia.
Defined.

(** ** The cursors of the package *)

Lemma Descend_form (g g' : Geohasher) :
  Descend g = (g', None) ->
  Within (Point g) (Box g) = true
  /\ exists i j, scan (Point g) (Box g) = Some (i, j)
       /\ g' = {| hash := hash g ++ CODES_at i j;
                  Box := sub_box (Box g) i j; Point := Point g |}.
Proof.
  unfold Descend.
  destruct (Within (Point g) (Box g)); simpl; [|discriminate].
  destruct (scan (Point g) (Box g)) as [[i j]|]; [|discriminate].
  intros E. injection E as <-. eauto.
Qed.

Lemma Descend_point (g g' : Geohasher) :
  Descend g = (g', None) -> Point g' = Point g.
Proof.
  intros D. destruct (Descend_form _ _ D) as (_ & i & j & _ & ->).
  reflexivity.
Qed.

Lemma reachable_cursor_ok (g : Geohasher) :
  reachable g ->
  Within (Point g) world = true ->
  forall n, (GetDepth g + n = MAXDEPTH)%nat -> cursor_ok n g.
Proof.
  induction 1 as [p | g g' R IH D]; intros W n Hn.
  - simpl in Hn. subst n. unfold cursor_ok. simpl.
    split; [reflexivity|]. split; [apply world_grid|].
    split; [exact W|]. split; [exact I | reflexivity].
  - rewrite (Descend_point _ _ D) in W.
    rewrite (Descend_depth _ _ D) in Hn.
    destruct (Descend_cursor n g) as (g1 & D1 & O1 & _).
    + apply IH; [exact W | lia].
    + rewrite D in D1. injection D1 as <-. exact O1.
Qed.

Section Lowest.
Variable dg : ascii -> Z.
Hypothesis dg_range : forall c, hexval c <> None -> (0 <= dg c < 4)%Z.

Lemma lowest1_empty (lo hi p : float) : lowest1 dg lo hi p "".
Proof.
  intros t _ L _. destruct t; [simpl; lia | discriminate].
Qed.

(** One step of the descent keeps the cell the lowest one. *)
Lemma lowest1_step (lo hi p : float) (h : string) (c : ascii) :
  grid_ok MAXDEPTH lo hi = true ->
  valid_tag h -> (String.length h < MAXDEPTH)%nat ->
  hexval c <> None ->
  lowest1 dg lo hi p h ->
  band p (fst (iv_from dg lo hi h)) (snd (iv_from dg lo hi h))
  = Some (Z.to_nat (dg c)) ->
  lowest1 dg lo hi p (h ++ String c "").
Proof.
  intros G Vh Lh Vc Low Bd t' Vt' Lt' It'.
  rewrite length_app_char in Lt'.
  destruct (string_snoc t') as (t & c' & ->).
  { intros ->. discriminate. }
  rewrite length_app_char in Lt'. injection Lt' as Lt.
  apply valid_tag_snoc in Vt'. destruct Vt' as [Vt Vc'].
  pose proof (dg_range c Vc) as Rc. pose proof (dg_range c' Vc') as Rc'.
  rewrite !val_from_snoc.
  assert (It : in1 p (fst (iv_from dg lo hi t)) (snd (iv_from dg lo hi t))
               = true).
  { apply (iv_within_prefix dg lo hi p t (String c' "") dg_range G).
    - apply valid_tag_snoc. auto.
    - rewrite length_app_char. lia.
    - exact It'. }
  pose proof (Low t Vt Lt It) as Le.
  destruct (Z.eq_dec (val_from dg 0 h) (val_from dg 0 t)) as [E|N]; [|lia].
  rewrite iv_snoc in It'. cbn [fst snd] in It'.
  rewrite <- (iv_same dg dg_range h t lo hi Vh Vt (eq_sym Lt) E) in It'.
  destruct (band_first _ _ _ _ Bd) as (_ & _ & First).
  destruct (Nat.le_gt_cases (Z.to_nat (dg c)) (Z.to_nat (dg c'))) as [L|L].
  - lia.
  - rewrite (First _ L) in It'. discriminate.
Qed.

(** The descent is monotone: of two points of one interval, the lower one
    is not given a higher cell. *)
Lemma lowest1_mono (lo hi p q : float) (hp hq : string) :
  grid_ok MAXDEPTH lo hi = true ->
  valid_tag hp -> valid_tag hq ->
  String.length hp = String.length hq ->
  (String.length hp <= MAXDEPTH)%nat ->
  lowest1 dg lo hi p hp ->
  in1 p (fst (iv_from dg lo hi hp)) (snd (iv_from dg lo hi hp)) = true ->
  in1 q (fst (iv_from dg lo hi hq)) (snd (iv_from dg lo hi hq)) = true ->
  fle p q ->
  (val_from dg 0 hp <= val_from dg 0 hq)%Z.
Proof.
  intros G Vp Vq L Ln Low Ip Iq Hpq.
  destruct (Z.le_gt_cases (val_from dg 0 hp) (val_from dg 0 hq)) as [Le|Gt];
    [exact Le|].
  apply Low; [exact Vq | congruence|].
  assert (Sep : fle (snd (iv_from dg lo hi hq)) (fst (iv_from dg lo hi hp))).
  { apply (iv_sep dg dg_range hq hp MAXDEPTH); try assumption;
      try congruence; lia. }
  destruct (iv_nested dg dg_range hp _ _ _ G Vp Ln) as (_ & _ & Gp).
  destruct (iv_nested dg dg_range hq _ _ _ G Vq) as (_ & _ & Gq); [lia|].
  destruct (grid_ok_ord _ _ _ Gp) as [Op1 Op2].
  destruct (grid_ok_ord _ _ _ Gq) as [Oq1 Oq2].
  destruct (in1_fle _ _ _ (fle_ord_l _ _ Hpq) Op1 Op2 Ip) as [P1 P2].
  destruct (in1_fle _ _ _ (fle_ord_r _ _ Hpq) Oq1 Oq2 Iq) as [Q1 Q2].
  apply grid_ok_lt, flt_fle in Gq.
  apply fle_in1.
  - eapply fle_trans; [exact Gq|]. eapply fle_trans; [exact Sep|]. exact P1.
  - eapply fle_trans; [exact Hpq|]. exact Q2.
Qed.

End Lowest.

Lemma scan_some_bands (p : LatLng) (b : LatLngBounds) (i j : nat) :
  scan p b = Some (i, j) ->
  band (Lat p) (Lat (SW b)) (Lat (NE b)) = Some i
  /\ band (Lng p) (Lng (SW b)) (Lng (NE b)) = Some j.
Proof.
  rewrite scan_bands.
  destruct (band (Lat p) _ _) as [i'|]; [|discriminate].
  destruct (band (Lng p) _ _) as [j'|]; [|discriminate].
  intros E. injection E as <- <-. auto.
Qed.

Lemma cursor_box (n : nat) (g : Geohasher) :
  cursor_ok n g ->
  Box g
  = {| NE := {| Lat := snd (iv_from row_of MINLAT MAXLAT (hash g));
                Lng := snd (iv_from col_of MINLNG MAXLNG (hash g)) |};
       SW := {| Lat := fst (iv_from row_of MINLAT MAXLAT (hash g));
                Lng := fst (iv_from col_of MINLNG MAXLNG (hash g)) |} |}.
Proof.
  intros (_ & _ & _ & V & C). rewrite (cell_of_valid_tag _ V) in C.
  now injection C.
Qed.

(** The cell of a cursor of the package is the lowest cell of its depth
    that holds the point, in latitude and in longitude. *)
Lemma reachable_lowest (g : Geohasher) :
  reachable g ->
  Within (Point g) world = true ->
  (GetDepth g <= MAXDEPTH)%nat ->
  lowest g.
Proof.
  induction 1 as [p | g g' R IH D]; intros W Ld.
  - split; apply lowest1_empty.
  - pose proof (Descend_depth _ _ D) as Dd.
    destruct (Descend_form _ _ D) as (_ & i & j & S & ->).
    cbn [Point hash] in *.
    destruct (scan_range _ _ _ _ S) as [Hi Hj].
    destruct (scan_some_bands _ _ _ _ S) as [Bi Bj].
    destruct (CODES_at_symbol i j Hi Hj) as (c & -> & Vc & Rc & Cc).
    assert (O : cursor_ok (MAXDEPTH - GetDepth g) g)
      by (apply reachable_cursor_ok; [exact R | exact W | lia]).
    rewrite (cursor_box _ _ O) in Bi, Bj. cbn [Lat Lng SW NE] in Bi, Bj.
    destruct O as (_ & _ & _ & Vh & _).
    destruct IH as [Lr Lc]; [exact W | lia |].
    unfold GetDepth in *.
    split.
    + apply (lowest1_step row_of row_of_range);
        [apply world_grid_lat | exact Vh | lia | exact Vc | exact Lr
        | now rewrite Rc, Nat2Z.id].
    + apply (lowest1_step col_of col_of_range);
        [apply world_grid_lng | exact Vh | lia | exact Vc | exact Lc
        | now rewrite Cc, Nat2Z.id].
Qed.

Lemma valid_point_ord (p : LatLng) :
  valid_point p -> ord (Lat p) /\ ord (Lng p).
Proof.
  intros (A & _ & C & _).
  split; [exact (fle_ord_r _ _ A) | exact (fle_ord_r _ _ C)].
Qed.

(** Of two cursors of one depth, the one aimed at the more southern
    point is not in a higher row, and the one aimed at the more western
    point is not in a higher column. *)
Lemma cursors_monotone (g1 g2 : Geohasher) :
  reachable g1 -> reachable g2 ->
  valid_point (Point g1) -> valid_point (Point g2) ->
  GetDepth g1 = GetDepth g2 -> (GetDepth g1 <= MAXDEPTH)%nat ->
  (fle (Lat (Point g1)) (Lat (Point g2)) ->
   (rowval (hash g1) <= rowval (hash g2))%Z)
  /\ (fle (Lng (Point g1)) (Lng (Point g2)) ->
      (colval (hash g1) <= colval (hash g2))%Z).
Proof.
  intros R1 R2 V1 V2 D L.
  pose proof (Within_world _ V1) as W1. pose proof (Within_world _ V2) as W2.
  assert (O1 : cursor_ok (MAXDEPTH - GetDepth g1) g1)
    by (apply reachable_cursor_ok; [exact R1 | exact W1 | lia]).
  assert (O2 : cursor_ok (MAXDEPTH - GetDepth g2) g2)
    by (apply reachable_cursor_ok; [exact R2 | exact W2 | lia]).
  destruct (reachable_lowest g1 R1 W1 L) as [Lr Lc].
  destruct (cursor_cell _ _ O1) as [I1a I1n].
  destruct (cursor_cell _ _ O2) as [I2a I2n].
  destruct O1 as (_ & _ & _ & Vh1 & _). destruct O2 as (_ & _ & _ & Vh2 & _).
  unfold GetDepth in *.
  split; intros Le.
  - apply (lowest1_mono row_of row_of_range MINLAT MAXLAT
             (Lat (Point g1)) (Lat (Point g2)));
      [apply world_grid_lat | assumption ..].
  - apply (lowest1_mono col_of col_of_range MINLNG MAXLNG
             (Lng (Point g1)) (Lng (Point g2)));
      [apply world_grid_lng | assumption ..].
Qed.

(** ** The tags of a point *)

Lemma gen_loop_cursors {T : Type} `{LocatableLaws T} (n : nat) :
  forall (fuel : nat) (g : Geohasher) (l : T),
    (n <= fuel)%nat -> cursor_ok n g -> reachable g ->
    exists l' ts,
      gen_loop fuel g l = Some (l', None)
      /\ GetGeoBoxTags l' = (GetGeoBoxTags l ++ ts)%list
      /\ (forall t, In t ts ->
            exists g', reachable g' /\ Point g' = Point g /\ hash g' = t
                       /\ (GetDepth g < GetDepth g' <= MAXDEPTH)%nat)
      /\ (forall k, (GetDepth g < k <= MAXDEPTH)%nat ->
            exists g', reachable g' /\ Point g' = Point g
                       /\ GetDepth g' = k /\ In (hash g') ts).
Proof.
  induction n as [|n IH]; intros fuel g l Hf O R.
  - destruct O as (Hd & _). exists l, []. rewrite app_nil_r.
    assert (E : (GetDepth g <? MAXDEPTH)%nat = false)
      by (apply Nat.ltb_ge; lia).
    destruct fuel; simpl; rewrite E;
      (split; [reflexivity|]); (split; [reflexivity|]);
      (split; [intros t [] | intros k Hk; lia]).
  - destruct fuel as [|fuel]; [lia|].
    pose proof O as (Hd & _).
    assert (E : (GetDepth g <? MAXDEPTH)%nat = true)
      by (apply Nat.ltb_lt; lia).
    destruct (Descend_cursor n g O) as (g1 & D & O1 & P1).
    pose proof (Descend_depth _ _ D) as Dd.
    pose proof (reach_descend _ _ R D) as R1.
    simpl. rewrite E, D.
    destruct (IH fuel g1 (AddGeoBoxTag l (hash g1)))
      as (l' & ts & Run & Tg & Each & All); [lia | exact O1 | exact R1 |].
    exists l', (hash g1 :: ts).
    split; [exact Run|].
    split; [rewrite Tg, tags_add, <- app_assoc; reflexivity|].
    split.
    + intros t [<-|I].
      * exists g1. repeat split; try assumption; lia.
      * destruct (Each t I) as (g' & R' & P' & H' & D').
        exists g'. repeat split; try assumption; try congruence; lia.
    + intros k Hk. destruct (Nat.eq_dec k (GetDepth g1)) as [->|N].
      * exists g1. repeat split; try assumption. now left.
      * destruct (All k) as (g' & R' & P' & D' & I'); [lia|].
        exists g'. repeat split; try assumption; try congruence. now right.
Qed.

Lemma generate_cursors {T : Type} `{LocatableLaws T} (l : T) :
  Within (GetLocation l) world = true ->
  exists l',
    GenerateGeoBoxTags l = Some (l', None)
    /\ (forall t, In t (GetGeoBoxTags l') ->
          exists g', reachable g' /\ Point g' = GetLocation l /\ hash g' = t
                     /\ (0 < GetDepth g' <= MAXDEPTH)%nat)
    /\ (forall k, (0 < k <= MAXDEPTH)%nat ->
          exists g', reachable g' /\ Point g' = GetLocation l
                     /\ GetDepth g' = k /\ In (hash g') (GetGeoBoxTags l')).
Proof.
  intros W. unfold GenerateGeoBoxTags.
  destruct (gen_loop_cursors MAXDEPTH MAXDEPTH (new_hasher (GetLocation l))
              (ClearGeoBoxTags l)) as (l' & ts & Run & Tg & Each & All).
  - lia.
  - apply reachable_cursor_ok; [apply reach_new | exact W | reflexivity].
  - apply reach_new.
  - rewrite tags_clear in Tg. cbn [app] in Tg.
    exists l'. rewrite Tg. auto.
Qed.

(** X7: Round trip: every tag that [GenerateGeoBoxTags] attaches is a cell tag
    and names a cell that contains the location of the entity. *)
Theorem generated_tags_hold_the_point {T : Type} `{LocatableLaws T} (l : T) :
  Within (GetLocation l) world = true ->
  exists l',
    GenerateGeoBoxTags l = Some (l', None)
    /\ forall t, In t (GetGeoBoxTags l') ->
         valid_tag t
         /\ exists cell, cell_of_tag t = Some cell
                         /\ Within (GetLocation l) cell = true.
Proof.
  intros W. destruct (generate_cursors l W) as (l' & Run & Each & _).
  exists l'. split; [exact Run|]. intros t I.
  destruct (Each t I) as (g' & R' & P' & H' & D').
  assert (O : cursor_ok (MAXDEPTH - GetDepth g') g').
  { apply reachable_cursor_ok; [exact R' | now rewrite P' | lia]. }
  destruct O as (_ & _ & Wg & V & C). rewrite H' in *. rewrite P' in Wg.
  split; [exact V|]. exists (Box g'). auto.
Qed.

Lemma generated_tags_hold_the_point_witness :
  exists l',
    GenerateGeoBoxTags (mkEntity example_point []) = Some (l', None)
    /\ forall t, In t (GetGeoBoxTags l') ->
         valid_tag t
         /\ exists cell, cell_of_tag t = Some cell
                         /\ Within (GetLocation (mkEntity example_point []))
                              cell = true.
Proof.
  apply (generated_tags_hold_the_point (mkEntity example_point [])).
  vm_compute. reflexivity.
Defined.

(** ** The walks visit every cell of the rectangle *)

Lemma north_walk_covers (fuel : nat) :
  forall cursor endtop acc tags,
    valid_tag cursor ->
    north_walk fuel cursor endtop acc = Some (Ok tags) ->
    forall t, valid_tag t -> String.length t = String.length cursor ->
      colval t = colval cursor ->
      (rowval cursor <= rowval t < rowval endtop)%Z ->
      In t tags.
Proof.
  induction fuel as [|fuel IH]; intros cursor endtop acc tags V W t Vt Lt Ct Rt;
    cbn [north_walk] in W;
    destruct (String.eqb_spec cursor endtop) as [<-|N]; try lia;
    try discriminate.
  destruct (GetNorthBoxTag cursor) as [next|e|m] eqn:E; try discriminate.
  destruct (north_moves cursor next V E) as (Vn & Ln & Rn & Cn).
  destruct (Z.eq_dec (rowval t) (rowval cursor)) as [Q|Q].
  - assert (t = cursor) by (apply tag_inj; assumption). subst t.
    destruct (north_walk_visits fuel next endtop _ tags Vn W)
      as (_ & visited & -> & _).
    apply in_or_app. left. apply in_or_app. right. now left.
  - apply (IH next endtop _ tags Vn W t Vt); try congruence. lia.
Qed.

Lemma east_walk_covers (inner fuel : nat) :
  forall botcursor topcursor endbot acc tags,
    valid_tag botcursor -> valid_tag topcursor ->
    east_walk fuel inner botcursor topcursor endbot acc = Some (Ok tags) ->
    forall t, valid_tag t -> String.length t = String.length botcursor ->
      (colval botcursor <= colval t < colval endbot)%Z ->
      (rowval botcursor <= rowval t <= rowval topcursor)%Z ->
      In t tags.
Proof.
  induction fuel as [|fuel IH];
    intros bot top endbot acc tags Vb Vt W t Vtt Lt Ct Rt;
    cbn [east_walk] in W;
    destruct (String.eqb_spec bot endbot) as [<-|N]; try lia;
    try discriminate.
  destruct (GetNorthBoxTag top) as [endtop|e|m] eqn:En; try discriminate.
  destruct (north_moves top endtop Vt En) as (_ & _ & Rn & _).
  destruct (north_walk inner bot endtop acc) as [[tags1|e|m]|] eqn:Wn;
    try discriminate.
  destruct (GetEastBoxTag bot) as [bot'|e|m] eqn:Eb; try discriminate.
  destruct (GetEastBoxTag top) as [top'|e|m] eqn:Et; try discriminate.
  destruct (east_moves bot bot' Vb Eb) as (Vb' & Lb' & Rb' & Cb').
  destruct (east_moves top top' Vt Et) as (Vt' & Lt' & Rt' & Ct').
  destruct (Z.eq_dec (colval t) (colval bot)) as [Q|Q].
  - pose proof (north_walk_covers inner bot endtop acc tags1 Vb Wn
                  t Vtt Lt Q ltac:(lia)) as I.
    destruct (east_walk_visits inner fuel bot' top' endbot tags1 tags Vb' Vt' W)
      as (_ & rest & -> & _).
    apply in_or_app. now left.
  - apply (IH bot' top' endbot tags1 tags Vb' Vt' W t Vtt);
      try congruence; lia.
Qed.

(** ** The four cursors of a view *)

Lemma descend_all_steps (h h' : Hashers) :
  descend_all h = Ok h' ->
  Descend (swhasher h) = (swhasher h', None)
  /\ Descend (nehasher h) = (nehasher h', None)
  /\ Descend (sehasher h) = (sehasher h', None)
  /\ Descend (nwhasher h) = (nwhasher h', None).
Proof.
  unfold descend_all.
  destruct (Descend (swhasher h)) as [g1 [e|]] eqn:D1; try discriminate.
  destruct (Descend (nehasher h)) as [g2 [e|]] eqn:D2; try discriminate.
  destruct (Descend (sehasher h)) as [g3 [e|]] eqn:D3; try discriminate.
  destruct (Descend (nwhasher h)) as [g4 [e|]] eqn:D4; try discriminate.
  intros E. injection E as <-. auto.
Qed.

(** The four cursors stay at one depth, whatever the view. *)
Lemma descend_loop_lockstep (viewbounds : LatLngBounds) (fuel : nat) :
  forall h h',
    GetDepth (nehasher h) = GetDepth (swhasher h) ->
    GetDepth (sehasher h) = GetDepth (swhasher h) ->
    GetDepth (nwhasher h) = GetDepth (swhasher h) ->
    descend_loop fuel viewbounds h = Some (Ok h') ->
    GetDepth (nehasher h') = GetDepth (swhasher h')
    /\ GetDepth (sehasher h') = GetDepth (swhasher h')
    /\ GetDepth (nwhasher h') = GetDepth (swhasher h').
Proof.
  induction fuel as [|fuel IH]; intros h h' E2 E3 E4 L; cbn [descend_loop] in L;
    destruct (descend_guard viewbounds (swhasher h)) as [[|]|e|m];
    try discriminate; try (injection L as <-; auto).
  destruct (descend_all h) as [h1|e|m] eqn:A; try discriminate.
  destruct (descend_all_steps h h1 A) as (D1 & D2 & D3 & D4).
  apply (IH h1 h');
    rewrite ?(Descend_depth _ _ D1), ?(Descend_depth _ _ D2),
      ?(Descend_depth _ _ D3), ?(Descend_depth _ _ D4); congruence.
Qed.

Lemma descend_loop_reachable (viewbounds : LatLngBounds) (fuel : nat) :
  forall h h',
    reachable (swhasher h) -> reachable (nehasher h) ->
    reachable (sehasher h) -> reachable (nwhasher h) ->
    descend_loop fuel viewbounds h = Some (Ok h') ->
    reachable (swhasher h') /\ reachable (nehasher h')
    /\ reachable (sehasher h') /\ reachable (nwhasher h').
Proof.
  induction fuel as [|fuel IH]; intros h h' R1 R2 R3 R4 L;
    cbn [descend_loop] in L;
    destruct (descend_guard viewbounds (swhasher h)) as [[|]|e|m];
    try discriminate; try (injection L as <-; auto).
  destruct (descend_all h) as [h1|e|m] eqn:A; try discriminate.
  destruct (descend_all_steps h h1 A) as (D1 & D2 & D3 & D4).
  exact (IH h1 h' (reach_descend _ _ R1 D1) (reach_descend _ _ R2 D2)
           (reach_descend _ _ R3 D3) (reach_descend _ _ R4 D4) L).
Qed.

(** The hash of a cursor of the package is a cell tag. *)
Lemma reachable_valid_hash (g : Geohasher) : reachable g -> valid_tag (hash g).
Proof.
  induction 1 as [p | g g' R IH D]; [exact I|].
  destruct (Descend_form _ _ D) as (_ & i & j & S & ->).
  destruct (scan_range _ _ _ _ S) as [Hi Hj].
  destruct (CODES_at_symbol i j Hi Hj) as (c & -> & Vc & _).
  cbn [hash]. apply valid_tag_snoc. auto.
Qed.

Lemma Descend_errors (g g' : Geohasher) (e : Error) :
  Descend g = (g', Some e) -> e = err_outside \/ e = err_no_sub_box.
Proof.
  unfold Descend.
  destruct (Within (Point g) (Box g)); simpl.
  - destruct (scan (Point g) (Box g)) as [[i j]|]; intros E;
      [discriminate | injection E as _ <-; auto].
  - intros E. injection E as _ <-. auto.
Qed.

Lemma descend_all_errors (h : Hashers) :
  match descend_all h with
  | Ok _ => True
  | Err e => e = err_outside \/ e = err_no_sub_box
  | Panic _ => False
  end.
Proof.
  unfold descend_all.
  destruct (Descend (swhasher h)) as [g1 [e|]] eqn:D1;
    [exact (Descend_errors _ _ _ D1)|].
  destruct (Descend (nehasher h)) as [g2 [e|]] eqn:D2;
    [exact (Descend_errors _ _ _ D2)|].
  destruct (Descend (sehasher h)) as [g3 [e|]] eqn:D3;
    [exact (Descend_errors _ _ _ D3)|].
  destruct (Descend (nwhasher h)) as [g4 [e|]] eqn:D4;
    [exact (Descend_errors _ _ _ D4) | exact I].
Qed.

Lemma descend_guard_outcomes (viewbounds : LatLngBounds) (g : Geohasher) :
  match descend_guard viewbounds g with
  | Ok _ => True
  | Err _ => False
  | Panic m => m = index_out_of_range
  end.
Proof.
  unfold descend_guard, index.
  destruct (nth_error BOXSIZES (GetDepth g + 1)); [|reflexivity].
  destruct (_ <? _)%float; [|exact I].
  destruct (_ <? _)%float; exact I.
Qed.

Lemma descend_loop_outcomes (viewbounds : LatLngBounds) (fuel : nat) :
  forall h,
    match descend_loop fuel viewbounds h with
    | Some (Err e) => e = err_outside \/ e = err_no_sub_box
    | Some (Panic m) => m = index_out_of_range
    | _ => True
    end.
Proof.
  induction fuel as [|fuel IH]; intros h; cbn [descend_loop];
    pose proof (descend_guard_outcomes viewbounds (swhasher h)) as G;
    destruct (descend_guard viewbounds (swhasher h)) as [[|]|e|m];
    try exact I; try contradiction; try exact G.
  pose proof (descend_all_errors h) as A.
  destruct (descend_all h) as [h1|e|m]; [apply IH | exact A | contradiction].
Qed.

(** On cell tags the neighbour functions return a tag or the empty-tag
    error. *)
Lemma north_on_cell_tag (t : string) :
  valid_tag t ->
  (exists t', GetNorthBoxTag t = Ok t') \/ GetNorthBoxTag t = Err err_empty_tag.
Proof.
  intros V. pose proof (north_top_row t V) as N.
  destruct (_ =? _)%Z; auto.
Qed.

Lemma east_on_cell_tag (t : string) :
  valid_tag t ->
  (exists t', GetEastBoxTag t = Ok t') \/ GetEastBoxTag t = Err err_empty_tag.
Proof.
  intros V. pose proof (east_last_column t V) as N.
  destruct (_ =? _)%Z; auto.
Qed.

Lemma north_walk_outcomes (fuel : nat) :
  forall cursor endtop acc,
    valid_tag cursor ->
    match north_walk fuel cursor endtop acc with
    | Some (Err e) => e = err_empty_tag
    | Some (Panic _) => False
    | _ => True
    end.
Proof.
  induction fuel as [|fuel IH]; intros cursor endtop acc V; cbn [north_walk];
    destruct (String.eqb cursor endtop); try exact I.
  destruct (north_on_cell_tag cursor V) as [[next E] | E]; rewrite E;
    [|reflexivity].
  apply IH. apply (north_moves cursor next V E).
Qed.

Lemma east_walk_outcomes (inner fuel : nat) :
  forall botcursor topcursor endbot acc,
    valid_tag botcursor -> valid_tag topcursor ->
    match east_walk fuel inner botcursor topcursor endbot acc with
    | Some (Err e) => e = err_empty_tag
    | Some (Panic _) => False
    | _ => True
    end.
Proof.
  induction fuel as [|fuel IH]; intros bot top endbot acc Vb Vt;
    cbn [east_walk]; destruct (String.eqb bot endbot); try exact I.
  destruct (north_on_cell_tag top Vt) as [[endtop En] | En]; rewrite En;
    [|reflexivity].
  pose proof (north_walk_outcomes inner bot endtop acc Vb) as W.
  destruct (north_walk inner bot endtop acc) as [[tags1|e|m]|];
    try exact W; try exact I.
  destruct (east_on_cell_tag bot Vb) as [[bot' Eb] | Eb]; rewrite Eb;
    [|reflexivity].
  destruct (east_on_cell_tag top Vt) as [[top' Et] | Et]; rewrite Et;
    [|reflexivity].
  apply IH; [apply (east_moves bot bot' Vb Eb) | apply (east_moves top top' Vt Et)].
Qed.

(** X8: Whatever the view, the function returns tags, one of three errors (a
    corner outside the world, no matching sub-cell, the empty tag of a step
    off the world) or the panic of the table read: it never reports cursors at
    different depths nor a malformed tag. *)
Theorem view_outcomes (viewbounds : LatLngBounds) (fuel : nat) :
  match GeoBoxTagsFromViewBounds fuel viewbounds with
  | Some (Err e) =>
      e = err_outside \/ e = err_no_sub_box \/ e = err_empty_tag
  | Some (Panic m) => m = index_out_of_range
  | _ => True
  end.
Proof.
  unfold GeoBoxTagsFromViewBounds.
  pose proof (descend_loop_outcomes viewbounds (MAXDEPTH + 1)
                (start_hashers viewbounds)) as O.
  destruct (descend_loop (MAXDEPTH + 1) viewbounds (start_hashers viewbounds))
    as [[h|e|m]|] eqn:L; try exact I; try exact O; [|tauto].
  destruct (descend_loop_lockstep viewbounds _ (start_hashers viewbounds) h
              eq_refl eq_refl eq_refl L) as (E2 & E3 & E4).
  destruct (descend_loop_reachable viewbounds _ (start_hashers viewbounds) h
              (reach_new _) (reach_new _) (reach_new _) (reach_new _) L)
    as (R1 & R2 & R3 & R4).
  apply reachable_valid_hash in R1, R3, R4.
  unfold GetHash, GetDepth in *.
  destruct (String.eqb _ _); [exact I|].
  rewrite E2, E3, E4, Nat.eqb_refl. cbn [negb orb].
  destruct (east_on_cell_tag _ R3) as [[endbot E] | E]; rewrite E; [|auto].
  pose proof (east_walk_outcomes fuel fuel _ _ endbot [] R1 R4) as W.
  destruct (east_walk fuel fuel _ _ endbot []) as [[tags|e|m]|];
    try exact I; [auto | contradiction].
Qed.

Lemma descend_loop_valid (viewbounds : LatLngBounds) (fuel : nat) :
  forall n h,
    hashers_ok viewbounds n h ->
    match descend_loop fuel viewbounds h with
    | Some (Err _) => False
    | _ => True
    end.
Proof.
  induction fuel as [|fuel IH]; intros n h O; cbn [descend_loop];
    pose proof (descend_guard_outcomes viewbounds (swhasher h)) as G;
    destruct (descend_guard viewbounds (swhasher h)) as [[|]|e|m] eqn:Gd;
    try exact I; try contradiction.
  apply guard_true_depth in Gd.
  pose proof O as (((D & _) & _) & _).
  destruct n as [|n]; [lia|].
  destruct (descend_all_grid viewbounds n h O) as (h1 & -> & O1).
  exact (IH n h1 O1).
Qed.

(** X9: For a valid view the function fails in two ways only: with the
    empty-tag error, when the walk steps off the northern or eastern edge of
    the world, and with the panic of the table read. *)
Theorem valid_view_outcomes (viewbounds : LatLngBounds) (fuel : nat) :
  valid_bounds viewbounds ->
  match GeoBoxTagsFromViewBounds fuel viewbounds with
  | Some (Err e) => e = err_empty_tag
  | Some (Panic m) => m = index_out_of_range
  | _ => True
  end.
Proof.
  intros (Vs & Vn & _).
  pose proof (descend_loop_outcomes viewbounds (MAXDEPTH + 1)
                (start_hashers viewbounds)) as O.
  pose proof (descend_loop_valid viewbounds (MAXDEPTH + 1) _ _
                (start_hashers_ok viewbounds Vs Vn)) as D.
  unfold GeoBoxTagsFromViewBounds.
  destruct (descend_loop (MAXDEPTH + 1) viewbounds (start_hashers viewbounds))
    as [[h|e|m]|] eqn:L; try exact I; try exact O; try contradiction.
  destruct (descend_loop_lockstep viewbounds _ (start_hashers viewbounds) h
              eq_refl eq_refl eq_refl L) as (E2 & E3 & E4).
  destruct (descend_loop_reachable viewbounds _ (start_hashers viewbounds) h
              (reach_new _) (reach_new _) (reach_new _) (reach_new _) L)
    as (R1 & R2 & R3 & R4).
  apply reachable_valid_hash in R1, R3, R4. unfold GetHash, GetDepth in *.
  destruct (String.eqb _ _); [exact I|].
  rewrite E2, E3, E4, Nat.eqb_refl. cbn [negb orb].
  destruct (east_on_cell_tag _ R3) as [[endbot E] | E]; rewrite E;
    [|reflexivity].
  pose proof (east_walk_outcomes fuel fuel _ _ endbot [] R1 R4) as W.
  destruct (east_walk fuel fuel _ _ endbot []) as [[tags|e|m]|];
    try exact I; [exact W | contradiction].
Qed.

Lemma valid_view_outcomes_witness :
  match GeoBoxTagsFromViewBounds 4 (point_view example_point) with
  | Some (Err e) => e = err_empty_tag
  | Some (Panic m) => m = index_out_of_range
  | _ => True
  end.
Proof.
  apply (valid_view_outcomes (point_view example_point) 4).
  repeat split; vm_compute; reflexivity.
Defined.

(** ** Views as large as a quarter of the world *)

(** X10: A view that is not smaller, in both directions, than a cell of depth
    1 (45 degrees of latitude, 90 of longitude) gets no descent at all: the
    function returns the empty tag alone, whatever the corners are. *)
Theorem large_view_single_empty_tag (viewbounds : LatLngBounds) (fuel : nat) :
  (lat_span viewbounds <? Lat (boxsize 1))%float
  && (lng_span viewbounds <? Lng (boxsize 1))%float = false ->
  GeoBoxTagsFromViewBounds fuel viewbounds = Some (Ok [""]).
Proof.
  intros Big.
  assert (G : descend_guard viewbounds (swhasher (start_hashers viewbounds))
              = Ok false).
  { unfold descend_guard. cbn [start_hashers swhasher new_hasher GetDepth hash
                               String.length Nat.add].
    change (index BOXSIZES 1) with (Ok (boxsize 1)).
    unfold lat_span, lng_span in Big. cbn [SW NE Point] in *.
    repeat match goal with
           | |- context [if ?c then _ else _] =>
               destruct c; try discriminate; try reflexivity
           end. }
  unfold GeoBoxTagsFromViewBounds.
  change (MAXDEPTH + 1)%nat with (S MAXDEPTH). cbn [descend_loop].
  rewrite G. reflexivity.
Qed.

Lemma large_view_single_empty_tag_witness :
  GeoBoxTagsFromViewBounds 0 world_view = Some (Ok [""]).
Proof.
  apply (large_view_single_empty_tag world_view 0).
  vm_compute. reflexivity.
Defined.

(** ** The walks end *)

Lemma north_walk_returns (fuel : nat) :
  forall cursor endtop acc,
    valid_tag cursor ->
    (grid_width cursor - rowval cursor <= Z.of_nat fuel)%Z ->
    north_walk fuel cursor endtop acc <> None.
Proof.
  induction fuel as [|fuel IH]; intros cursor endtop acc V F;
    cbn [north_walk]; destruct (String.eqb cursor endtop); try discriminate.
  - pose proof (rowval_bound cursor V). lia.
  - destruct (GetNorthBoxTag cursor) as [next|e|m] eqn:E; try discriminate.
    destruct (north_moves cursor next V E) as (Vn & Ln & Rn & _).
    apply IH; [exact Vn|]. unfold grid_width in *. rewrite Ln, Rn. lia.
Qed.

Lemma east_walk_returns (inner fuel : nat) :
  forall botcursor topcursor endbot acc,
    valid_tag botcursor -> valid_tag topcursor ->
    (grid_width botcursor - colval botcursor <= Z.of_nat fuel)%Z ->
    (grid_width botcursor <= Z.of_nat inner)%Z ->
    east_walk fuel inner botcursor topcursor endbot acc <> None.
Proof.
  induction fuel as [|fuel IH]; intros bot top endbot acc Vb Vt F Fi;
    cbn [east_walk]; destruct (String.eqb bot endbot); try discriminate.
  - pose proof (colval_bound bot Vb). lia.
  - destruct (GetNorthBoxTag top) as [endtop|e|m] eqn:En; try discriminate.
    pose proof (north_walk_returns inner bot endtop acc Vb) as W.
    destruct (north_walk inner bot endtop acc) as [[tags1|e|m]|];
      try discriminate.
    2:{ exfalso. apply W; [|reflexivity].
        pose proof (rowval_bound bot Vb). lia. }
    destruct (GetEastBoxTag bot) as [bot'|e|m] eqn:Eb; try discriminate.
    destruct (GetEastBoxTag top) as [top'|e|m] eqn:Et; try discriminate.
    destruct (east_moves bot bot' Vb Eb) as (Vb' & Lb' & _ & Cb').
    destruct (east_moves top top' Vt Et) as (Vt' & _).
    apply IH; try assumption; unfold grid_width in *; rewrite Lb', ?Cb'; lia.
Qed.

Lemma descend_loop_final_depth (viewbounds : LatLngBounds) (fuel : nat) :
  forall h h',
    descend_loop fuel viewbounds h = Some (Ok h') ->
    (GetDepth (swhasher h') < MAXDEPTH)%nat.
Proof.
  induction fuel as [|fuel IH]; intros h h' L; cbn [descend_loop] in L;
    destruct (descend_guard viewbounds (swhasher h)) as [[|]|e|m] eqn:G;
    try discriminate.
  - injection L as <-. unfold descend_guard, index in G.
    destruct (nth_error BOXSIZES (GetDepth (swhasher h) + 1)) eqn:N;
      [|discriminate].
    assert (N' : nth_error BOXSIZES (GetDepth (swhasher h) + 1) <> None)
      by congruence.
    apply nth_error_Some in N'. change (List.length BOXSIZES) with 11%nat in N'.
    unfold MAXDEPTH. lia.
  - destruct (descend_all h) as [h1|e|m]; try discriminate.
    exact (IH h1 h' L).
  - injection L as <-. unfold descend_guard, index in G.
    destruct (nth_error BOXSIZES (GetDepth (swhasher h) + 1)) eqn:N;
      [|discriminate].
    assert (N' : nth_error BOXSIZES (GetDepth (swhasher h) + 1) <> None)
      by congruence.
    apply nth_error_Some in N'. change (List.length BOXSIZES) with 11%nat in N'.
    unfold MAXDEPTH. lia.
Qed.

Lemma grid_width_le (t : string) :
  (String.length t <= MAXDEPTH)%nat ->
  (grid_width t <= 4 ^ Z.of_nat MAXDEPTH)%Z.
Proof.
  intros L. unfold grid_width. apply Z.pow_le_mono_r; lia.
Qed.

(** X11: The two walks of the tiling end, whatever the view: with [4^10]
    passes at the disposal of each loop the function returns. *)
Theorem tiling_returns (viewbounds : LatLngBounds) (fuel : nat) :
  (4 ^ Z.of_nat MAXDEPTH <= Z.of_nat fuel)%Z ->
  exists r, GeoBoxTagsFromViewBounds fuel viewbounds = Some r.
Proof.
  intros F. unfold GeoBoxTagsFromViewBounds.
  pose proof (descend_loop_returns viewbounds (MAXDEPTH + 1)
                (start_hashers viewbounds)) as Ret.
  destruct (descend_loop (MAXDEPTH + 1) viewbounds (start_hashers viewbounds))
    as [[h|e|m]|] eqn:L; eauto.
  2:{ exfalso. apply Ret; [|reflexivity].
      unfold GetDepth, MAXDEPTH. cbn [start_hashers swhasher new_hasher hash
                                      String.length]. lia. }
  pose proof (descend_loop_final_depth _ _ _ _ L) as D.
  destruct (descend_loop_reachable viewbounds _ (start_hashers viewbounds) h
              (reach_new _) (reach_new _) (reach_new _) (reach_new _) L)
    as (R1 & R2 & R3 & R4).
  apply reachable_valid_hash in R1, R3, R4. unfold GetHash, GetDepth in *.
  destruct (String.eqb _ _); eauto.
  destruct (_ || _); eauto.
  destruct (GetEastBoxTag (hash (sehasher h))) as [endbot|e|m]; eauto.
  pose proof (east_walk_returns fuel fuel (hash (swhasher h))
                (hash (nwhasher h)) endbot [] R1 R4) as W.
  destruct (east_walk fuel fuel _ _ endbot []) as [r|]; eauto.
  exfalso. apply W; [| |reflexivity];
    pose proof (grid_width_le (hash (swhasher h)) ltac:(lia));
    pose proof (colval_bound _ R1); lia.
Qed.

Lemma tiling_returns_witness :
  exists r,
    GeoBoxTagsFromViewBounds (Z.to_nat (4 ^ 10)) middle_view = Some r.
Proof.
  apply (tiling_returns middle_view (Z.to_nat (4 ^ 10))).
  unfold MAXDEPTH. lia.
Defined.

(** ** The tags of a view *)

Lemma north_walk_nodup (fuel : nat) :
  forall cursor endtop acc tags,
    valid_tag cursor ->
    north_walk fuel cursor endtop acc = Some (Ok tags) ->
    exists visited,
      tags = (acc ++ visited)%list /\ NoDup visited
      /\ forall t, In t visited ->
           colval t = colval cursor /\ (rowval cursor <= rowval t)%Z.
Proof.
  induction fuel as [|fuel IH]; intros cursor endtop acc tags V W;
    cbn [north_walk] in W;
    destruct (String.eqb_spec cursor endtop) as [<-|N]; try discriminate;
    try (injection W as <-; exists []; rewrite app_nil_r;
         split; [reflexivity|]; split; [constructor | intros t []]).
  destruct (GetNorthBoxTag cursor) as [next|e|m] eqn:E; try discriminate.
  destruct (north_moves cursor next V E) as (Vn & Ln & Rn & Cn).
  destruct (IH next endtop _ tags Vn W) as (visited & -> & ND & Vis).
  exists (cursor :: visited). rewrite <- app_assoc.
  split; [reflexivity|]. split.
  - constructor; [|exact ND]. intros I. destruct (Vis _ I). lia.
  - intros t [<-|I]; [split; [reflexivity | lia]|].
    destruct (Vis t I). split; [congruence | lia].
Qed.

Lemma east_walk_nodup (inner fuel : nat) :
  forall botcursor topcursor endbot acc tags,
    valid_tag botcursor -> valid_tag topcursor ->
    east_walk fuel inner botcursor topcursor endbot acc = Some (Ok tags) ->
    exists visited,
      tags = (acc ++ visited)%list /\ NoDup visited
      /\ forall t, In t visited -> (colval botcursor <= colval t)%Z.
Proof.
  induction fuel as [|fuel IH]; intros bot top endbot acc tags Vb Vt W;
    cbn [east_walk] in W;
    destruct (String.eqb_spec bot endbot) as [<-|N]; try discriminate;
    try (injection W as <-; exists []; rewrite app_nil_r;
         split; [reflexivity|]; split; [constructor | intros t []]).
  destruct (GetNorthBoxTag top) as [endtop|e|m] eqn:En; try discriminate.
  destruct (north_walk inner bot endtop acc) as [[tags1|e|m]|] eqn:Wn;
    try discriminate.
  destruct (north_walk_nodup inner bot endtop acc tags1 Vb Wn)
    as (column & -> & NDc & Col).
  destruct (GetEastBoxTag bot) as [bot'|e|m] eqn:Eb; try discriminate.
  destruct (GetEastBoxTag top) as [top'|e|m] eqn:Et; try discriminate.
  destruct (east_moves bot bot' Vb Eb) as (Vb' & Lb' & Rb' & Cb').
  destruct (east_moves top top' Vt Et) as (Vt' & _).
  destruct (IH bot' top' endbot _ tags Vb' Vt' W) as (rest & -> & NDr & Rest).
  exists (column ++ rest)%list. rewrite <- app_assoc.
  split; [reflexivity|]. split.
  - apply NoDup_app; try assumption.
    intros t Ic Ir. destruct (Col t Ic). pose proof (Rest t Ir). lia.
  - intros t I. apply in_app_or in I. destruct I as [I|I].
    + destruct (Col t I). lia.
    + pose proof (Rest t I). lia.
Qed.

(** X12: The tags that the function returns are cell tags of one depth, a
    depth of 9 at most, and no tag comes twice. *)
Theorem view_tags_well_formed
  (viewbounds : LatLngBounds) (fuel : nat) (tags : list GeoBoxTag) :
  GeoBoxTagsFromViewBounds fuel viewbounds = Some (Ok tags) ->
  NoDup tags
  /\ exists depth, (depth < MAXDEPTH)%nat
       /\ forall t, In t tags -> valid_tag t /\ String.length t = depth.
Proof.
  unfold GeoBoxTagsFromViewBounds.
  destruct (descend_loop (MAXDEPTH + 1) viewbounds (start_hashers viewbounds))
    as [[h|e|m]|] eqn:L; try discriminate.
  pose proof (descend_loop_final_depth _ _ _ _ L) as D.
  destruct (descend_loop_reachable viewbounds _ (start_hashers viewbounds) h
              (reach_new _) (reach_new _) (reach_new _) (reach_new _) L)
    as (R1 & R2 & R3 & R4).
  apply reachable_valid_hash in R1, R3, R4. unfold GetHash, GetDepth in *.
  destruct (String.eqb _ _).
  - intros E. injection E as <-. split.
    + constructor; [intros [] | constructor].
    + exists (String.length (hash (swhasher h))). split; [exact D|].
      intros t [<-|[]]. auto.
  - destruct (_ || _); [discriminate|].
    destruct (GetEastBoxTag (hash (sehasher h))) as [endbot|e|m];
      try discriminate.
    intros W.
    destruct (east_walk_nodup _ _ _ _ _ _ _ R1 R4 W) as (v1 & E1 & ND & _).
    destruct (east_walk_visits _ _ _ _ _ _ _ R1 R4 W) as (_ & v2 & E2 & Vis).
    cbn [app] in E1, E2. subst tags. split; [exact ND|].
    exists (String.length (hash (swhasher h))). split; [exact D|].
    intros t I. subst v1. destruct (Vis t I) as (Vt & Lt & _). auto.
Qed.

Lemma view_tags_well_formed_witness :
  NoDup ["5"; "9"; "6"; "A"]
  /\ exists depth, (depth < MAXDEPTH)%nat
       /\ forall t, In t ["5"; "9"; "6"; "A"] ->
            valid_tag t /\ String.length t = depth.
Proof.
  apply (view_tags_well_formed middle_view 4).
  vm_compute. reflexivity.
Defined.

(** ** The tags of a view cover the view *)

(** A cursor aimed at a point within the view stands, at the depth of the
    four cursors of the view, between them: not south of the southern
    ones, not north of the northern ones, and likewise west and east. *)
Lemma between_the_corners
  (viewbounds : LatLngBounds) (n : nat) (h : Hashers) (g : Geohasher) :
  valid_bounds viewbounds ->
  hashers_ok viewbounds n h ->
  reachable (swhasher h) -> reachable (nehasher h) ->
  reachable (sehasher h) -> reachable (nwhasher h) ->
  reachable g -> valid_point (Point g) ->
  Within (Point g) viewbounds = true ->
  GetDepth g = GetDepth (swhasher h) ->
  (rowval (hash (swhasher h)) <= rowval (hash g) <= rowval (hash (nwhasher h)))%Z
  /\ (rowval (hash g) <= rowval (hash (nehasher h)))%Z
  /\ (colval (hash (swhasher h)) <= colval (hash g)
       <= colval (hash (sehasher h)))%Z
  /\ (colval (hash g) <= colval (hash (nehasher h)))%Z.
Proof.
  intros (Vs & Vn & Hlat & Hlng)
    (((D1 & _) & P1) & ((D2 & _) & P2) & ((D3 & _) & P3) & ((D4 & _) & P4))
    R1 R2 R3 R4 Rg Vg Wg Dg.
  assert (Vse : valid_point (Point (sehasher h)))
    by (rewrite P3; destruct Vs as (? & ? & ? & ?), Vn as (? & ? & ? & ?);
        repeat split; assumption).
  assert (Vnw : valid_point (Point (nwhasher h)))
    by (rewrite P4; destruct Vs as (? & ? & ? & ?), Vn as (? & ? & ? & ?);
        repeat split; assumption).
  destruct (valid_point_ord _ Vg) as [Oa On].
  rewrite Within_in1 in Wg. apply andb_prop in Wg. destruct Wg as [Wa Wn].
  destruct (in1_fle _ _ _ Oa (fle_ord_l _ _ Hlat) (fle_ord_r _ _ Hlat) Wa)
    as [La1 La2].
  destruct (in1_fle _ _ _ On (fle_ord_l _ _ Hlng) (fle_ord_r _ _ Hlng) Wn)
    as [Ln1 Ln2].
  rewrite <- P1 in Vs. rewrite <- P2 in Vn.
  assert (Dmax : (GetDepth g <= MAXDEPTH)%nat) by lia.
  destruct (cursors_monotone (swhasher h) g R1 Rg Vs Vg) as [A1 B1];
    [lia | lia |].
  destruct (cursors_monotone g (nwhasher h) Rg R4 Vg Vnw) as [A2 _];
    [lia | lia |].
  destruct (cursors_monotone g (nehasher h) Rg R2 Vg Vn) as [A3 B3];
    [lia | lia |].
  destruct (cursors_monotone g (sehasher h) Rg R3 Vg Vse) as [_ B4];
    [lia | lia |].
  rewrite P1 in A1, B1. rewrite P4 in A2. rewrite P2 in A3, B3.
  rewrite P3 in B4. cbn [Lat Lng] in *.
  specialize (A1 La1). specialize (B1 Ln1). specialize (A2 La2).
  specialize (A3 La2). specialize (B3 Ln2). specialize (B4 Ln2).
  lia.
Qed.

Lemma view_tags_cover {T : Type} `{LocatableLaws T}
  (viewbounds : LatLngBounds) (fuel : nat) (tags : list GeoBoxTag) (l : T) :
  valid_bounds viewbounds ->
  GeoBoxTagsFromViewBounds fuel viewbounds = Some (Ok tags) ->
  tags <> [""] ->
  valid_point (GetLocation l) ->
  Within (GetLocation l) viewbounds = true ->
  exists l' g,
    GenerateGeoBoxTags l = Some (l', None)
    /\ reachable g /\ Point g = GetLocation l
    /\ In (hash g) (GetGeoBoxTags l') /\ In (hash g) tags.
Proof.
  intros VB Run NE Vl Wl. pose proof VB as (Vs & Vn & _).
  unfold GeoBoxTagsFromViewBounds in Run.
  destruct (descend_loop (MAXDEPTH + 1) viewbounds (start_hashers viewbounds))
    as [[h|e|m]|] eqn:L; try discriminate.
  pose proof (descend_loop_final_depth _ _ _ _ L) as D.
  destruct (descend_loop_lockstep viewbounds _ (start_hashers viewbounds) h
              eq_refl eq_refl eq_refl L) as (E2 & E3 & E4).
  destruct (descend_loop_reachable viewbounds _ (start_hashers viewbounds) h
              (reach_new _) (reach_new _) (reach_new _) (reach_new _) L)
    as (R1 & R2 & R3 & R4).
  destruct (descend_loop_ok _ _ _ _ _ (start_hashers_ok _ Vs Vn) L) as (n & O).
  pose proof (reachable_valid_hash _ R1) as H1.
  pose proof (reachable_valid_hash _ R2) as H2.
  pose proof (reachable_valid_hash _ R3) as H3.
  pose proof (reachable_valid_hash _ R4) as H4.
  (* the view is tiled below depth 0 *)
  assert (Pos : (0 < GetDepth (swhasher h))%nat).
  { destruct (GetDepth (swhasher h)) as [|d] eqn:Q; [|lia]. exfalso.
    unfold GetDepth, GetHash in *.
    destruct (hash (swhasher h)); [|discriminate].
    destruct (hash (nehasher h)); [|discriminate].
    cbn in Run. injection Run as <-. now apply NE. }
  destruct (generate_cursors l (Within_world _ Vl)) as (l' & Gen & _ & All).
  destruct (All (GetDepth (swhasher h))) as (g & Rg & Pg & Dg & Ig); [lia|].
  exists l', g. split; [exact Gen|]. split; [exact Rg|].
  split; [exact Pg|]. split; [exact Ig|].
  rewrite <- Pg in Vl, Wl.
  destruct (between_the_corners viewbounds n h g VB O R1 R2 R3 R4 Rg Vl Wl Dg)
    as (Rows & RowN & Cols & ColN).
  pose proof (reachable_valid_hash _ Rg) as Hg.
  unfold GetHash, GetDepth in *.
  destruct (String.eqb_spec (hash (swhasher h)) (hash (nehasher h))) as [Q|Q].
  - injection Run as <-. left. rewrite <- Q in RowN, ColN.
    apply tag_inj; try assumption; lia.
  - destruct (_ || _); [discriminate|].
    destruct (GetEastBoxTag (hash (sehasher h))) as [endbot|e|m] eqn:E;
      try discriminate.
    destruct (east_moves _ _ H3 E) as (_ & _ & _ & Ce).
    apply (east_walk_covers _ _ _ _ _ _ _ H1 H4 Run); try assumption; lia.
Qed.

(** X13: An entity that lies within a valid view carries one of the tags of
    the view, unless the view is tiled at depth 0 and gets the empty tag
    alone: looking up the tags of the view finds the entity. The tag names a
    cell that holds the entity. *)
Theorem view_tags_find_the_entity {T : Type} `{LocatableLaws T}
  (viewbounds : LatLngBounds) (fuel : nat) (tags : list GeoBoxTag) (l : T) :
  valid_bounds viewbounds ->
  GeoBoxTagsFromViewBounds fuel viewbounds = Some (Ok tags) ->
  tags <> [""] ->
  valid_point (GetLocation l) ->
  Within (GetLocation l) viewbounds = true ->
  exists l' t cell,
    GenerateGeoBoxTags l = Some (l', None)
    /\ In t (GetGeoBoxTags l') /\ In t tags
    /\ cell_of_tag t = Some cell /\ Within (GetLocation l) cell = true.
Proof.
  intros VB Run NE Vl Wl.
  destruct (view_tags_cover viewbounds fuel tags l VB Run NE Vl Wl)
    as (l' & g & Gen & Rg & Pg & I1 & I2).
  destruct (generate_cursors l (Within_world _ Vl)) as (l1 & Gen1 & Each & _).
  rewrite Gen in Gen1. injection Gen1 as <-.
  destruct (Each _ I1) as (g1 & R1 & P1 & H1 & D1).
  assert (O : cursor_ok (MAXDEPTH - GetDepth g1) g1).
  { apply reachable_cursor_ok; [exact R1 | | lia].
    rewrite P1. now apply Within_world. }
  destruct O as (_ & _ & W1 & _ & C1). rewrite H1 in C1. rewrite P1 in W1.
  exists l', (hash g), (Box g1). auto.
Qed.

Lemma view_tags_find_the_entity_witness :
  exists l' t cell,
    GenerateGeoBoxTags (mkEntity {| Lat := 5%float; Lng := 5%float |} [])
    = Some (l', None)
    /\ In t (GetGeoBoxTags l') /\ In t ["5"; "9"; "6"; "A"]
    /\ cell_of_tag t = Some cell
    /\ Within (GetLocation (mkEntity {| Lat := 5%float; Lng := 5%float |} []))
         cell = true.
Proof.
  apply (view_tags_find_the_entity middle_view 4 ["5"; "9"; "6"; "A"]
           (mkEntity {| Lat := 5%float; Lng := 5%float |} [])).
  - repeat split; vm_compute; reflexivity.
  - vm_compute. reflexivity.
  - discriminate.
  - repeat split; vm_compute; reflexivity.
  - vm_compute. reflexivity.
Defined.

(** ** Coordinates that are not numbers *)

Lemma is_nan_spec (x : float) : is_nan x = true -> Prim2SF x = S754_nan.
Proof.
  unfold is_nan. rewrite FloatAxioms.eqb_spec. unfold SFeqb, SFcompare.
  destruct (Prim2SF x) as [[]|[]| |[] m e]; try discriminate; try reflexivity;
    rewrite Z.compare_refl;
    change (Pos.compare_cont Eq m m) with (Pos.compare m m);
    rewrite Pos.compare_refl; discriminate.
Qed.

Lemma nan_not_below (x y : float) :
  is_nan x = true -> (x <? y)%float = false /\ (y <? x)%float = false.
Proof.
  intros N. apply is_nan_spec in N.
  rewrite !FloatAxioms.ltb_spec, N. unfold SFltb, SFcompare.
  split; [reflexivity|]. destruct (Prim2SF y); reflexivity.
Qed.

Lemma nan_in1 (x lo hi : float) : is_nan x = true -> in1 x lo hi = true.
Proof.
  intros N. unfold in1.
  rewrite (proj1 (nan_not_below x lo N)), (proj2 (nan_not_below x hi N)).
  reflexivity.
Qed.

Lemma Descend_nan (g : Geohasher) :
  is_nan (Lat (Point g)) = true -> is_nan (Lng (Point g)) = true ->
  Descend g = ({| hash := hash g ++ "0"; Box := sub_box (Box g) 0 0;
                  Point := Point g |}, None).
Proof.
  intros Na Nn. unfold Descend.
  rewrite Within_in1, !nan_in1 by assumption. cbn [negb andb].
  rewrite scan_bands. unfold band, first_band.
  rewrite !nan_in1 by assumption. reflexivity.
Qed.

(** X14: A point whose two coordinates are NaN passes [Within] for every box,
    so [GenerateGeoBoxTags] does not reject it: the entity gets the ten tags
    of the south-west corner of the world. *)
Theorem generate_accepts_nan {T : Type} `{LocatableLaws T} (l : T) :
  is_nan (Lat (GetLocation l)) = true ->
  is_nan (Lng (GetLocation l)) = true ->
  (forall b, Within (GetLocation l) b = true)
  /\ exists l', GenerateGeoBoxTags l = Some (l', None)
                /\ GetGeoBoxTags l' = corner_tags.
Proof.
  intros Na Nn. split.
  { intros b. rewrite Within_in1, !nan_in1 by assumption. reflexivity. }
  unfold GenerateGeoBoxTags, MAXDEPTH.
  cbn [gen_loop GetDepth new_hasher hash String.length Nat.ltb Nat.leb].
  repeat (rewrite Descend_nan by assumption;
          cbn [gen_loop GetDepth hash String.length Nat.ltb Nat.leb append
                 Point]).
  eexists. split; [reflexivity|].
  rewrite !tags_add, tags_clear. reflexivity.
Qed.

Lemma generate_accepts_nan_witness :
  (forall b, Within (GetLocation (mkEntity {| Lat := nan; Lng := nan |} ["8"]))
               b = true)
  /\ exists l',
      GenerateGeoBoxTags (mkEntity {| Lat := nan; Lng := nan |} ["8"])
      = Some (l', None)
      /\ GetGeoBoxTags l' = corner_tags.
Proof.
  apply (generate_accepts_nan (mkEntity {| Lat := nan; Lng := nan |} ["8"]));
    reflexivity.
Defined.

(** ** The box-size table and the cells *)

Lemma world_size_lat :
  size_ok MAXDEPTH MINLAT MAXLAT (Lat (boxsize 0)) = true.
Proof. vm_compute. reflexivity. Qed.

Lemma world_size_lng :
  size_ok MAXDEPTH MINLNG MAXLNG (Lng (boxsize 0)) = true.
Proof. vm_compute. reflexivity. Qed.

Lemma size_ok_here (n : nat) (lo hi sz : float) :
  size_ok n lo hi sz = true -> abs (hi - lo) = sz.
Proof.
  destruct n; simpl; intros E; apply andb_prop in E;
    now apply FloatAxioms.Leibniz.eqb_spec.
Qed.

Lemma size_ok_S (n : nat) (lo hi sz : float) (j : nat) :
  size_ok (S n) lo hi sz = true -> (j < 4)%nat ->
  size_ok n (cut lo hi j) (cut lo hi (j + 1)) (sz / 4) = true.
Proof.
  simpl. intros E Hj. apply andb_prop in E. destruct E as [_ E].
  repeat (apply andb_prop in E; destruct E as [E ?]).
  destruct j as [|[|[|[|j]]]]; simpl; try assumption; lia.
Qed.

Lemma iv_size (dg : ascii -> Z) (t : string) :
  (forall c, hexval c <> None -> (0 <= dg c < 4)%Z) ->
  forall n lo hi sz,
    size_ok n lo hi sz = true -> valid_tag t -> (String.length t <= n)%nat ->
    abs (snd (iv_from dg lo hi t) - fst (iv_from dg lo hi t))
    = quarter (String.length t) sz.
Proof.
  intros R. induction t as [|c s IH]; intros n lo hi sz S V L.
  - exact (size_ok_here _ _ _ _ S).
  - destruct V as [Vc Vs]. simpl in L. destruct n as [|m]; [lia|].
    pose proof (R c Vc). cbn [iv_from String.length quarter].
    apply (IH m); [|exact Vs | lia].
    apply size_ok_S; [exact S | lia].
Qed.

Lemma boxsize_quarter (d : nat) :
  (d <= MAXDEPTH)%nat ->
  index BOXSIZES d
  = Ok {| Lat := quarter d (Lat (boxsize 0));
          Lng := quarter d (Lng (boxsize 0)) |}.
Proof.
  intros L. unfold MAXDEPTH in L.
  do 11 (destruct d as [|d]; [vm_compute; reflexivity|]). lia.
Qed.

(** X15: The table [BOXSIZES] holds the size of the cells: at every depth up
    to 10, the box of a cursor of the package spans, bit for bit, the
    latitudes and longitudes that the table gives for that depth. *)
Theorem table_holds_the_cell_sizes (g : Geohasher) :
  reachable g ->
  Within (Point g) world = true ->
  (GetDepth g <= MAXDEPTH)%nat ->
  index BOXSIZES (GetDepth g)
  = Ok {| Lat := lat_span (Box g); Lng := lng_span (Box g) |}.
Proof.
  intros R W D.
  assert (O : cursor_ok (MAXDEPTH - GetDepth g) g)
    by (apply reachable_cursor_ok; [exact R | exact W | lia]).
  rewrite (boxsize_quarter _ D). unfold lat_span, lng_span.
  rewrite (cursor_box _ _ O). cbn [Lat Lng SW NE].
  destruct O as (_ & _ & _ & V & _). unfold GetDepth in *.
  rewrite (iv_size row_of (hash g) row_of_range MAXDEPTH _ _ _
             world_size_lat V D).
  rewrite (iv_size col_of (hash g) col_of_range MAXDEPTH _ _ _
             world_size_lng V D).
  reflexivity.
Qed.

Lemma table_holds_the_cell_sizes_witness :
  index BOXSIZES (GetDepth (fst (Descend (new_hasher example_point))))
  = Ok {| Lat := lat_span (Box (fst (Descend (new_hasher example_point))));
          Lng := lng_span (Box (fst (Descend (new_hasher example_point)))) |}.
Proof.
  apply (table_holds_the_cell_sizes (fst (Descend (new_hasher example_point)))).
  - apply (reach_descend (new_hasher example_point)); [apply reach_new|].
    vm_compute. reflexivity.
  - vm_compute. reflexivity.
  - vm_compute. lia.
Defined.

(** ** Tags and the order of the points *)

(** X16: The tags follow the points: of the tags of one depth of two entities,
    the tag of the more southern entity is not in a higher row, and the tag of
    the more western entity is not in a higher column. *)
Theorem tags_follow_the_points {T : Type} `{LocatableLaws T} (l1 l2 : T) :
  valid_point (GetLocation l1) -> valid_point (GetLocation l2) ->
  exists l1' l2',
    GenerateGeoBoxTags l1 = Some (l1', None)
    /\ GenerateGeoBoxTags l2 = Some (l2', None)
    /\ forall t1 t2,
         In t1 (GetGeoBoxTags l1') -> In t2 (GetGeoBoxTags l2') ->
         String.length t1 = String.length t2 ->
         (fle (Lat (GetLocation l1)) (Lat (GetLocation l2)) ->
          (rowval t1 <= rowval t2)%Z)
         /\ (fle (Lng (GetLocation l1)) (Lng (GetLocation l2)) ->
             (colval t1 <= colval t2)%Z).
Proof.
  intros V1 V2.
  destruct (generate_cursors l1 (Within_world _ V1)) as (l1' & G1 & E1 & _).
  destruct (generate_cursors l2 (Within_world _ V2)) as (l2' & G2 & E2 & _).
  exists l1', l2'. split; [exact G1|]. split; [exact G2|].
  intros t1 t2 I1 I2 L.
  destruct (E1 t1 I1) as (g1 & R1 & P1 & <- & D1).
  destruct (E2 t2 I2) as (g2 & R2 & P2 & <- & D2).
  rewrite <- P1 in V1 |- *. rewrite <- P2 in V2 |- *.
  apply cursors_monotone; try assumption; try exact L; lia.
Qed.

Lemma tags_follow_the_points_witness :
  exists l1' l2',
    GenerateGeoBoxTags (mkEntity {| Lat := 5%float; Lng := 5%float |} [])
    = Some (l1', None)
    /\ GenerateGeoBoxTags (mkEntity example_point []) = Some (l2', None)
    /\ forall t1 t2,
         In t1 (GetGeoBoxTags l1') -> In t2 (GetGeoBoxTags l2') ->
         String.length t1 = String.length t2 ->
         (fle (Lat (GetLocation (mkEntity {| Lat := 5%float; Lng := 5%float |} [])))
              (Lat (GetLocation (mkEntity example_point []))) ->
          (rowval t1 <= rowval t2)%Z)
         /\ (fle (Lng (GetLocation (mkEntity {| Lat := 5%float; Lng := 5%float |} [])))
                 (Lng (GetLocation (mkEntity example_point []))) ->
             (colval t1 <= colval t2)%Z).
Proof.
  apply (tags_follow_the_points
           (mkEntity {| Lat := 5%float; Lng := 5%float |} [])
           (mkEntity example_point []));
    repeat split; vm_compute; reflexivity.
Defined.

(** ** The Store *)

(** X17: [StoreEntity] puts nothing into the datastore when the tags cannot be
    generated: the datastore is as before, the error is the one of a location
    outside the world, and the entity is left without tags. Otherwise it calls
    [Put] once, on the entity with its ten tags, and returns the error of
    [Put]. *)
Theorem store_entity_outcomes {T : Type} `{LocatableLaws T}
  (DS Key : Type) (Put : DS -> string -> T -> DS * (Error + Key))
  (ds : DS) (entityKind : string) (entity : T) :
  exists ds' entity' err,
    StoreEntity DS Key Put ds entityKind entity = Some (ds', entity', err)
    /\ ((Within (GetLocation entity) world = false
         /\ ds' = ds /\ err = Some err_outside
         /\ GetGeoBoxTags entity' = [])
        \/ (Within (GetLocation entity) world = true
            /\ List.length (GetGeoBoxTags entity') = 10%nat
            /\ exists r, Put ds entityKind entity' = (ds', r)
                         /\ err = match r with
                                  | inl e => Some e
                                  | inr _ => None
                                  end)).
Proof.
  unfold StoreEntity.
  destruct (Within (GetLocation entity) world) eqn:W.
  - destruct (generate_within entity W) as (l' & ts & -> & Tg & Ln & _).
    destruct (Put ds entityKind l') as [ds' [e|k]] eqn:P.
    + exists ds', l', (Some e). split; [reflexivity|]. right.
      split; [reflexivity|]. split; [now rewrite Tg|]. eauto.
    + exists ds', l', None. split; [reflexivity|]. right.
      split; [reflexivity|]. split; [now rewrite Tg|]. eauto.
  - rewrite (generate_outside entity W).
    exists ds, (ClearGeoBoxTags entity), (Some err_outside).
    split; [reflexivity|]. left. rewrite tags_clear. auto.
Qed.

Lemma store_entity_outcomes_witness :
  exists ds' entity' err,
    StoreEntity (list Entity) nat mem_put [] "place" stray_entity
    = Some (ds', entity', err)
    /\ ((Within (GetLocation stray_entity) world = false
         /\ ds' = [] /\ err = Some err_outside
         /\ GetGeoBoxTags entity' = [])
        \/ (Within (GetLocation stray_entity) world = true
            /\ List.length (GetGeoBoxTags entity') = 10%nat
            /\ exists r, mem_put [] "place" entity' = (ds', r)
                         /\ err = match r with
                                  | inl e => Some e
                                  | inr _ => None
                                  end)).
Proof.
  exact (store_entity_outcomes (list Entity) nat mem_put [] "place"
           stray_entity).
Defined.

Lemma query_tags_keeps (DS Key : Type)
  (GetAll : DS -> string -> GeoBoxTag -> Error + list Key)
  (ds : DS) (entityKind : string) (tags : list GeoBoxTag) :
  forall acc keys,
    query_tags DS Key GetAll ds entityKind tags acc = Ok keys ->
    incl acc keys
    /\ forall t ks, In t tags -> GetAll ds entityKind t = inr ks ->
         incl ks keys.
Proof.
  induction tags as [|t0 tags IH]; intros acc keys Q; cbn [query_tags] in Q.
  - injection Q as <-. split; [apply incl_refl | intros t ks []].
  - destruct (GetAll ds entityKind t0) as [e|ks0] eqn:G; [discriminate|].
    destruct (IH _ _ Q) as [Acc Rest].
    split.
    + intros k I. apply Acc, in_or_app. now left.
    + intros t ks [<-|I] Gt.
      * rewrite G in Gt. injection Gt as <-.
        intros k Ik. apply Acc, in_or_app. now right.
      * exact (Rest t ks I Gt).
Qed.

(** X18: When [GetEntitiesByRegion] returns keys for a valid view that is
    tiled below depth 0, every entity located within the view carries a tag
    under which the datastore was asked, and all the keys that the datastore
    holds under that tag are among the keys returned. *)
Theorem region_query_returns_the_keys {T : Type} `{LocatableLaws T}
  (DS Key : Type) (GetAll : DS -> string -> GeoBoxTag -> Error + list Key)
  (fuel : nat) (ds : DS) (viewbounds : LatLngBounds) (entityKind : string)
  (keys : list Key) (l : T) :
  valid_bounds viewbounds ->
  GetEntitiesByRegion DS Key GetAll fuel ds viewbounds entityKind
  = Some (Ok keys) ->
  GeoBoxTagsFromViewBounds fuel viewbounds <> Some (Ok [""]) ->
  valid_point (GetLocation l) ->
  Within (GetLocation l) viewbounds = true ->
  exists l' t,
    GenerateGeoBoxTags l = Some (l', None)
    /\ In t (GetGeoBoxTags l')
    /\ forall ks, GetAll ds entityKind t = inr ks -> incl ks keys.
Proof.
  intros VB Q NE Vl Wl. unfold GetEntitiesByRegion in Q.
  destruct (GeoBoxTagsFromViewBounds fuel viewbounds) as [[tags|e|m]|] eqn:R;
    try discriminate.
  injection Q as Q.
  destruct (view_tags_cover viewbounds fuel tags l VB R)
    as (l' & g & G & _ & _ & I1 & I2); try assumption.
  { intros ->. now apply NE. }
  exists l', (hash g). split; [exact G|]. split; [exact I1|].
  intros ks Gt.
  exact (proj2 (query_tags_keeps _ _ _ _ _ _ _ _ Q) (hash g) ks I2 Gt).
Qed.

Lemma region_query_returns_the_keys_witness :
  exists l' t,
    GenerateGeoBoxTags (mkEntity {| Lat := 5%float; Lng := 5%float |} [])
    = Some (l', None)
    /\ In t (GetGeoBoxTags l')
    /\ forall ks,
         mem_get_all [mkEntity example_point ["8"]; mkEntity example_point ["A"]]
           "place" t = inr ks ->
         incl ks [1%nat].
Proof.
  apply (region_query_returns_the_keys (list Entity) nat mem_get_all 4
           [mkEntity example_point ["8"]; mkEntity example_point ["A"]]
           middle_view "place" [1%nat]
           (mkEntity {| Lat := 5%float; Lng := 5%float |} [])).
  - repeat split; vm_compute; reflexivity.
  - vm_compute. reflexivity.
  - vm_compute. discriminate.
  - repeat split; vm_compute; reflexivity.
  - vm_compute. reflexivity.
Defined.

(** ** The earlier revision of the region tiling *)

(** A cursor of the package is its point and its depth. *)
Lemma reachable_unique (g1 : Geohasher) :
  reachable g1 ->
  forall g2, reachable g2 ->
    Point g1 = Point g2 -> GetDepth g1 = GetDepth g2 -> g1 = g2.
Proof.
  induction 1 as [p | g g' R IH D]; intros g2 R2 P Dp.
  - destruct R2 as [p2 | g0 g2 R0 D0].
    + simpl in P. now subst.
    + rewrite (Descend_depth _ _ D0) in Dp. discriminate.
  - destruct R2 as [p2 | g0 g2 R0 D0].
    + rewrite (Descend_depth _ _ D) in Dp. discriminate.
    + rewrite (Descend_depth _ _ D), (Descend_depth _ _ D0) in Dp.
      rewrite (Descend_point _ _ D), (Descend_point _ _ D0) in P.
      assert (g = g0) by (apply IH; [exact R0 | exact P | lia]).
      subst g0. rewrite D in D0. now injection D0.
Qed.

Lemma earlier_loop_same (n : nat) :
  forall fuel g,
    cursor_ok n g -> reachable g -> (n <= fuel)%nat ->
    exists g',
      Earlier.descend_loop fuel g g = Some (Ok (g', g'))
      /\ reachable g' /\ Point g' = Point g /\ GetDepth g' = MAXDEPTH.
Proof.
  induction n as [|n IH]; intros fuel g O R F.
  - destruct O as (D & _). rewrite Nat.add_0_r in D.
    exists g. split; [|auto].
    assert (E : (GetDepth g <? MAXDEPTH)%nat = false)
      by (apply Nat.ltb_ge; lia).
    destruct fuel; cbn [Earlier.descend_loop]; rewrite E, andb_false_r;
      reflexivity.
  - destruct fuel as [|fuel]; [lia|].
    pose proof O as (D & _).
    assert (E : (GetDepth g <? MAXDEPTH)%nat = true)
      by (apply Nat.ltb_lt; lia).
    destruct (Descend_cursor n g O) as (g1 & D1 & O1 & P1).
    cbn [Earlier.descend_loop]. unfold GetHash.
    rewrite String.eqb_refl, E, D1. cbn [andb].
    destruct (IH fuel g1 O1 (reach_descend _ _ R D1)) as (g' & L & R' & P' & D');
      [lia|].
    exists g'. split; [exact L|]. split; [exact R'|].
    split; [congruence | exact D'].
Qed.

(** X19: In the earlier revision the view that is a single valid point gets
    exactly one tag: the tag of length 10 that [GenerateGeoBoxTags] gives an
    entity at that point. *)
Theorem earlier_point_view_full_tag {T : Type} `{LocatableLaws T} (l : T) :
  valid_point (GetLocation l) ->
  exists l' t,
    GenerateGeoBoxTags l = Some (l', None)
    /\ Earlier.GeoBoxTagsFromViewBounds (point_view (GetLocation l))
       = Some (Ok [t])
    /\ In t (GetGeoBoxTags l') /\ String.length t = 10%nat.
Proof.
  intros V. pose proof (Within_world _ V) as W.
  destruct (generate_cursors l W) as (l' & Gen & _ & All).
  destruct (All MAXDEPTH) as (g & Rg & Pg & Dg & Ig); [unfold MAXDEPTH; lia|].
  destruct (earlier_loop_same MAXDEPTH MAXDEPTH (new_hasher (GetLocation l)))
    as (g' & L & R' & P' & D');
    [now apply new_hasher_ok | apply reach_new | lia |].
  assert (g' = g).
  { apply reachable_unique; [exact R' | exact Rg | | ].
    - rewrite P', Pg. reflexivity.
    - rewrite D', Dg. reflexivity. }
  subst g'.
  exists l', (hash g). split; [exact Gen|].
  split; [|split; [exact Ig | exact Dg]].
  unfold Earlier.GeoBoxTagsFromViewBounds, point_view. cbn [SW NE].
  rewrite L. unfold GetHash. rewrite String.eqb_refl. reflexivity.
Qed.

Lemma earlier_point_view_full_tag_witness :
  exists l' t,
    GenerateGeoBoxTags (mkEntity example_point []) = Some (l', None)
    /\ Earlier.GeoBoxTagsFromViewBounds
         (point_view (GetLocation (mkEntity example_point [])))
       = Some (Ok [t])
    /\ In t (GetGeoBoxTags l') /\ String.length t = 10%nat.
Proof.
  apply (earlier_point_view_full_tag (mkEntity example_point [])).
  repeat split; vm_compute; reflexivity.
Defined.

Example earlier_world_view :
  Earlier.GeoBoxTagsFromViewBounds world_view
  = Some (Ok ["0"; "1"; "2"; "3"; "4"; "5"; "6"; "7";
              "8"; "9"; "A"; "B"; "C"; "D"; "E"; "F"]).
Proof. vm_compute. reflexivity. Qed.

Lemma count_In (a b k : Z) : In k (Earlier.count a b) <-> (a <= k <= b)%Z.
Proof.
  unfold Earlier.count. rewrite in_map_iff. split.
  - intros (x & <- & Hx). apply in_seq in Hx. lia.
  - intros Hk. exists (Z.to_nat (k - a)). split; [lia|].
    apply in_seq. lia.
Qed.

Lemma CODES_index_at (i j : Z) :
  (0 <= i < 4)%Z -> (0 <= j < 4)%Z ->
  CODES_index i j = Ok (CODES_at (Z.to_nat i) (Z.to_nat j)).
Proof.
  intros Hi Hj.
  assert (Ci : (i = 0 \/ i = 1 \/ i = 2 \/ i = 3)%Z) by lia.
  assert (Cj : (j = 0 \/ j = 1 \/ j = 2 \/ j = 3)%Z) by lia.
  destruct Ci as [-> | [-> | [-> | ->]]];
    destruct Cj as [-> | [-> | [-> | ->]]]; reflexivity.
Qed.

Lemma row_codes_ok (i : Z) (js : list Z) :
  (0 <= i < 4)%Z -> (forall j, In j js -> (0 <= j < 4)%Z) ->
  forall suffixes,
    Earlier.row_codes i js suffixes
    = Ok (suffixes
          ++ map (fun j => CODES_at (Z.to_nat i) (Z.to_nat j)) js)%list.
Proof.
  intros Hi. induction js as [|j js IH]; intros Hjs suffixes.
  - simpl. now rewrite app_nil_r.
  - cbn [Earlier.row_codes]. rewrite CODES_index_at; [|exact Hi|].
    + rewrite IH; [|intros k Hk; apply Hjs; now right].
      rewrite <- app_assoc. reflexivity.
    + apply Hjs. now left.
Qed.

Lemma all_codes_ok (rows : list Z) (swint neint : Z) :
  (forall i, In i rows -> (0 <= i < 4)%Z) ->
  (0 <= swint < 16)%Z -> (0 <= neint < 16)%Z ->
  forall suffixes,
    Earlier.all_codes rows swint neint suffixes
    = Ok (suffixes
          ++ flat_map
               (fun i => map (fun j => CODES_at (Z.to_nat i) (Z.to_nat j))
                           (Earlier.count (Z.rem swint 4) (Z.rem neint 4)))
               rows)%list.
Proof.
  intros Hrows Hs Hn. induction rows as [|i rows IH]; intros suffixes.
  - simpl. now rewrite app_nil_r.
  - cbn [Earlier.all_codes]. rewrite row_codes_ok.
    + rewrite IH; [|intros k Hk; apply Hrows; now right].
      cbn [flat_map]. rewrite <- app_assoc. reflexivity.
    + apply Hrows. now left.
    + intros j Hj. apply count_In in Hj.
      quot_rem_facts swint. quot_rem_facts neint. lia.
Qed.

(** A symbol of the alphabet is the code of its row and its column. *)
Lemma CODES_at_row_col (c : ascii) :
  hexval c <> None ->
  CODES_at (Z.to_nat (row_of c)) (Z.to_nat (col_of c)) = String c "".
Proof.
  intros Vc.
  pose proof (row_of_range c Vc) as Hr. pose proof (col_of_range c Vc) as Hc.
  destruct (CODES_at_symbol (Z.to_nat (row_of c)) (Z.to_nat (col_of c)))
    as (c' & E & Vc' & Rc' & Cc'); [lia | lia |].
  rewrite E. f_equal. f_equal.
  rewrite Z2Nat.id in Rc', Cc' by lia.
  unfold row_of, col_of in Rc', Cc'.
  destruct (hexval c) as [v|] eqn:Ev; [|congruence].
  destruct (hexval c') as [v'|] eqn:Ev'; [|congruence].
  pose proof (hexval_range _ _ Ev). pose proof (hexval_range _ _ Ev').
  quot_rem_facts v. quot_rem_facts v'.
  assert (v' = v) by lia. subst v'.
  exact (hexval_inj _ _ _ Ev' Ev).
Qed.

(** The loop of the earlier revision, on two cursors of one depth whose
    hashes agree up to the last symbol: it returns two such cursors, at
    the full depth or with hashes that differ. *)
Lemma earlier_loop_valid (n : nat) :
  forall fuel sw ne,
    cursor_ok n sw -> cursor_ok n ne -> reachable sw -> reachable ne ->
    (n <= fuel)%nat ->
    (hash sw = hash ne
     \/ exists p c1 c2,
          hash sw = p ++ String c1 "" /\ hash ne = p ++ String c2 "") ->
    exists sw' ne',
      Earlier.descend_loop fuel sw ne = Some (Ok (sw', ne'))
      /\ reachable sw' /\ reachable ne'
      /\ Point sw' = Point sw /\ Point ne' = Point ne
      /\ GetDepth sw' = GetDepth ne' /\ (GetDepth sw' <= MAXDEPTH)%nat
      /\ (hash sw' <> hash ne' \/ GetDepth sw' = MAXDEPTH)
      /\ (hash sw' = hash ne'
          \/ exists p c1 c2,
               hash sw' = p ++ String c1 "" /\ hash ne' = p ++ String c2 "").
Proof.
  induction n as [|n IH]; intros fuel sw ne Os On Rs Rn F Form.
  - pose proof Os as (Ds & _). pose proof On as (Dn & _).
    rewrite Nat.add_0_r in Ds, Dn.
    assert (E : (GetDepth sw <? MAXDEPTH)%nat = false)
      by (apply Nat.ltb_ge; lia).
    exists sw, ne. split.
    { destruct fuel; cbn [Earlier.descend_loop]; rewrite E, andb_false_r;
        reflexivity. }
    split; [exact Rs|]. split; [exact Rn|].
    split; [reflexivity|]. split; [reflexivity|].
    split; [lia|]. split; [lia|].
    split; [right; exact Ds | exact Form].
  - destruct fuel as [|fuel]; [lia|].
    pose proof Os as (Ds & _). pose proof On as (Dn & _).
    cbn [Earlier.descend_loop]. unfold GetHash.
    destruct (String.eqb (hash sw) (hash ne)) eqn:E.
    + assert (E' : (GetDepth sw <? MAXDEPTH)%nat = true)
        by (apply Nat.ltb_lt; lia).
      rewrite E'. cbn [andb]. apply String.eqb_eq in E.
      destruct (Descend_cursor n sw Os) as (sw1 & D1 & O1 & P1).
      destruct (Descend_cursor n ne On) as (ne1 & D2 & O2 & P2).
      rewrite D1, D2.
      destruct (IH fuel sw1 ne1 O1 O2 (reach_descend _ _ Rs D1)
                  (reach_descend _ _ Rn D2))
        as (sw' & ne' & L & Rs' & Rn' & Ps' & Pn' & D' & Dm & Stop & Form');
        [lia | |].
      { right.
        destruct (Descend_form _ _ D1) as (_ & i & j & S1 & ->).
        destruct (Descend_form _ _ D2) as (_ & i' & j' & S2 & ->).
        destruct (scan_range _ _ _ _ S1) as [Hi Hj].
        destruct (scan_range _ _ _ _ S2) as [Hi' Hj'].
        destruct (CODES_at_symbol i j Hi Hj) as (c1 & -> & _).
        destruct (CODES_at_symbol i' j' Hi' Hj') as (c2 & -> & _).
        exists (hash sw), c1, c2. cbn [hash]. rewrite E. auto. }
      exists sw', ne'. split; [exact L|].
      split; [exact Rs'|]. split; [exact Rn'|].
      split; [congruence|]. split; [congruence|].
      split; [exact D'|]. split; [exact Dm|].
      split; [exact Stop | exact Form'].
    + cbn [andb]. exists sw, ne. split; [reflexivity|].
      split; [exact Rs|]. split; [exact Rn|].
      split; [reflexivity|]. split; [reflexivity|].
      split; [lia|]. split; [lia|].
      split; [|exact Form].
      left. intros Eq. rewrite Eq, String.eqb_refl in E. discriminate.
Qed.

(** The earlier revision on a valid view: it returns the tags of the cells
    from the row and column of the cell of the south-west corner to the
    row and column of the cell of the north-east corner, at the first
    depth where the two cells differ, or at the full depth. *)
Lemma earlier_view_form (viewbounds : LatLngBounds) :
  valid_bounds viewbounds ->
  exists tags sw ne,
    Earlier.GeoBoxTagsFromViewBounds viewbounds = Some (Ok tags)
    /\ reachable sw /\ reachable ne
    /\ Point sw = SW viewbounds /\ Point ne = NE viewbounds
    /\ GetDepth sw = GetDepth ne /\ (GetDepth sw <= MAXDEPTH)%nat
    /\ (hash sw <> hash ne \/ GetDepth sw = MAXDEPTH)
    /\ (hash sw = hash ne
        \/ exists p c1 c2,
             hash sw = p ++ String c1 "" /\ hash ne = p ++ String c2 "")
    /\ forall t,
         In t tags
         <-> valid_tag t /\ String.length t = GetDepth sw
             /\ (rowval (hash sw) <= rowval t <= rowval (hash ne))%Z
             /\ (colval (hash sw) <= colval t <= colval (hash ne))%Z.
Proof.
  intros (Vs & Vn & Hlat & Hlng).
  destruct (earlier_loop_valid MAXDEPTH MAXDEPTH (new_hasher (SW viewbounds))
              (new_hasher (NE viewbounds)))
    as (sw & ne & L & Rs & Rn & Ps & Pn & D & Dm & Stop & Form);
    [now apply new_hasher_ok | now apply new_hasher_ok | apply reach_new
    | apply reach_new | lia | left; reflexivity |].
  pose proof (reachable_valid_hash _ Rs) as Vsw.
  pose proof (reachable_valid_hash _ Rn) as Vne.
  unfold Earlier.GeoBoxTagsFromViewBounds. rewrite L. unfold GetHash.
  cbn zeta.
  destruct (String.eqb (hash sw) (hash ne)) eqn:E.
  - apply String.eqb_eq in E. exists [hash sw], sw, ne.
    split; [reflexivity|].
    split; [exact Rs|]. split; [exact Rn|].
    split; [exact Ps|]. split; [exact Pn|].
    split; [exact D|]. split; [exact Dm|]. split; [exact Stop|].
    split; [left; exact E|].
    intros t. split.
    + intros [<- | []]. rewrite <- E.
      split; [exact Vsw|]. split; [reflexivity | lia].
    + intros (Vt & Lt & Hr & Hc). left. rewrite <- E in Hr, Hc.
      apply tag_inj; [exact Vsw | exact Vt | | lia | lia].
      symmetry. exact Lt.
  - destruct Form as [Eq | (p & c1 & c2 & Es & En)].
    { rewrite Eq, String.eqb_refl in E. discriminate. }
    unfold GetDepth in *. rewrite Es in Vsw. rewrite En in Vne.
    rewrite Es, En.
    rewrite !length_app_char, Nat.eqb_refl. cbn [negb Nat.eqb].
    replace (S (String.length p) - 1)%nat with (String.length p) by lia.
    rewrite substring_prefix, !substring_last.
    apply valid_tag_snoc in Vsw, Vne.
    destruct Vsw as [Vp Vc1], Vne as [_ Vc2].
    pose proof (row_of_range _ Vc1) as Rr1.
    pose proof (row_of_range _ Vc2) as Rr2.
    pose proof (col_of_range _ Vc1) as Rc1.
    pose proof (col_of_range _ Vc2) as Rc2.
    unfold row_of, col_of in Rr1, Rr2, Rc1, Rc2.
    destruct (hexval c1) as [v1|] eqn:E1; [|congruence].
    destruct (hexval c2) as [v2|] eqn:E2; [|congruence].
    rewrite (ParseInt_hexval _ _ E1), (ParseInt_hexval _ _ E2).
    rewrite all_codes_ok;
      [| intros i Hi; apply count_In in Hi; lia
       | exact (hexval_range _ _ E1) | exact (hexval_range _ _ E2)].
    eexists _, sw, ne.
    split; [reflexivity|].
    split; [exact Rs|]. split; [exact Rn|].
    split; [exact Ps|]. split; [exact Pn|].
    split; [exact D|]. split; [exact Dm|]. split; [exact Stop|].
    split; [right; exists p, c1, c2; split; assumption|].
    rewrite Es, En, length_app_char.
    intros t. rewrite !rowval_snoc, !colval_snoc.
    replace (row_of c1) with (Z.quot v1 4) by (unfold row_of; now rewrite E1).
    replace (row_of c2) with (Z.quot v2 4) by (unfold row_of; now rewrite E2).
    replace (col_of c1) with (Z.rem v1 4) by (unfold col_of; now rewrite E1).
    replace (col_of c2) with (Z.rem v2 4) by (unfold col_of; now rewrite E2).
    cbn [app]. rewrite in_map_iff. split.
    + intros (s & <- & Hs). apply in_flat_map in Hs.
      destruct Hs as (i & Hi & Hs). apply in_map_iff in Hs.
      destruct Hs as (j & <- & Hj). apply count_In in Hi, Hj.
      destruct (CODES_at_symbol (Z.to_nat i) (Z.to_nat j))
        as (c & -> & Vc & Rc & Cc); [lia | lia |].
      rewrite Z2Nat.id in Rc, Cc by lia.
      split; [apply valid_tag_snoc; auto|].
      split; [apply length_app_char|].
      rewrite rowval_snoc, colval_snoc, Rc, Cc. lia.
    + intros (Vt & Lt & Hr & Hc).
      destruct (string_snoc t) as (p' & c & ->).
      { intros ->. discriminate. }
      rewrite length_app_char in Lt. rewrite rowval_snoc in Hr.
      rewrite colval_snoc in Hc. apply valid_tag_snoc in Vt.
      destruct Vt as [Vp' Vc].
      pose proof (row_of_range _ Vc) as Rr. pose proof (col_of_range _ Vc) as Rc.
      assert (p' = p).
      { apply tag_inj; [exact Vp' | exact Vp | lia | lia | lia]. }
      subst p'. exists (String c ""). split; [reflexivity|].
      apply in_flat_map. exists (row_of c). split; [apply count_In; lia|].
      apply in_map_iff. exists (col_of c).
      split; [now apply CODES_at_row_col | apply count_In; lia].
Qed.

(** X20: In the earlier revision every valid view gets its tags, and they
    are the cells between the two corners.  With [sw] and [ne] the cursors
    of the south-west and the north-east corner at the first depth where
    their hashes differ (the hashes agree up to the last symbol), or at
    the full depth if they never differ, a string is among the tags
    exactly when it is a cell tag of that depth whose row lies between
    the rows of the two hashes and whose column lies between their
    columns. *)
Theorem earlier_view_cells_between_corners (viewbounds : LatLngBounds) :
  valid_bounds viewbounds ->
  exists tags sw ne,
    Earlier.GeoBoxTagsFromViewBounds viewbounds = Some (Ok tags)
    /\ reachable sw /\ reachable ne
    /\ Point sw = SW viewbounds /\ Point ne = NE viewbounds
    /\ GetDepth sw = GetDepth ne /\ (GetDepth sw <= MAXDEPTH)%nat
    /\ (hash sw <> hash ne \/ GetDepth sw = MAXDEPTH)
    /\ (hash sw = hash ne
        \/ exists p c1 c2,
             hash sw = p ++ String c1 "" /\ hash ne = p ++ String c2 "")
    /\ forall t,
         In t tags
         <-> valid_tag t /\ String.length t = GetDepth sw
             /\ (rowval (hash sw) <= rowval t <= rowval (hash ne))%Z
             /\ (colval (hash sw) <= colval t <= colval (hash ne))%Z.
Proof. exact (earlier_view_form viewbounds). Qed.

Lemma earlier_view_cells_between_corners_witness :
  exists tags sw ne,
    Earlier.GeoBoxTagsFromViewBounds middle_view = Some (Ok tags)
    /\ reachable sw /\ reachable ne
    /\ Point sw = SW middle_view /\ Point ne = NE middle_view
    /\ GetDepth sw = GetDepth ne /\ (GetDepth sw <= MAXDEPTH)%nat
    /\ (hash sw <> hash ne \/ GetDepth sw = MAXDEPTH)
    /\ (hash sw = hash ne
        \/ exists p c1 c2,
             hash sw = p ++ String c1 "" /\ hash ne = p ++ String c2 "")
    /\ forall t,
         In t tags
         <-> valid_tag t /\ String.length t = GetDepth sw
             /\ (rowval (hash sw) <= rowval t <= rowval (hash ne))%Z
             /\ (colval (hash sw) <= colval t <= colval (hash ne))%Z.
Proof.
  apply (earlier_view_cells_between_corners middle_view).
  repeat split; vm_compute; reflexivity.
Defined.

(** X21: In the earlier revision the tags of a valid view find every entity in
    it: an entity whose location is valid and within the view is tagged by
    [GenerateGeoBoxTags] with one of the tags of the view. *)
Theorem earlier_view_tags_find_the_entity {T : Type} `{LocatableLaws T}
  (viewbounds : LatLngBounds) (tags : list GeoBoxTag) (l : T) :
  valid_bounds viewbounds ->
  Earlier.GeoBoxTagsFromViewBounds viewbounds = Some (Ok tags) ->
  valid_point (GetLocation l) ->
  Within (GetLocation l) viewbounds = true ->
  exists l' t,
    GenerateGeoBoxTags l = Some (l', None)
    /\ In t (GetGeoBoxTags l') /\ In t tags.
Proof.
  intros Vb E Vl Wl.
  destruct (earlier_view_form viewbounds Vb)
    as (tags' & sw & ne & E' & Rs & Rn & Ps & Pn & D & Dm & Stop & _ & Iff).
  rewrite E in E'. injection E' as <-.
  destruct Vb as (Vs & Vn & Hlat & Hlng).
  assert (Dpos : (0 < GetDepth sw)%nat).
  { destruct Stop as [Ne | ->]; [|unfold MAXDEPTH; lia].
    unfold GetDepth in *.
    destruct (hash sw) as [|a s]; [|simpl; lia].
    destruct (hash ne); [congruence | discriminate]. }
  destruct (generate_cursors l (Within_world _ Vl)) as (l' & Gen & _ & All).
  destruct (All (GetDepth sw)) as (g & Rg & Pg & Dg & Ig); [lia|].
  exists l', (hash g). split; [exact Gen|]. split; [exact Ig|].
  apply Iff. split; [exact (reachable_valid_hash _ Rg)|].
  split; [exact Dg|].
  destruct (valid_point_ord _ Vl) as [Oa On].
  rewrite Within_in1 in Wl. apply andb_prop in Wl. destruct Wl as [Wa Wn].
  destruct (in1_fle _ _ _ Oa (fle_ord_l _ _ Hlat) (fle_ord_r _ _ Hlat) Wa)
    as [La1 La2].
  destruct (in1_fle _ _ _ On (fle_ord_l _ _ Hlng) (fle_ord_r _ _ Hlng) Wn)
    as [Ln1 Ln2].
  rewrite <- Ps in Vs, La1, Ln1. rewrite <- Pn in Vn, La2, Ln2.
  rewrite <- Pg in Vl, La1, La2, Ln1, Ln2.
  destruct (cursors_monotone sw g Rs Rg Vs Vl) as [A1 B1]; [lia | lia |].
  destruct (cursors_monotone g ne Rg Rn Vl Vn) as [A2 B2]; [lia | lia |].
  specialize (A1 La1). specialize (B1 Ln1).
  specialize (A2 La2). specialize (B2 Ln2). lia.
Qed.

Lemma earlier_view_tags_find_the_entity_witness :
  exists l' t,
    GenerateGeoBoxTags (mkEntity {| Lat := 5%float; Lng := 5%float |} [])
    = Some (l', None)
    /\ In t (GetGeoBoxTags l') /\ In t ["5"; "6"; "9"; "A"].
Proof.
  apply (earlier_view_tags_find_the_entity middle_view ["5"; "6"; "9"; "A"]
           (mkEntity {| Lat := 5%float; Lng := 5%float |} [])).
  - repeat split; vm_compute; reflexivity.
  - vm_compute. reflexivity.
  - repeat split; vm_compute; reflexivity.
  - vm_compute. reflexivity.
Defined.
